(** * async_ip_rotator: a shallow embedding of [AsyncApiGateway]

    The development follows [src/async_ip_rotator/__init__.py].  Python
    strings are [string], dictionaries are [gmap], the blocking calls to the
    provider client (boto3), the transport (httpx), the random module and
    the console are effects of a small state, error and trace monad. *)

From Stdlib Require Import ZArith NArith List Ascii String Lia.
From stdpp Require Import base decidable option list strings gmap pretty.

Open Scope string_scope.
Open Scope list_scope.

(** ** Python [str] operations used by the module *)

Module Str.

(** [s.startswith(p)] *)
Fixpoint startswith (s p : string) {struct p} : bool :=
  match p with
  | EmptyString => true
  | String c p' =>
      match s with
      | EmptyString => false
      | String d s' => if Ascii.eqb c d then startswith s' p' else false
      end
  end.

(** [s[n:]] for [n >= 0] *)
Fixpoint drop (n : nat) (s : string) : string :=
  match n with
  | O => s
  | S n' => match s with EmptyString => EmptyString | String _ s' => drop n' s' end
  end.

(** [s[:-1]]: every character but the last one; the empty string stays
    empty. *)
Fixpoint slice_to_minus1 (s : string) : string :=
  match s with
  | EmptyString => EmptyString
  | String _ EmptyString => EmptyString
  | String c s' => String c (slice_to_minus1 s')
  end.

(** [s.endswith(x)]: some tail of [s] (possibly [s] itself, possibly the
    empty one) is [x]. *)
Fixpoint endswith (s x : string) : bool :=
  if String.eqb s x then true
  else match s with
       | EmptyString => false
       | String _ s' => endswith s' x
       end.

(** [s.partition(sep)] reduced to what the module needs: the text before
    and after the first (leftmost) occurrence of the non-empty [sep], or
    [None] when [sep] does not occur. *)
Fixpoint partition (sep s : string) : option (string * string) :=
  if startswith s sep then Some (EmptyString, drop (String.length sep) s)
  else match s with
       | EmptyString => None
       | String c s' =>
           match partition sep s' with
           | Some (before, after) => Some (String c before, after)
           | None => None
           end
       end.

(** [sep in s] *)
Definition contains (sep s : string) : bool :=
  match partition sep s with Some _ => true | None => false end.

(** [s.split(sep, 1)]: one or two pieces. *)
Definition split1 (sep s : string) : list string :=
  match partition sep s with
  | Some (before, after) => [before; after]
  | None => [s]
  end.

(** [s.split(sep)]: all the pieces.  Each cut removes at least the
    separator, so [String.length s] further cuts are always enough; the
    fuel is set by [split]. *)
Fixpoint split_fuel (fuel : nat) (sep s : string) : list string :=
  match partition sep s with
  | Some (before, after) =>
      match fuel with
      | O => [before; after]
      | S fuel' => before :: split_fuel fuel' sep after
      end
  | None => [s]
  end.

Definition split (sep s : string) : list string :=
  split_fuel (String.length s) sep s.

(** [sep.join(pieces)] *)
Fixpoint join (sep : string) (pieces : list string) : string :=
  match pieces with
  | [] => EmptyString
  | [p] => p
  | p :: rest => p +:+ sep +:+ join sep rest
  end.

(** [str(n)] for a non-negative integer *)
Definition of_N (n : N) : string := pretty n.
Definition of_nat (n : nat) : string := pretty n.

End Str.

(** ** The constructor: [AsyncApiGateway.__init__] *)

Definition DEFAULT_REGIONS : list string :=
  ["us-east-1"; "us-east-2"; "us-west-1"; "us-west-2"].

Definition EXTRA_REGIONS : list string :=
  DEFAULT_REGIONS ++
  ["ap-south-1"; "ap-northeast-3"; "ap-northeast-2"; "ap-southeast-1";
   "ap-southeast-2"; "ap-northeast-1"; "sa-east-1"; "eu-west-1"; "eu-west-2";
   "eu-west-3"; "eu-central-1"; "ca-central-1"].

Definition ALL_REGIONS : list string :=
  EXTRA_REGIONS ++
  ["ap-east-1"; "af-south-1"; "eu-south-1"; "me-south-1"; "eu-north-1"].

(** [MAX_IPV4 = ipaddress.IPv4Address._ALL_ONES], that is [2**32 - 1]. *)
Definition MAX_IPV4 : N := 4294967295%N.

(** The attributes of an [AsyncApiGateway] object. *)
Record AsyncApiGateway := mkGateway {
  site : string;
  access_key_id : option string;
  access_key_secret : option string;
  api_name : string;
  regions : list string;
  verbose : bool;
  endpoints : list string;
}.

(** The stripping done on [site] at lines 53-56. *)
Definition strip_site (site : string) : string :=
  if Str.endswith site "/" then Str.slice_to_minus1 site else site.

Definition __init__ (site : string) (regions : list string)
    (access_key_id access_key_secret : option string) (verbose : bool)
    : AsyncApiGateway :=
  let site' := strip_site site in
  {| site := site';
     access_key_id := access_key_id;
     access_key_secret := access_key_secret;
     api_name := site' +:+ " - IP Rotate API";
     regions := regions;
     verbose := verbose;
     endpoints := [] |}.


(** ** Exceptions, results and effects *)

(** What the provider client raises: [botocore.exceptions.ClientError],
    whose [response["Error"]["Code"]] is [code], or any other exception of
    the client library (connection errors and the like). *)
Inductive boto_exception :=
| ClientError (code : string) (message : string)
| BotoCoreError (message : string).

(** The exceptions that travel through the module.  [HTTPError] is what the
    transport raises. *)
Inductive exn :=
| RuntimeError (message : string)
| ValueError (message : string)
| IndexError (message : string)
| OverflowError (message : string)
| BotoException (e : boto_exception)
| HTTPError (message : string).

(** [str(e)] *)
Definition str_exn (e : exn) : string :=
  match e with
  | RuntimeError m | ValueError m | IndexError m | OverflowError m
  | HTTPError m => m
  | BotoException (ClientError _ m) | BotoException (BotoCoreError m) => m
  end.

(** The outcome of running a piece of the program: a value, an exception,
    or no outcome at all within the steps allowed to the one unbounded loop
    of the module (the pagination of [get_gateways_sync]). *)
Inductive result (A : Type) :=
| Return (a : A)
| Raise (e : exn)
| OutOfFuel.
Arguments Return {A} a.
Arguments Raise {A} e.
Arguments OutOfFuel {A}.

(** What [_init_gateway_sync] returns: the dictionary [{"success": False}]
    or [{"success": True, "endpoint": ..., "new": ...}]. *)
Inductive init_result :=
| Skipped
| Provisioned (endpoint : string) (new : bool).

(** One item of a listing page: [api["id"]] and [api["name"]] when the key
    is there. *)
Record rest_api := mkApi {
  rest_api_id : string;
  rest_api_name : option string;
}.

(** A response of [get_rest_apis]: [response["items"]] and
    [response.get("position")]. *)
Record page := mkPage {
  items : list rest_api;
  position : option string;
}.

(** The client made by [session.client("apigateway", region_name=...,
    aws_access_key_id=..., aws_secret_access_key=...)]. *)
Record client := mkClient {
  region_name : string;
  aws_access_key_id : option string;
  aws_secret_access_key : option string;
}.

(** The calls the module makes on a client, with the arguments that vary.
    [put_method] is always called with [httpMethod="ANY"],
    [authorizationType="NONE"] and the two request parameters;
    [put_integration] with [type="HTTP_PROXY"], [httpMethod="ANY"],
    [integrationHttpMethod="ANY"], [connectionType="INTERNET"] and the two
    mapped request parameters; [create_rest_api] with the regional
    endpoint configuration. *)
Inductive aws_call :=
| get_rest_apis (limit : nat) (position : option string)
| create_rest_api (name : string)
| get_resources (restApiId : string)
| create_resource (restApiId parentId pathPart : string)
| put_method (restApiId resourceId : string)
| put_integration (restApiId resourceId uri : string)
| create_deployment (restApiId stageName : string)
| delete_rest_api (restApiId : string).

(** What the module reads from the response of each call: the page, the
    ["id"] of a created object, the ["id"]s of the listed resources. *)
Definition reply (c : aws_call) : Type :=
  match c with
  | get_rest_apis _ _ => page
  | create_rest_api _ => string
  | get_resources _ => list string
  | create_resource _ _ _ => string
  | _ => unit
  end.

Abbreviation dict := (gmap string string).
Abbreviation loc := nat.

(** What a run does to the outside, in order. *)
Inductive event :=
| Stdout (line : string)
| Sleep (seconds : nat)
| NewClient (c : client)
| Aws (c : client) (call : aws_call) (failure : option boto_exception)
| Request (method url : string) (headers : dict).

Definition is_provision_attempt (e : event) : bool :=
  match e with NewClient _ => true | _ => false end.

Definition is_creation (e : event) : bool :=
  match e with
  | Aws _ (get_rest_apis _ _) _ | Aws _ (delete_rest_api _) _ => false
  | Aws _ _ _ => true
  | _ => false
  end.

(** The four bytes of a 32-bit integer, the most significant first. *)
Definition octets (ip_int : N) : list N :=
  [N.land (N.shiftr ip_int 24) 255; N.land (N.shiftr ip_int 16) 255;
   N.land (N.shiftr ip_int 8) 255; N.land ip_int 255].

Section Program.

(** The state of everything outside the program (the provider's
    regions, the network, the random generator), the responses of the
    transport, Python floats and the keyword arguments passed through to
    the transport. *)
Context {W Response float Kwargs : Type}.

(** The outside, as state-passing functions.  [randbelow n] is the
    generator behind [random.choice] and [random.randint]: some number
    below [n]. *)
Record Externals := mkExternals {
  randbelow : N → W → N * W;
  randbelow_lt : ∀ n w, (0 < n)%N → ((randbelow n w).1 < n)%N;
  aws : client → ∀ c : aws_call, W → (boto_exception + reply c) * W;
  request : string → string → dict → float → Kwargs → W → (string + Response) * W;
}.

Variable ext : Externals.

(** The Python heap holds the dictionaries that callers pass in. *)
Record world := mkWorld {
  outside : W;
  heap : gmap loc dict;
}.

Definition M (A : Type) : Type := world → result A * world * list event.

Definition ret {A} (a : A) : M A := λ w, (Return a, w, []).

Definition raise {A} (e : exn) : M A := λ w, (Raise e, w, []).

Definition out_of_fuel {A} : M A := λ w, (OutOfFuel, w, []).

Definition bind {A B} (m : M A) (k : A → M B) : M B := λ w,
  match m w with
  | (Return a, w', t) => let '(r, w'', t') := k a w' in (r, w'', t ++ t')
  | (Raise e, w', t) => (Raise e, w', t)
  | (OutOfFuel, w', t) => (OutOfFuel, w', t)
  end.

(** [try: m except Exception as e: ...]: the exception becomes a value. *)
Definition try {A} (m : M A) : M (exn + A) := λ w,
  match m w with
  | (Return a, w', t) => (Return (inr a), w', t)
  | (Raise e, w', t) => (Return (inl e), w', t)
  | (OutOfFuel, w', t) => (OutOfFuel, w', t)
  end.

Definition emit (e : event) : M unit := λ w, (Return tt, w, [e]).

Definition print (line : string) : M unit := emit (Stdout line).

Definition sleep (seconds : nat) : M unit := emit (Sleep seconds).

Definition when (b : bool) (m : M unit) : M unit := if b then m else ret tt.

#[local] Instance M_ret : MRet M := @ret.
#[local] Instance M_bind : MBind M := λ A B k m, bind m k.

(** *** The outside, lifted *)

Definition set_outside (o : W) (w : world) : world := mkWorld o (heap w).
Definition set_heap (h : gmap loc dict) (w : world) : world := mkWorld (outside w) h.

(** A call on the provider client. *)
Definition call (cl : client) (c : aws_call) : M (reply c) := λ w,
  match aws ext cl c (outside w) with
  | (inl e, o) => (Raise (BotoException e), set_outside o w, [Aws cl c (Some e)])
  | (inr r, o) => (Return r, set_outside o w, [Aws cl c None])
  end.

Definition _randbelow (n : N) : M N := λ w,
  let '(k, o) := randbelow ext n (outside w) in (Return k, set_outside o w, []).

(** [random.choice(seq)] is [seq[self._randbelow(len(seq))]]. *)
Definition choice (seq : list string) : M string :=
  match seq with
  | [] => raise (IndexError "Cannot choose from an empty sequence")
  | _ =>
      k ← _randbelow (N.of_nat (length seq));
      match seq !! N.to_nat k with
      | Some x => ret x
      | None => raise (IndexError "list index out of range")
      end
  end.

(** [random.randint(a, b)] is [a + self._randbelow(b - a + 1)]. *)
Definition randint (a b : N) : M N :=
  k ← _randbelow (b - a + 1)%N; ret (a + k)%N.

(** [ip_int.to_bytes(4, 'big')] *)
Definition to_bytes4_big (ip_int : N) : M (list N) :=
  if (ip_int <? 2 ^ 32)%N then ret (octets ip_int)
  else raise (OverflowError "int too big to convert").

(** [ipaddress.IPv4Address._string_from_ip_int(ip_int)] is
    ['.'.join(map(str, ip_int.to_bytes(4, 'big')))]. *)
Definition _string_from_ip_int (ip_int : N) : M string :=
  octets ← to_bytes4_big ip_int; ret (Str.join "." (map Str.of_N octets)).

(** Dictionaries live in the heap: [{}], [d.get(k)], [d[k] = v] and
    [d.pop(k, None)].  A location holds the empty dictionary until
    something is stored in it. *)
Definition deref (h : gmap loc dict) (d : loc) : dict := default ∅ (h !! d).

Definition dict_new : M loc := λ w,
  let l := fresh (dom (heap w)) in
  (Return l, set_heap (<[l := ∅]> (heap w)) w, []).

Definition dict_get (d : loc) (k : string) : M (option string) := λ w,
  (Return (deref (heap w) d !! k), w, []).

Definition dict_setitem (d : loc) (k v : string) : M unit := λ w,
  (Return tt, set_heap (<[d := <[k := v]> (deref (heap w) d)]> (heap w)) w, []).

Definition dict_pop (d : loc) (k : string) : M unit := λ w,
  (Return tt, set_heap (<[d := delete k (deref (heap w) d)]> (heap w)) w, []).

(** [async with httpx.AsyncClient(timeout=timeout) as client:
     await client.request(method, url, headers=headers, **kwargs)] *)
Definition client_request (method url : string) (headers : loc)
    (timeout : float) (request_kwargs : Kwargs) : M Response := λ w,
  let h := deref (heap w) headers in
  match request ext method url h timeout request_kwargs (outside w) with
  | (inl msg, o) => (Raise (HTTPError msg), set_outside o w, [Request method url h])
  | (inr r, o) => (Return r, set_outside o w, [Request method url h])
  end.

(** *** [send] *)

Definition send (self : AsyncApiGateway) (method url : string)
    (headers : option loc) (timeout : float) (request_kwargs : Kwargs)
    : M Response :=
  headers ← match headers with None => dict_new | Some d => ret d end;
  if bool_decide (endpoints self = []) then
    raise (RuntimeError "No API Gateway endpoints initialized. Call start() first.")
  else
    endpoint ← choice (endpoints self);
    match Str.split1 "://" url with
    | [protocol; site_rest] =>
        '(site_domain, site_path) ←
          (if Str.contains "/" site_rest then
             match Str.split1 "/" site_rest with
             | [site_domain; site_path] => ret (site_domain, site_path)
             | _ => raise (ValueError "not enough values to unpack (expected 2, got 1)")
             end
           else ret (site_rest, EmptyString));
        let new_url := "https://" +:+ endpoint +:+ "/ProxyStage/" +:+ site_path in
        dict_setitem headers "Host" endpoint;;
        x_forwarded_for ← dict_get headers "X-Forwarded-For";
        x_forwarded_for ←
          match x_forwarded_for with
          | None => ip_int ← randint 0 MAX_IPV4; _string_from_ip_int ip_int
          | Some v => ret v
          end;
        dict_pop headers "X-Forwarded-For";;
        dict_setitem headers "X-My-X-Forwarded-For" x_forwarded_for;;
        client_request method new_url headers timeout request_kwargs
    | _ => raise (ValueError "not enough values to unpack (expected 2, got 1)")
    end.

(** *** [get_gateways_sync] *)

(** The truth value of [response.get("position")]: [None] and the empty
    string are false. *)
Definition truthy (position : option string) : bool :=
  match position with
  | Some p => negb (String.eqb p EmptyString)
  | None => false
  end.

(** The [while True] loop; [fuel] bounds the number of pages read. *)
Fixpoint get_gateways_loop (fuel : nat) (cl : client)
    (gateways : list rest_api) (pos : option string)
    : M (list rest_api) :=
  match fuel with
  | O => out_of_fuel
  | S fuel' =>
      response ← (if truthy pos
                  then call cl (get_rest_apis 500 pos)
                  else call cl (get_rest_apis 500 None));
      let gateways := gateways ++ items response in
      let pos := position response in
      if negb (truthy pos) then ret gateways
      else get_gateways_loop fuel' cl gateways pos
  end.

Definition get_gateways_sync (fuel : nat) (cl : client) : M (list rest_api) :=
  get_gateways_loop fuel cl [] None.

(** *** [_init_gateway_sync] *)

Definition endpoint_of (restApiId region : string) : string :=
  restApiId +:+ ".execute-api." +:+ region +:+ ".amazonaws.com".

(** ["name" in api and api["name"].startswith(self.api_name)] *)
Definition recognized (self : AsyncApiGateway) (api : rest_api) : bool :=
  match rest_api_name api with
  | Some name => Str.startswith name (api_name self)
  | None => false
  end.

(** Lines 202-266: the creation of a new gateway. *)
Definition create_gateway (self : AsyncApiGateway) (awsclient : client)
    (region : string) (require_manual_deletion : bool) : M init_result :=
  let new_api_name :=
    if require_manual_deletion
    then api_name self +:+ " (Manual Deletion Required)"
    else api_name self in
  rest_api_id ← call awsclient (create_rest_api new_api_name);
  root_resp ← call awsclient (get_resources rest_api_id);
  match root_resp with
  | [] => raise (IndexError "list index out of range")
  | root_id :: _ =>
      proxy_resp ← call awsclient (create_resource rest_api_id root_id "{proxy+}");
      call awsclient (put_method rest_api_id root_id);;
      call awsclient (put_integration rest_api_id root_id (site self));;
      call awsclient (put_method rest_api_id proxy_resp);;
      call awsclient (put_integration rest_api_id proxy_resp (site self +:+ "/{proxy}"));;
      call awsclient (create_deployment rest_api_id "ProxyStage");;
      ret (Provisioned (endpoint_of rest_api_id region) true)
  end.

Definition _init_gateway_sync (fuel : nat) (self : AsyncApiGateway)
    (region : string) (force require_manual_deletion : bool)
    : M init_result :=
  let awsclient := mkClient region (access_key_id self) (access_key_secret self) in
  emit (NewClient awsclient);;
  if negb force then
    listing ← try (get_gateways_sync fuel awsclient);
    match listing with
    | inl (BotoException (ClientError code message)) =>
        if String.eqb code "UnrecognizedClientException" then
          when (verbose self)
            (print ("Could not create region (requires manual enabling): " +:+ region));;
          ret Skipped
        else raise (BotoException (ClientError code message))
    | inl e => raise e
    | inr current_apis =>
        match find (recognized self) current_apis with
        | Some api => ret (Provisioned (endpoint_of (rest_api_id api) region) false)
        | None => create_gateway self awsclient region require_manual_deletion
        end
    end
  else create_gateway self awsclient region require_manual_deletion.

(** [asyncio.to_thread(_blocking_init)] *)
Definition init_gateway (fuel : nat) (self : AsyncApiGateway)
    (region : string) (force require_manual_deletion : bool)
    : M init_result :=
  _init_gateway_sync fuel self region force require_manual_deletion.

(** *** [_delete_gateway_sync] *)

(** ["name" in api and api["name"] == self.api_name] *)
Definition names_gateway (self : AsyncApiGateway) (api : rest_api) : bool :=
  match rest_api_name api with
  | Some name => String.eqb name (api_name self)
  | None => false
  end.

(** [endpoints is not None and api["id"] not in endpoint_ids] *)
Definition not_listed (endpoints : option (list string))
    (endpoint_ids : list string) (api : rest_api) : bool :=
  match endpoints with
  | Some _ => negb (bool_decide (rest_api_id api ∈ endpoint_ids))
  | None => false
  end.

(** The [for api in apis] loop of lines 298-311. *)
Fixpoint delete_loop (self : AsyncApiGateway) (awsclient : client)
    (endpoints : option (list string)) (endpoint_ids : list string)
    (apis : list rest_api) (deleted_ids : list string) : M (list string) :=
  match apis with
  | [] => ret deleted_ids
  | api :: apis' =>
      let continue := delete_loop self awsclient endpoints endpoint_ids apis' in
      if names_gateway self api then
        if not_listed endpoints endpoint_ids api then continue deleted_ids
        else
          attempt ← try (call awsclient (delete_rest_api (rest_api_id api)));
          match attempt with
          | inr _ => continue (deleted_ids ++ [rest_api_id api])
          | inl (BotoException (ClientError code message)) =>
              if String.eqb code "TooManyRequestsException" then
                sleep 1;; continue deleted_ids
              else
                when (verbose self)
                  (print ("Failed to delete API " +:+ rest_api_id api +:+ ". Reason: "
                          +:+ message));;
                continue deleted_ids
          | inl e => raise e
          end
      else continue deleted_ids
  end.

Definition _delete_gateway_sync (fuel : nat) (self : AsyncApiGateway)
    (region : string) (endpoints : option (list string)) : M (list string) :=
  let awsclient := mkClient region (access_key_id self) (access_key_secret self) in
  emit (NewClient awsclient);;
  let endpoint_ids :=
    match endpoints with
    | Some eps => map (λ ep, hd EmptyString (Str.split "." ep)) eps
    | None => []
    end in
  listing ← try (get_gateways_sync fuel awsclient);
  match listing with
  | inl (BotoException (ClientError code message)) =>
      if String.eqb code "UnrecognizedClientException" then ret []
      else raise (BotoException (ClientError code message))
  | inl e => raise e
  | inr apis => delete_loop self awsclient endpoints endpoint_ids apis []
  end.

(** [asyncio.to_thread(_blocking_delete)] *)
Definition delete_gateway (fuel : nat) (self : AsyncApiGateway)
    (region : string) (endpoints : option (list string)) : M (list string) :=
  _delete_gateway_sync fuel self region endpoints.

(** *** [start] and [shutdown] *)

(** [asyncio.gather] over the tasks with [return_exceptions=True]: every task
    runs to its end, an exception is the result of its task, and the
    results come in the order of the tasks.  The tasks are run one after
    the other. *)
Fixpoint gather {A} (tasks : list (M A)) : M (list (exn + A)) :=
  match tasks with
  | [] => ret []
  | task :: tasks' =>
      r ← try task; rs ← gather tasks'; ret (r :: rs)
  end.

(** The [for result in results] loop of [start], over the endpoint list
    and the counter. *)
Fixpoint collect_endpoints (self : AsyncApiGateway)
    (results : list (exn + init_result))
    (acc : list string) (new_endpoints : nat) : M (list string * nat) :=
  match results with
  | [] => ret (acc, new_endpoints)
  | result :: results' =>
      match result with
      | inr (Provisioned endpoint new) =>
          collect_endpoints self results' (acc ++ [endpoint])
            (if new then S new_endpoints else new_endpoints)
      | inr Skipped => collect_endpoints self results' acc new_endpoints
      | inl e =>
          when (verbose self)
            (print ("Gateway creation task raised exception: " +:+ str_exn e));;
          collect_endpoints self results' acc new_endpoints
      end
  end.

Definition with_endpoints (self : AsyncApiGateway) (eps : list string)
    : AsyncApiGateway :=
  {| site := site self;
     access_key_id := access_key_id self;
     access_key_secret := access_key_secret self;
     api_name := api_name self;
     regions := regions self;
     verbose := verbose self;
     endpoints := eps |}.

Definition plural (n : nat) : string :=
  if (1 <? n)%nat then "s" else EmptyString.

(** The tasks that [start] hands to [gather]. *)
Definition start_tasks (fuel : nat) (self : AsyncApiGateway)
    (force require_manual_deletion : bool) : list (M init_result) :=
  map (λ region, init_gateway fuel self region force require_manual_deletion)
      (regions self).

(** [start] returns the list and leaves it in [self.endpoints]: the
    result is the returned list and the object after the call. *)
Definition start (fuel : nat) (self : AsyncApiGateway)
    (force require_manual_deletion : bool)
    (endpoints : option (list string))
    : M (list string * AsyncApiGateway) :=
  match endpoints with
  | Some (ep :: eps) => ret (ep :: eps, with_endpoints self (ep :: eps))
  | _ =>
      when (verbose self)
        (print ("Starting API gateway" +:+ plural (length (regions self))
                +:+ " in " +:+ Str.of_nat (length (regions self))
                +:+ " region(s)."));;
      results ← gather (start_tasks fuel self force require_manual_deletion);
      '(eps, new_endpoints) ← collect_endpoints self results [] 0;
      when (verbose self)
        (print ("Using " +:+ Str.of_nat (length eps)
                +:+ " endpoints with name '" +:+ api_name self +:+ "' ("
                +:+ Str.of_nat new_endpoints +:+ " new)."));;
      ret (eps, with_endpoints self eps)
  end.

(** The [for r in results] loop of [shutdown]. *)
Fixpoint collect_deleted (self : AsyncApiGateway)
    (results : list (exn + list string)) (deleted_ids : list string)
    : M (list string) :=
  match results with
  | [] => ret deleted_ids
  | inr ids :: results' => collect_deleted self results' (deleted_ids ++ ids)
  | inl e :: results' =>
      when (verbose self)
        (print ("Deletion task raised exception: " +:+ str_exn e));;
      collect_deleted self results' deleted_ids
  end.

Definition shutdown (fuel : nat) (self : AsyncApiGateway)
    (endpoints : option (list string)) : M (list string) :=
  when (verbose self)
    (print ("Deleting gateway" +:+ plural (length (regions self))
            +:+ " for site '" +:+ site self +:+ "'."));;
  results ← gather (map (λ region, delete_gateway fuel self region endpoints)
                        (regions self));
  deleted_ids ← collect_deleted self results [];
  when (verbose self)
    (print ("Deleted " +:+ Str.of_nat (length deleted_ids)
            +:+ " endpoint(s) for site '" +:+ site self +:+ "'."));;
  ret deleted_ids.

(** [__aenter__] and [__aexit__] *)
Definition __aenter__ (fuel : nat) (self : AsyncApiGateway) : M AsyncApiGateway :=
  '(_, self') ← start fuel self false false None; ret self'.

Definition __aexit__ (fuel : nat) (self : AsyncApiGateway) : M unit :=
  shutdown fuel self None;; ret tt.

End Program.

(** ** A simulated outside, to run the program on concrete inputs *)

Module Sim.

(** The random generator reads its numbers from a script; a region lists
    its gateways on one page, or fails; a deletion fails as [failures]
    says for the identifier; creations succeed; the transport answers
    [200 OK]. *)
Definition W : Type := list N.

Definition randbelow (n : N) (w : W) : N * W :=
  match w with
  | [] => (0%N, [])
  | d :: w' => ((d mod n)%N, w')
  end.

Definition aws (listing : string → boto_exception + list rest_api)
    (failures : string → option boto_exception)
    (cl : client) (c : aws_call) (w : W) : (boto_exception + reply c) * W :=
  match c return (boto_exception + reply c) * W with
  | get_rest_apis _ _ =>
      match listing (region_name cl) with
      | inl e => (inl e, w)
      | inr apis => (inr (mkPage apis None), w)
      end
  | create_rest_api _ => (inr ("new-" +:+ region_name cl), w)
  | get_resources _ => (inr ["root"], w)
  | create_resource _ _ _ => (inr "proxy", w)
  | put_method _ _ => (inr tt, w)
  | put_integration _ _ _ => (inr tt, w)
  | create_deployment _ _ => (inr tt, w)
  | delete_rest_api restApiId =>
      match failures restApiId with
      | Some e => (inl e, w)
      | None => (inr tt, w)
      end
  end.

Definition request (method url : string) (headers : dict) (timeout : unit)
    (kwargs : unit) (w : W) : (string + string) * W :=
  (inr "200 OK", w).

Definition externals (listing : string → boto_exception + list rest_api)
    (failures : string → option boto_exception)
    : @Externals W string unit unit.
Proof.
  refine (@mkExternals W string unit unit randbelow _ (aws listing failures) request).
  intros n [|d w] Hn; cbn; [exact Hn | apply N.mod_lt; lia].
Defined.

Definition no_failure : string → option boto_exception := λ _, None.
Definition no_gateway : string → boto_exception + list rest_api := λ _, inr [].

Definition world0 (draws : list N) : @world W := mkWorld draws ∅.

End Sim.


(** ** Vocabulary of the statements *)

(** The dotted-quad text of a 32-bit address. *)
Definition ipv4_string (ip_int : N) : string :=
  Str.join "." (map Str.of_N (octets ip_int)).

(** The path that [send] keeps of a URL remainder: what follows the first
    slash, or nothing. *)
Definition site_path_of (site_rest : string) : string :=
  match Str.partition "/" site_rest with
  | Some (_, site_path) => site_path
  | None => EmptyString
  end.

Definition proxied_url (endpoint site_rest : string) : string :=
  "https://" +:+ endpoint +:+ "/ProxyStage/" +:+ site_path_of site_rest.

(** The headers after lines 94-101, for the endpoint and the
    forwarded-for value in use. *)
Definition rewritten (endpoint forwarded : string) (h : dict) : dict :=
  <["X-My-X-Forwarded-For" := forwarded]>
    (delete "X-Forwarded-For" (<["Host" := endpoint]> h)).

Definition not_started_error : exn :=
  RuntimeError "No API Gateway endpoints initialized. Call start() first.".

Definition unpack_error : exn :=
  ValueError "not enough values to unpack (expected 2, got 1)".

(** The (identifier, failure) pairs of the deletion calls of a trace. *)
Definition deletions (t : list event) : list (string * option boto_exception) :=
  omap (λ e, match e with
             | Aws _ (delete_rest_api restApiId) failure => Some (restApiId, failure)
             | _ => None
             end) t.

Section Observations.

Context {W Response float Kwargs : Type}.
Variable ext : @Externals W Response float Kwargs.

(** [E] is the endpoint that [random.choice] draws from the list of
    [self] when the outside is [o0]; [o] is the outside afterwards. *)
Definition drawn (self : AsyncApiGateway) (o0 : W) (E : string) (o : W) : Prop :=
  ∃ k, randbelow ext (N.of_nat (length (endpoints self))) o0 = (k, o)
       ∧ endpoints self !! N.to_nat k = Some E.

(** [v] is the forwarded-for value for the caller's headers [h]: the
    caller's own, or the text of the address that [random.randint]
    draws next. *)
Definition forwarded (h : dict) (o : W) (v : string) (o' : W) : Prop :=
  match h !! "X-Forwarded-For" with
  | Some x => v = x ∧ o' = o
  | None => ∃ n, randbelow ext (MAX_IPV4 + 1) o = (n, o') ∧ (n <= MAX_IPV4)%N
                 ∧ v = ipv4_string n
  end.

(** The dictionary that [send] works on, its content when the call
    starts, and the heap once [headers] is settled (line 81). *)
Definition headers_loc (w : @world W) (headers : option loc) : loc :=
  match headers with Some d => d | None => fresh (dom (heap w)) end.

Definition caller_headers (w : @world W) (headers : option loc) : dict :=
  match headers with Some d => deref (heap w) d | None => ∅ end.

Definition settled_heap (w : @world W) (headers : option loc) : gmap loc dict :=
  match headers with
  | Some _ => heap w
  | None => <[fresh (dom (heap w)) := ∅]> (heap w)
  end.

End Observations.

Definition example_endpoint : string := "abc123.execute-api.us-east-1.amazonaws.com".

Definition example_gateway : AsyncApiGateway :=
  with_endpoints (__init__ "https://example.com/" DEFAULT_REGIONS None None true)
    [example_endpoint].

Definition quiet : @Externals Sim.W string unit unit :=
  Sim.externals Sim.no_gateway Sim.no_failure.

(** A heap with two dictionaries of a caller. *)
Definition example_world : @world Sim.W :=
  mkWorld [] (<[0%nat := <["X-Forwarded-For" := "1.2.3.4"]> (<["Accept" := "*/*"]> ∅)]>
                (<[1%nat := <["Cookie" := "k=v"]> ∅]> ∅)).

(** The endpoints that the results of the provisioning tasks contribute to
    the pool: one for a success, none for a skip or an exception. *)
Definition contribution (result : exn + init_result) : list string :=
  match result with
  | inr (Provisioned endpoint _) => [endpoint]
  | _ => []
  end.

Definition successes (results : list (exn + init_result)) : list string :=
  flat_map contribution results.

(** The number of provisioning or deprovisioning attempts in a trace: every
    attempt starts by making its client. *)
Definition attempts (t : list event) : nat :=
  length (List.filter is_provision_attempt t).

Definition is_print (e : event) : bool :=
  match e with Stdout _ => true | _ => false end.

(** What the deletion loop does after a call of [delete_rest_api]: a pause
    of one second after a rate limit, a report of any other error code when
    [verbose], nothing after a success. *)
Definition after_deletion (self : AsyncApiGateway) (cl : client)
    (d : string * option boto_exception) : list event :=
  Aws cl (delete_rest_api d.1) d.2 ::
  match d.2 with
  | Some (ClientError code message) =>
      if String.eqb code "TooManyRequestsException" then [Sleep 1]
      else if verbose self
           then [Stdout ("Failed to delete API " +:+ d.1 +:+ ". Reason: " +:+ message)]
           else []
  | _ => []
  end.

(** The identifiers whose deletion succeeded. *)
Definition no_deletion (e : event) : bool :=
  match e with Aws _ (delete_rest_api _) _ => false | _ => true end.

Definition deleted_of (ds : list (string * option boto_exception)) : list string :=
  omap (λ d, match d.2 with None => Some d.1 | Some _ => None end) ds.

(** The resources that the deletion loop tries to delete: those named
    exactly as the gateway, and on the allow-list when there is one. *)
Definition candidate (self : AsyncApiGateway) (endpoints : option (list string))
    (api : rest_api) : bool :=
  names_gateway self api
  && negb (not_listed endpoints
             (match endpoints with
              | Some eps => map (λ ep, hd EmptyString (Str.split "." ep)) eps
              | None => []
              end) api).

Definition client_of (self : AsyncApiGateway) (region : string) : client :=
  mkClient region (access_key_id self) (access_key_secret self).

(** A simulated account: a gateway of the site is there in [us-east-1],
    [us-east-2] is not enabled, the listing of [us-west-1] is refused, and
    the other regions are empty. *)
Definition mixed_listing (region : string) : boto_exception + list rest_api :=
  if String.eqb region "us-east-1" then
    inr [mkApi "abc123" (Some "https://example.com - IP Rotate API")]
  else if String.eqb region "us-east-2" then
    inl (ClientError "UnrecognizedClientException"
           "The security token included in the request is invalid.")
  else if String.eqb region "us-west-1" then
    inl (ClientError "AccessDeniedException" "User is not authorized.")
  else inr [].

Definition mixed : @Externals Sim.W string unit unit :=
  Sim.externals mixed_listing Sim.no_failure.

Definition silent_gateway : AsyncApiGateway :=
  __init__ "https://example.com/" DEFAULT_REGIONS None None false.

Definition no_creation (e : event) : bool := negb (is_creation e).

(** A simulated region with a gateway flagged for manual deletion, the
    gateway of the site and a resource of another tool;
    its deletions fail as [throttled] says. *)
Definition flagged_listing (region : string) : boto_exception + list rest_api :=
  inr [mkApi "m1" (Some "https://example.com - IP Rotate API (Manual Deletion Required)");
       mkApi "a1" (Some "https://example.com - IP Rotate API");
       mkApi "b2" (Some "https://example.com - IP Rotate API");
       mkApi "c3" (Some "other-tool")].

Definition throttled (restApiId : string) : option boto_exception :=
  if String.eqb restApiId "a1"
  then Some (ClientError "TooManyRequestsException" "Too Many Requests")
  else None.

Definition flagged : @Externals Sim.W string unit unit :=
  Sim.externals flagged_listing throttled.

Definition one_region_gateway : AsyncApiGateway :=
  __init__ "https://example.com/" ["us-east-1"] None None true.

Section RunVocabulary.

Context {W Response float Kwargs : Type}.
Variable ext : @Externals W Response float Kwargs.

(** Runs that emit only events of one kind, and runs that finish. *)
Definition emits_only {A} (P : event → bool) (m : @M W A) : Prop :=
  ∀ w, forallb P (m w).2 = true.

Definition finishes {A} (m : @M W A) : Prop :=
  ∀ w, (m w).1.1 ≠ OutOfFuel.

(** The pagination ends within [fuel] pages, for every client and state
    of the outside. *)
Definition listing_ends (fuel : nat) : Prop :=
  ∀ cl, finishes (get_gateways_sync ext fuel cl).

(** [_delete_gateway_sync], from the outcome of its listing. *)
Definition delete_after_listing (self : AsyncApiGateway) (region : string)
    (endpoints : option (list string))
    (listing : result (list rest_api) * @world W * list event)
    : result (list string) * @world W * list event :=
  let cl := client_of self region in
  match listing with
  | (Return apis, w1, t1) =>
      let '(r, w2, t2) :=
        delete_loop ext self cl endpoints
          (match endpoints with
           | Some eps => map (λ ep, hd EmptyString (Str.split "." ep)) eps
           | None => []
           end) apis [] w1 in
      (r, w2, NewClient cl :: t1 ++ t2)
  | (Raise (BotoException (ClientError code message)), w1, t1) =>
      if String.eqb code "UnrecognizedClientException"
      then (Return [], w1, NewClient cl :: t1)
      else (Raise (BotoException (ClientError code message)), w1, NewClient cl :: t1)
  | (Raise e, w1, t1) => (Raise e, w1, NewClient cl :: t1)
  | (OutOfFuel, w1, t1) => (OutOfFuel, w1, NewClient cl :: t1)
  end.

(** [_init_gateway_sync] without [force], from the outcome of its listing. *)
Definition init_after_listing (self : AsyncApiGateway) (region : string)
    (rmd : bool) (listing : result (list rest_api) * @world W * list event)
    : result init_result * @world W * list event :=
  let cl := client_of self region in
  match listing with
  | (Return apis, w1, t1) =>
      match find (recognized self) apis with
      | Some api =>
          (Return (Provisioned (endpoint_of (rest_api_id api) region) false), w1,
           NewClient cl :: t1)
      | None =>
          let '(r, w2, t2) := create_gateway ext self cl region rmd w1 in
          (r, w2, NewClient cl :: t1 ++ t2)
      end
  | (Raise (BotoException (ClientError code message)), w1, t1) =>
      if String.eqb code "UnrecognizedClientException" then
        (Return Skipped, w1,
         NewClient cl :: t1 ++
           (if verbose self
            then [Stdout ("Could not create region (requires manual enabling): "
                         +:+ region)]
            else []))
      else (Raise (BotoException (ClientError code message)), w1, NewClient cl :: t1)
  | (Raise e, w1, t1) => (Raise e, w1, NewClient cl :: t1)
  | (OutOfFuel, w1, t1) => (OutOfFuel, w1, NewClient cl :: t1)
  end.

Definition no_attempt (e : event) : bool := negb (is_provision_attempt e).

End RunVocabulary.

(** A simulated region where the gateway of the site is listed before a
    gateway flagged for manual deletion. *)
Definition shadowed_listing (region : string) : boto_exception + list rest_api :=
  inr [mkApi "a1" (Some "https://example.com - IP Rotate API");
       mkApi "m1" (Some "https://example.com - IP Rotate API (Manual Deletion Required)")].

Definition shadowed : @Externals Sim.W string unit unit :=
  Sim.externals shadowed_listing Sim.no_failure.

(** A simulated region with three gateways of the site, where the deletion
    of [a1] is rate-limited and the connection breaks during the deletion
    of [d4]. *)
Definition three_listing (region : string) : boto_exception + list rest_api :=
  inr [mkApi "a1" (Some "https://example.com - IP Rotate API");
       mkApi "b2" (Some "https://example.com - IP Rotate API");
       mkApi "d4" (Some "https://example.com - IP Rotate API")].

Definition breaking (restApiId : string) : option boto_exception :=
  if String.eqb restApiId "a1"
  then Some (ClientError "TooManyRequestsException" "Too Many Requests")
  else if String.eqb restApiId "d4"
  then Some (BotoCoreError "Could not connect to the endpoint URL")
  else None.

Definition broken : @Externals Sim.W string unit unit :=
  Sim.externals three_listing breaking.

(** ** Vocabulary of the further properties *)

(** The position that [get_gateways_sync] sends with its next call: none
    for the first call and after a false position. *)
Definition sent_position (pos : option string) : option string :=
  match pos with
  | Some p => if String.eqb p EmptyString then None else Some p
  | None => None
  end.

Section ListingVocabulary.

Context {W Response float Kwargs : Type}.
Variable ext : @Externals W Response float Kwargs.

(** The provider answers the calls of one listing: starting from the
  position [pos] and the outside [o], it returns the pages [pages], each
  with a true position that the next call sends back, and then [last]:
  a page with a false position, or a failure.  [o'] is the outside
  afterwards. *)
Fixpoint paged (cl : client) (pos : option string) (o : W) (pages : list page)
  (last : boto_exception + page) (o' : W) : Prop :=
match pages with
| [] =>
    aws ext cl (get_rest_apis 500 (sent_position pos)) o = (last, o')
    ∧ match last with
      | inr p =>
          match position p with
          | Some token => token = EmptyString
          | None => True
          end
      | inl _ => True
      end
| p :: pages' =>
    ∃ o1 token,
      aws ext cl (get_rest_apis 500 (sent_position pos)) o = (inr p, o1)
      ∧ position p = Some token ∧ token ≠ EmptyString
      ∧ paged cl (Some token) o1 pages' last o'
end.

End ListingVocabulary.

(** The calls of such a listing, as events. *)
Fixpoint listing_calls (cl : client) (pos : option string) (pages : list page)
    (last : boto_exception + page) : list event :=
  match pages with
  | [] =>
      [Aws cl (get_rest_apis 500 (sent_position pos))
         (match last with inl e => Some e | inr _ => None end)]
  | p :: pages' =>
      Aws cl (get_rest_apis 500 (sent_position pos)) None
      :: listing_calls cl (position p) pages' last
  end.

(** A simulated provider that lists in pages: a first page with the token
    [t1], a second one with the token [t2], and then, in [us-east-1], a
    last page whose position is the empty string, and in any other region
    a failure. *)
Definition paging_aws (cl : client) (c : aws_call) (w : Sim.W)
    : (boto_exception + reply c) * Sim.W :=
  match c return (boto_exception + reply c) * Sim.W with
  | get_rest_apis _ None =>
      (inr (mkPage [mkApi "p1" (Some "other-tool")] (Some "t1")), w)
  | get_rest_apis _ (Some token) =>
      if String.eqb token "t1" then
        (inr (mkPage [mkApi "p2" (Some "https://example.com - IP Rotate API");
                      mkApi "p3" None] (Some "t2")), w)
      else if String.eqb (region_name cl) "us-east-1" then
        (inr (mkPage [mkApi "p4" (Some "https://example.com - IP Rotate API")]
                (Some EmptyString)), w)
      else (inl (ClientError "ThrottlingException" "Rate exceeded"), w)
  | c' => Sim.aws Sim.no_gateway Sim.no_failure cl c' w
  end.

Definition paging : @Externals Sim.W string unit unit.
Proof.
  refine (@mkExternals Sim.W string unit unit Sim.randbelow _ paging_aws Sim.request).
  intros n [|d w] Hn; cbn; [exact Hn | apply N.mod_lt; lia].
Defined.

(** The eight calls that create a gateway, all successful: the REST API
    [restApiId] named [name], its root resource [root], the catch-all
    resource [proxy], a method and an integration on each, and the
    deployment of the stage. *)
Definition creation_calls (self : AsyncApiGateway) (cl : client)
    (name restApiId root proxy : string) : list event :=
  [Aws cl (create_rest_api name) None;
   Aws cl (get_resources restApiId) None;
   Aws cl (create_resource restApiId root "{proxy+}") None;
   Aws cl (put_method restApiId root) None;
   Aws cl (put_integration restApiId root (site self)) None;
   Aws cl (put_method restApiId proxy) None;
   Aws cl (put_integration restApiId proxy (site self +:+ "/{proxy}")) None;
   Aws cl (create_deployment restApiId "ProxyStage") None].

(** The name given to a new gateway. *)
Definition new_api_name (self : AsyncApiGateway) (require_manual_deletion : bool)
    : string :=
  if require_manual_deletion
  then api_name self +:+ " (Manual Deletion Required)"
  else api_name self.

Definition succeeded (e : event) : bool :=
  match e with Aws _ _ (Some _) => false | _ => true end.

Definition is_listing_call (e : event) : bool :=
  match e with Aws _ (get_rest_apis _ _) _ => true | _ => false end.

Definition is_delete_call (c : aws_call) : bool :=
  match c with delete_rest_api _ => true | _ => false end.

(** What provisioning may do: make a client, list, create, print. *)
Definition provisioning_event (e : event) : bool :=
  match e with
  | NewClient _ | Stdout _ => true
  | Aws _ c _ => negb (is_delete_call c)
  | Sleep _ | Request _ _ _ => false
  end.

(** What deprovisioning may do: make a client, list, delete, pause one
    second, print. *)
Definition deprovisioning_event (e : event) : bool :=
  match e with
  | NewClient _ | Stdout _ => true
  | Aws _ (get_rest_apis _ _) _ | Aws _ (delete_rest_api _) _ => true
  | Aws _ _ _ => false
  | Sleep seconds => Nat.eqb seconds 1
  | Request _ _ _ => false
  end.

Definition no_output (e : event) : bool := negb (is_print e).

(** The events that a predicate must accept for the runs of an object. *)
Record accepts (P : event → bool) (self : AsyncApiGateway) : Prop := {
  accepts_client : ∀ cl, P (NewClient cl) = true;
  accepts_listing : ∀ cl limit pos failure,
    P (Aws cl (get_rest_apis limit pos) failure) = true;
  accepts_output : verbose self = true → ∀ line, P (Stdout line) = true;
}.

(** A simulated region that holds only resources of others: another tool's
    API and an API without a name. *)
Definition foreign_listing (region : string) : boto_exception + list rest_api :=
  inr [mkApi "c3" (Some "other-tool"); mkApi "n0" None].

Definition foreign : @Externals Sim.W string unit unit :=
  Sim.externals foreign_listing Sim.no_failure.

(** The identifiers that the result of a deprovisioning task contributes to
    the list returned by [shutdown]: its list, or nothing for an
    exception. *)
Definition returned (result : exn + list string) : list string :=
  match result with inr ids => ids | inl _ => [] end.

(** Events whose deletion calls, if any, are on the identifiers [ids]. *)
Definition deletes_within (ids : list string) (e : event) : bool :=
  match e with
  | Aws _ (delete_rest_api restApiId) _ => bool_decide (restApiId ∈ ids)
  | _ => true
  end.

(** A simulated region as [flagged_listing], where the connection breaks
    during the deletion of [b2]. *)
Definition dropped (restApiId : string) : option boto_exception :=
  if String.eqb restApiId "b2"
  then Some (BotoCoreError "Connection was closed before a response was received")
  else None.

Definition interrupted : @Externals Sim.W string unit unit :=
  Sim.externals flagged_listing dropped.

(** The number of results of the provisioning tasks that report a gateway
    they created. *)
Definition is_new (result : exn + init_result) : bool :=
  match result with inr (Provisioned _ true) => true | _ => false end.

Definition new_count (results : list (exn + init_result)) : nat :=
  length (List.filter is_new results).

(** The lines that [start] and [shutdown] print first and last when
    [verbose]. *)
Definition starting_line (self : AsyncApiGateway) : string :=
  "Starting API gateway" +:+ plural (length (regions self))
  +:+ " in " +:+ Str.of_nat (length (regions self)) +:+ " region(s).".

Definition using_line (self : AsyncApiGateway) (eps : list string) (new_endpoints : nat)
    : string :=
  "Using " +:+ Str.of_nat (length eps) +:+ " endpoints with name '" +:+ api_name self
  +:+ "' (" +:+ Str.of_nat new_endpoints +:+ " new).".

Definition deleting_line (self : AsyncApiGateway) : string :=
  "Deleting gateway" +:+ plural (length (regions self))
  +:+ " for site '" +:+ site self +:+ "'.".

Definition deleted_line (self : AsyncApiGateway) (deleted_ids : list string) : string :=
  "Deleted " +:+ Str.of_nat (length deleted_ids)
  +:+ " endpoint(s) for site '" +:+ site self +:+ "'.".

(** * Facts *)

Module StrFacts.
Import Str.

Lemma app_cons c s x : String c s +:+ x = String c (s +:+ x).
Proof. reflexivity. Qed.

Lemma endswith_app_slash s : endswith (s +:+ "/") "/" = true.
Proof.
  induction s as [|c s IH]; [reflexivity|].
  rewrite app_cons. cbn [endswith]. rewrite IH. by destruct (String.eqb _ _).
Qed.

Lemma slice_app_slash s : slice_to_minus1 (s +:+ "/") = s.
Proof.
  induction s as [|c s IH]; [reflexivity|].
  rewrite app_cons. cbn [slice_to_minus1]. rewrite IH.
  destruct s; reflexivity.
Qed.

Lemma endswith_slash_inv s : endswith s "/" = true → ∃ t, s = t +:+ "/".
Proof.
  induction s as [|c s IH]; cbn [endswith].
  - discriminate.
  - destruct (String.eqb_spec (String c s) "/") as [->|_].
    + intros _. by exists EmptyString.
    + intros [t ->]%IH. by exists (String c t).
Qed.

Lemma startswith_app p x : startswith (p +:+ x) p = true.
Proof.
  induction p as [|c p IH]; [reflexivity|].
  rewrite app_cons. cbn [startswith]. by rewrite Ascii.eqb_refl.
Qed.

Lemma startswith_inv s p : startswith s p = true → s = p +:+ drop (String.length p) s.
Proof.
  revert s. induction p as [|c p IH]; intros s; [reflexivity|].
  destruct s as [|d s]; cbn [startswith]; [discriminate|].
  destruct (Ascii.eqb_spec c d) as [->|_]; [|discriminate].
  intros Hs. rewrite app_cons. cbn [String.length drop]. f_equal. by apply IH.
Qed.

Lemma app_empty_r s : s +:+ EmptyString = s.
Proof. induction s as [|c s IH]; [reflexivity|]. rewrite app_cons. by f_equal. Qed.

Lemma app_assoc s x y : (s +:+ x) +:+ y = s +:+ x +:+ y.
Proof. induction s as [|c s IH]; [reflexivity|]. rewrite !app_cons. by f_equal. Qed.

Lemma endswith_app s x : endswith (s +:+ x) x = true.
Proof.
  induction s as [|c s IH].
  - change (EmptyString +:+ x) with x. destruct x; cbn [endswith]; [done|].
    by rewrite String.eqb_refl.
  - rewrite app_cons. cbn [endswith]. rewrite IH. by destruct (String.eqb _ _).
Qed.

Lemma length_app s x : String.length (s +:+ x) = (String.length s + String.length x)%nat.
Proof. induction s as [|c s IH]; [reflexivity|]. rewrite app_cons. cbn. by f_equal. Qed.

Lemma app_inj_r s s' x : s +:+ x = s' +:+ x → s = s'.
Proof.
  revert s'. induction s as [|c s IH]; intros [|c' s'] Heq; [done|..].
  - apply (f_equal String.length) in Heq.
    rewrite !length_app in Heq. cbn in Heq. lia.
  - apply (f_equal String.length) in Heq.
    rewrite !length_app in Heq. cbn in Heq. lia.
  - rewrite !app_cons in Heq. injection Heq as -> Heq. f_equal. by apply IH.
Qed.

Lemma eqb_app_suffix p x : x ≠ EmptyString → String.eqb (p +:+ x) p = false.
Proof.
  intros Hx. apply String.eqb_neq. intros Heq.
  apply (f_equal String.length) in Heq. rewrite length_app in Heq.
  destruct x; [done|]. cbn in Heq. lia.
Qed.

(** The first slash. *)
Lemma partition_slash host path :
  contains "/" host = false →
  partition "/" (host +:+ "/" +:+ path) = Some (host, path).
Proof.
  unfold contains. induction host as [|c host IH]; [reflexivity|].
  rewrite app_cons. cbn [partition startswith].
  destruct (Ascii.eqb_spec "/" c) as [->|_]; [discriminate|].
  destruct (partition "/" host) as [[? ?]|] eqn:Hp; [discriminate|].
  intros _. by rewrite IH.
Qed.

(** The first [://]. *)
Lemma startswith_scheme_sep c s x :
  startswith (String c s) "://" = false →
  startswith (String c (s +:+ "://" +:+ x)) "://" = false.
Proof.
  cbn [startswith].
  destruct (Ascii.eqb ":" c); [|done].
  destruct s as [|c2 s]; [done|]. rewrite app_cons.
  destruct (Ascii.eqb "/" c2); [|done].
  destruct s as [|c3 s]; [done|]. rewrite app_cons.
  by destruct (Ascii.eqb "/" c3).
Qed.

Lemma partition_scheme scheme rest :
  contains "://" scheme = false →
  partition "://" (scheme +:+ "://" +:+ rest) = Some (scheme, rest).
Proof.
  unfold contains. induction scheme as [|c scheme IH]; [reflexivity|].
  rewrite app_cons. cbn [partition].
  destruct (startswith (String c scheme) "://") eqn:Hs; [discriminate|].
  rewrite (startswith_scheme_sep _ _ _ Hs).
  destruct (partition "://" scheme) as [[? ?]|] eqn:Hp; [discriminate|].
  intros _. by rewrite IH.
Qed.

End StrFacts.

Module Ipv4Facts.
Import Str StrFacts.

Lemma contains_dot_cons c s :
  contains "." (String c s) = (if Ascii.eqb "." c then true else contains "." s).
Proof.
  unfold contains. cbn [partition startswith].
  destruct (Ascii.eqb "." c); [done|]. by destruct (partition "." s) as [[? ?]|].
Qed.

Lemma partition_dot a b :
  contains "." a = false → partition "." (a +:+ "." +:+ b) = Some (a, b).
Proof.
  induction a as [|c a IH]; [reflexivity|].
  rewrite contains_dot_cons, app_cons. cbn [partition startswith].
  destruct (Ascii.eqb "." c); [discriminate|]. intros Ha. by rewrite IH.
Qed.

Lemma dot_cancel a b a' b' :
  contains "." a = false → contains "." a' = false →
  a +:+ "." +:+ b = a' +:+ "." +:+ b' → a = a' ∧ b = b'.
Proof.
  intros Ha Ha' Heq. apply (f_equal (partition ".")) in Heq.
  rewrite !partition_dot in Heq by done. by injection Heq.
Qed.

(** The decimal text of a number has no dot. *)
Lemma pretty_N_go_no_dot x s :
  contains "." s = false → contains "." (pretty_N_go x s) = false.
Proof.
  revert s. induction (N.lt_wf_0 x) as [x _ IH]; intros s Hs.
  assert (x = 0 ∨ 0 < x)%N as [->|Hx] by lia; [done|].
  rewrite pretty_N_go_step by done. apply IH; [by apply N.div_lt|].
  rewrite contains_dot_cons, Hs. unfold pretty_N_char. by repeat case_match.
Qed.

Lemma of_N_no_dot n : contains "." (of_N n) = false.
Proof.
  unfold of_N, pretty, pretty_N. case_decide; [done|].
  by apply pretty_N_go_no_dot.
Qed.

Lemma of_N_inj a b : of_N a = of_N b → a = b.
Proof. apply pretty_N_inj. Qed.

(** The bytes of an address, as arithmetic. *)
Lemma octets_eq n :
  octets n = [(n / 2 ^ 24) mod 256; (n / 2 ^ 16) mod 256; (n / 2 ^ 8) mod 256;
              n mod 256]%N.
Proof.
  unfold octets. change 255%N with (N.ones 8).
  rewrite !N.land_ones, !N.shiftr_div_pow2. reflexivity.
Qed.

Lemma octets_of_bytes a b c d :
  (a < 256 → b < 256 → c < 256 → d < 256 →
   octets (a * 2 ^ 24 + b * 2 ^ 16 + c * 2 ^ 8 + d) = [a; b; c; d])%N.
Proof.
  intros. rewrite octets_eq.
  change (2 ^ 24)%N with 16777216%N. change (2 ^ 16)%N with 65536%N.
  change (2 ^ 8)%N with 256%N.
  repeat f_equal; Zify.zify; Z.to_euclidean_division_equations; lia.
Qed.

Lemma octets_sum n :
  (n <= MAX_IPV4)%N →
  ∃ a b c d, (a < 256 ∧ b < 256 ∧ c < 256 ∧ d < 256
              ∧ n = a * 2 ^ 24 + b * 2 ^ 16 + c * 2 ^ 8 + d)%N
             ∧ octets n = [a; b; c; d].
Proof.
  unfold MAX_IPV4. intros Hn. rewrite octets_eq.
  eexists _, _, _, _. split; [|reflexivity].
  change (2 ^ 24)%N with 16777216%N. change (2 ^ 16)%N with 65536%N.
  change (2 ^ 8)%N with 256%N.
  repeat split; Zify.zify; Z.to_euclidean_division_equations; lia.
Qed.

Lemma ipv4_string_bytes a b c d :
  Str.join "." (map of_N [a; b; c; d])
  = of_N a +:+ "." +:+ of_N b +:+ "." +:+ of_N c +:+ "." +:+ of_N d.
Proof. reflexivity. Qed.

Lemma ipv4_string_inj n n' :
  (n <= MAX_IPV4)%N → (n' <= MAX_IPV4)%N →
  ipv4_string n = ipv4_string n' → n = n'.
Proof.
  intros (a & b & c & d & (_ & _ & _ & _ & ->) & Ho)%octets_sum
         (a' & b' & c' & d' & (_ & _ & _ & _ & ->) & Ho')%octets_sum.
  unfold ipv4_string. rewrite Ho, Ho', !ipv4_string_bytes.
  intros [Ha H1]%dot_cancel; [|apply of_N_no_dot..].
  apply dot_cancel in H1 as [Hb H2]; [|apply of_N_no_dot..].
  apply dot_cancel in H2 as [Hc Hd]; [|apply of_N_no_dot..].
  by rewrite (of_N_inj _ _ Ha), (of_N_inj _ _ Hb), (of_N_inj _ _ Hc), (of_N_inj _ _ Hd).
Qed.

End Ipv4Facts.

Section SendFacts.

Context {W Response float Kwargs : Type}.
Variable ext : @Externals W Response float Kwargs.

Ltac run :=
  unfold mbind, M_bind, bind, mret, M_ret, ret, raise, when, print, sleep,
    emit, try, dict_new, dict_get, dict_setitem, dict_pop, set_heap,
    set_outside in *; cbn [outside heap fst snd] in *.

Lemma choice_run (self : AsyncApiGateway) (w : @world W) :
  endpoints self ≠ [] →
  ∃ E o, drawn ext self (outside w) E o
         ∧ choice ext (endpoints self) w = (Return E, mkWorld o (heap w), []).
Proof.
  intros Hne. unfold drawn, choice, _randbelow.
  destruct (endpoints self) as [|e es] eqn:Heps; [done|]. run.
  pose proof (randbelow_lt ext (N.of_nat (length (e :: es))) (outside w)) as Hlt.
  destruct (randbelow ext _ (outside w)) as [k o] eqn:Hk. cbn [fst] in Hlt.
  assert (N.to_nat k < length (e :: es))%nat as Hk' by (cbn [length] in *; lia).
  destruct (lookup_lt_is_Some_2 _ _ Hk') as [E HE].
  exists E, o. split; [by exists k|]. cbn. by rewrite HE.
Qed.

Lemma deref_insert (h : gmap loc dict) d x : deref (<[d := x]> h) d = x.
Proof. unfold deref. by rewrite lookup_insert_eq. Qed.

Lemma send_none self method url timeout kwargs (w : @world W) :
  send ext self method url None timeout kwargs w
  = send ext self method url (Some (fresh (dom (heap w)))) timeout kwargs
      (mkWorld (outside w) (<[fresh (dom (heap w)) := ∅]> (heap w))).
Proof. reflexivity. Qed.

(** What a call of [send] does, case by case, on the dictionary [d] of
    content [h0]. *)
Lemma send_cases self method url timeout kwargs (w : @world W) d :
  let h0 := deref (heap w) d in
  let run := send ext self method url (Some d) timeout kwargs w in
  (endpoints self = [] ∧ run = (Raise not_started_error, w, []))
  ∨ (∃ E o, drawn ext self (outside w) E o ∧ Str.partition "://" url = None
            ∧ run = (Raise unpack_error, mkWorld o (heap w), []))
  ∨ (∃ E o protocol site_rest v o' res o'',
       drawn ext self (outside w) E o
       ∧ Str.partition "://" url = Some (protocol, site_rest)
       ∧ forwarded ext h0 o v o'
       ∧ request ext method (proxied_url E site_rest) (rewritten E v h0)
           timeout kwargs o' = (res, o'')
       ∧ run = (match res with inl m => Raise (HTTPError m) | inr r => Return r end,
                mkWorld o'' (<[d := rewritten E v h0]> (heap w)),
                [Request method (proxied_url E site_rest) (rewritten E v h0)])).
Proof.
  intros h0 run0. subst run0. unfold send. run.
  case_bool_decide as Heps.
  { left. split; [done|]. by destruct w. }
  right. destruct (choice_run self w Heps) as (E & o & HE & ->).
  unfold Str.split1.
  destruct (Str.partition "://" url) as [[protocol site_rest]|] eqn:Hurl.
  2:{ left. exists E, o. by repeat split. }
  right. exists E, o, protocol, site_rest.
  assert ((if Str.contains "/" site_rest
           then match match Str.partition "/" site_rest with
                      | Some (before, after) => [before; after]
                      | None => [site_rest]
                      end with
                | [site_domain; site_path] => ret (site_domain, site_path)
                | _ => raise unpack_error
                end
           else ret (site_rest, EmptyString)) (mkWorld o (heap w))
          = (Return (match Str.partition "/" site_rest with
                     | Some (a, _) => a | None => site_rest end,
                     site_path_of site_rest), mkWorld o (heap w), [])) as Hparts.
  { unfold Str.contains, site_path_of.
    by destruct (Str.partition "/" site_rest) as [[? ?]|]. }
  unfold ret, raise, unpack_error in Hparts. rewrite Hparts. clear Hparts.
  cbn [outside heap]. fold h0. rewrite !deref_insert.
  rewrite lookup_insert_ne by done.
  assert (∀ v o',
    forwarded ext h0 o v o' →
    ∃ res o'',
      request ext method (proxied_url E site_rest) (rewritten E v h0)
        timeout kwargs o' = (res, o'')
      ∧ (let '(r, w'', t') :=
           client_request ext method (proxied_url E site_rest) d timeout kwargs
             (mkWorld o'
                (let heap1 := <[d := <["Host" := E]> h0]> (heap w) in
                 let heap2 := <[d := delete "X-Forwarded-For" (deref heap1 d)]> heap1 in
                 <[d := <["X-My-X-Forwarded-For" := v]> (deref heap2 d)]> heap2))
         in (r, w'', [] ++ t'))
        = (match res with inl m => Raise (HTTPError m) | inr r => Return r end,
           mkWorld o'' (<[d := rewritten E v h0]> (heap w)),
           [Request method (proxied_url E site_rest) (rewritten E v h0)])) as Hend.
  { intros v o' _. cbn zeta. unfold client_request. cbn [outside heap].
    repeat (rewrite deref_insert || rewrite insert_insert_eq). unfold set_outside.
    cbn [outside heap].
    fold (rewritten E v h0).
    destruct (request ext method (proxied_url E site_rest) (rewritten E v h0)
                timeout kwargs o') as [res o''] eqn:Hreq.
    exists res, o''. split; [done|]. by destruct res. }
  fold (proxied_url E site_rest).
  destruct (h0 !! "X-Forwarded-For") as [x|] eqn:Hx.
  - destruct (Hend x o) as (res & o'' & Hreq & Hrun).
    { unfold forwarded. by rewrite Hx. }
    exists x, o, res, o''. split; [done|]. split; [done|]. split.
    { unfold forwarded. by rewrite Hx. }
    split; [done|].
    cbn [outside heap]. cbn [outside heap] in Hrun.
    destruct (client_request _ _ _ _ _ _ _) as [[r1 w1] t1]. cbn [app] in *. done.
  - unfold randint, _randbelow, _string_from_ip_int, to_bytes4_big. run.
    change (MAX_IPV4 - 0 + 1)%N with (MAX_IPV4 + 1)%N.
    pose proof (randbelow_lt ext (MAX_IPV4 + 1) o) as Hlt.
    destruct (randbelow ext (MAX_IPV4 + 1) o) as [n o'] eqn:Hn. cbn [fst] in Hlt.
    assert (n < 2 ^ 32)%N as Hn32 by (apply Hlt; done).
    assert (forwarded ext h0 o (ipv4_string n) o') as Hfw.
    { unfold forwarded. rewrite Hx. exists n. repeat split; [done|].
      unfold MAX_IPV4. change (2 ^ 32)%N with 4294967296%N in Hn32. lia. }
    destruct (Hend _ _ Hfw) as (res & o'' & Hreq & Hrun).
    exists (ipv4_string n), o', res, o''. repeat split; try done.
    rewrite !N.add_0_l. apply N.ltb_lt in Hn32. rewrite Hn32. cbn [outside heap app].
    fold (ipv4_string n).
    destruct (client_request _ _ _ _ _ _ _) as [[r1 w1] t1]. cbn [app] in *. done.
Qed.

Lemma send_cases_opt self method url headers timeout kwargs (w : @world W) :
  let d := headers_loc w headers in
  let h0 := caller_headers w headers in
  let heap0 := settled_heap w headers in
  let run := send ext self method url headers timeout kwargs w in
  (endpoints self = []
   ∧ run = (Raise not_started_error, mkWorld (outside w) heap0, []))
  ∨ (∃ E o, drawn ext self (outside w) E o ∧ Str.partition "://" url = None
            ∧ run = (Raise unpack_error, mkWorld o heap0, []))
  ∨ (∃ E o protocol site_rest v o' res o'',
       drawn ext self (outside w) E o
       ∧ Str.partition "://" url = Some (protocol, site_rest)
       ∧ forwarded ext h0 o v o'
       ∧ request ext method (proxied_url E site_rest) (rewritten E v h0)
           timeout kwargs o' = (res, o'')
       ∧ run = (match res with inl m => Raise (HTTPError m) | inr r => Return r end,
                mkWorld o'' (<[d := rewritten E v h0]> heap0),
                [Request method (proxied_url E site_rest) (rewritten E v h0)])).
Proof.
  destruct headers as [d|]; cbn [headers_loc caller_headers settled_heap].
  - destruct w as [o0 hp]. apply (send_cases self method url timeout kwargs (mkWorld o0 hp) d).
  - rewrite send_none.
    pose proof (send_cases self method url timeout kwargs
           (mkWorld (outside w) (<[fresh (dom (heap w)) := ∅]> (heap w)))
           (fresh (dom (heap w)))) as Hc.
    cbn [heap outside] in Hc. by rewrite deref_insert in Hc.
Qed.

Lemma drawn_elem_of self o0 E o : drawn ext self o0 E o → E ∈ endpoints self.
Proof. intros (k & _ & Hk). by eapply list_elem_of_lookup_2. Qed.

End SendFacts.

(** C3. With an empty endpoint list [send] raises the error of a pool that
    was not started, at once: no event at all is produced (no call to the
    transport or the provider) and the outside is as before.  With a
    non-empty list [send] never raises a [RuntimeError]. *)
Theorem send_requires_started {W Response float Kwargs : Type}
    (ext : @Externals W Response float Kwargs)
    self method url headers timeout kwargs (w : world) :
  (endpoints self = [] →
     ∃ w', send ext self method url headers timeout kwargs w
           = (Raise (RuntimeError "No API Gateway endpoints initialized. Call start() first."),
              w', [])
           ∧ outside w' = outside w)
  ∧ (endpoints self ≠ [] →
     ∀ message, (send ext self method url headers timeout kwargs w).1.1
                ≠ Raise (RuntimeError message)).
Proof.
  destruct (send_cases_opt ext self method url headers timeout kwargs w)
    as [[Heps ->]|[(E & o & HE & _ & ->)|(E & o & p & r & v & o' & res & o'' & HE & _ & _ & _ & ->)]].
  - split; [|done]. intros _. by eexists.
  - apply drawn_elem_of in HE. split; [by intros Heps; rewrite Heps in HE; inversion HE|].
    intros _ message. discriminate.
  - apply drawn_elem_of in HE. split; [by intros Heps; rewrite Heps in HE; inversion HE|].
    intros _ message. by destruct res.
Qed.

Lemma send_requires_started_witness :
  (∃ w', send quiet (__init__ "https://example.com/" DEFAULT_REGIONS None None true)
           "GET" "http://example.com/foo?x=1" None tt tt (Sim.world0 [])
         = (Raise (RuntimeError "No API Gateway endpoints initialized. Call start() first."),
            w', [])
         ∧ outside w' = outside (Sim.world0 []))
  ∧ (∀ message, (send quiet example_gateway "GET" "http://example.com/foo?x=1" None tt tt
                   (Sim.world0 [])).1.1 ≠ Raise (RuntimeError message)).
Proof.
  split.
  - apply (send_requires_started quiet
             (__init__ "https://example.com/" DEFAULT_REGIONS None None true)
             "GET" "http://example.com/foo?x=1" None tt tt (Sim.world0 [])).
    reflexivity.
  - apply (send_requires_started quiet example_gateway
             "GET" "http://example.com/foo?x=1" None tt tt (Sim.world0 [])).
    discriminate.
Defined.

(** C4. For a URL [scheme://host/path] (no [://] inside [scheme], no slash
    inside [host]) and a started pool, [send] issues exactly one request:
    to [https://E/ProxyStage/path], with header [Host] set to [E], where
    [E] is the endpoint of the pool that [random.choice] drew; the scheme
    and the host of the caller are gone.  On [http://example.com/foo?x=1]
    and the single endpoint [abc123.execute-api.us-east-1.amazonaws.com]
    the URL is
    [https://abc123.execute-api.us-east-1.amazonaws.com/ProxyStage/foo?x=1]. *)
Theorem send_rewrites_url {W Response float Kwargs : Type}
    (ext : @Externals W Response float Kwargs)
    self method headers timeout kwargs (w : world) :
  (∀ scheme host path,
     endpoints self ≠ [] →
     Str.contains "://" scheme = false →
     Str.contains "/" host = false →
     ∃ E o H,
       drawn ext self (outside w) E o ∧ E ∈ endpoints self
       ∧ (send ext self method (scheme +:+ "://" +:+ host +:+ "/" +:+ path)
            headers timeout kwargs w).2
         = [Request method ("https://" +:+ E +:+ "/ProxyStage/" +:+ path) H]
       ∧ H !! "Host" = Some E)
  ∧ (endpoints self = [example_endpoint] →
     ∃ H,
       (send ext self method "http://example.com/foo?x=1" headers timeout kwargs w).2
       = [Request method
            "https://abc123.execute-api.us-east-1.amazonaws.com/ProxyStage/foo?x=1" H]
       ∧ H !! "Host" = Some "abc123.execute-api.us-east-1.amazonaws.com").
Proof.
  assert (∀ scheme host path,
     endpoints self ≠ [] →
     Str.contains "://" scheme = false →
     Str.contains "/" host = false →
     ∃ E o H,
       drawn ext self (outside w) E o ∧ E ∈ endpoints self
       ∧ (send ext self method (scheme +:+ "://" +:+ host +:+ "/" +:+ path)
            headers timeout kwargs w).2
         = [Request method ("https://" +:+ E +:+ "/ProxyStage/" +:+ path) H]
       ∧ H !! "Host" = Some E) as Hgen.
  { intros scheme host path Heps Hscheme Hhost.
    destruct (send_cases_opt ext self method (scheme +:+ "://" +:+ host +:+ "/" +:+ path)
                headers timeout kwargs w)
      as [[Heps' _]|[(E & o & _ & Hp & _)|(E & o & p & r & v & o' & res & o'' & HE & Hp & _ & _ & ->)]].
    - done.
    - by rewrite StrFacts.partition_scheme in Hp.
    - rewrite StrFacts.partition_scheme in Hp by done. injection Hp as <- <-.
      exists E, o, (rewritten E v (caller_headers w headers)).
      split; [done|]. split; [by eapply drawn_elem_of|]. split.
      + cbn [snd]. unfold proxied_url, site_path_of.
        by rewrite StrFacts.partition_slash.
      + unfold rewritten. rewrite lookup_insert_ne, lookup_delete_ne by done.
        apply lookup_insert_eq. }
  split; [exact Hgen|].
  intros Heps.
  destruct (Hgen "http" "example.com" "foo?x=1") as (E & o & H & _ & HE & Ht & HH);
    [by rewrite Heps|done..|].
  rewrite Heps in HE. apply list_elem_of_singleton in HE as ->.
  by exists H.
Qed.

Lemma send_rewrites_url_witness :
  (∃ E o H,
     drawn quiet example_gateway (outside (Sim.world0 [])) E o ∧ E ∈ endpoints example_gateway
     ∧ (send quiet example_gateway "GET" ("http" +:+ "://" +:+ "example.com" +:+ "/" +:+ "foo?x=1")
          None tt tt (Sim.world0 [])).2
       = [Request "GET" ("https://" +:+ E +:+ "/ProxyStage/" +:+ "foo?x=1") H]
     ∧ H !! "Host" = Some E)
  ∧ (∃ H,
       (send quiet example_gateway "GET" "http://example.com/foo?x=1" None tt tt
          (Sim.world0 [])).2
       = [Request "GET"
            "https://abc123.execute-api.us-east-1.amazonaws.com/ProxyStage/foo?x=1" H]
       ∧ H !! "Host" = Some "abc123.execute-api.us-east-1.amazonaws.com").
Proof.
  split.
  - apply (send_rewrites_url quiet example_gateway "GET" None tt tt (Sim.world0 []));
      [discriminate | reflexivity | reflexivity].
  - apply (send_rewrites_url quiet example_gateway "GET" None tt tt (Sim.world0 [])).
    reflexivity.
Defined.

(** C5. Whatever headers the caller passes, on a started pool and a URL
    that contains [://], [send] issues one request, and the headers of
    this request have no [X-Forwarded-For] and have
    [X-My-X-Forwarded-For]: the caller's [X-Forwarded-For] value when there
    was one, and otherwise the dotted-quad text [a.b.c.d] of the number [n]
    that the random generator returns for the range [0 .. 2^32 - 1] right
    after the draw of the endpoint, used as it is.  No request is issued in
    any other case.  The text determines [n], every quadruple of bytes is
    the text of some [n], and every [n] of the range is sent under some
    outside: the address is as uniform over the whole 32-bit space as the
    generator is over its range. *)
Theorem send_forwarded_for :
  (∀ (W Response float Kwargs : Type) (ext : @Externals W Response float Kwargs)
     self method url headers timeout kwargs (w : world),
     endpoints self ≠ [] →
     Str.contains "://" url = true →
     ∃ E o u H,
       drawn ext self (outside w) E o
       ∧ (send ext self method url headers timeout kwargs w).2 = [Request method u H]
       ∧ H !! "X-Forwarded-For" = None
       ∧ match caller_headers w headers !! "X-Forwarded-For" with
         | Some x => H !! "X-My-X-Forwarded-For" = Some x
         | None =>
             ∃ n o', randbelow ext (MAX_IPV4 + 1) o = (n, o') ∧ (n <= MAX_IPV4)%N
                     ∧ H !! "X-My-X-Forwarded-For" = Some (ipv4_string n)
         end)
  ∧ (∀ (W Response float Kwargs : Type) (ext : @Externals W Response float Kwargs)
       self method url headers timeout kwargs (w : world) m u H,
       Request m u H ∈ (send ext self method url headers timeout kwargs w).2 →
       endpoints self ≠ [] ∧ Str.contains "://" url = true)
  ∧ (∀ n, (n <= MAX_IPV4)%N →
       ∃ a b c d, (a < 256 ∧ b < 256 ∧ c < 256 ∧ d < 256
                   ∧ n = a * 2 ^ 24 + b * 2 ^ 16 + c * 2 ^ 8 + d)%N
                  ∧ ipv4_string n
                    = Str.of_N a +:+ "." +:+ Str.of_N b +:+ "." +:+ Str.of_N c
                      +:+ "." +:+ Str.of_N d)
  ∧ (∀ n n', (n <= MAX_IPV4)%N → (n' <= MAX_IPV4)%N →
       ipv4_string n = ipv4_string n' → n = n')
  ∧ (∀ a b c d, (a < 256)%N → (b < 256)%N → (c < 256)%N → (d < 256)%N →
       ∃ n, (n <= MAX_IPV4)%N
            ∧ ipv4_string n
              = Str.of_N a +:+ "." +:+ Str.of_N b +:+ "." +:+ Str.of_N c
                +:+ "." +:+ Str.of_N d)
  ∧ (∀ n, (n <= MAX_IPV4)%N →
       ∃ u H,
         (send quiet example_gateway "GET" "http://example.com/foo?x=1" None tt tt
            (Sim.world0 [0%N; n])).2 = [Request "GET" u H]
         ∧ H !! "X-My-X-Forwarded-For" = Some (ipv4_string n)).
Proof.
  split; [|split; [|split; [|split; [|split]]]].
  - intros W Response float Kwargs ext self method url headers timeout kwargs w Heps Hurl.
    destruct (send_cases_opt ext self method url headers timeout kwargs w)
      as [[Heps' _]|[(E & o & _ & Hp & _)
                    |(E & o & p & r & v & o' & res & o'' & HE & _ & Hv & _ & ->)]].
    + done.
    + unfold Str.contains in Hurl. by rewrite Hp in Hurl.
    + exists E, o, (proxied_url E r), (rewritten E v (caller_headers w headers)).
      split; [done|]. split; [done|]. unfold rewritten. split.
      * rewrite lookup_insert_ne by done. apply lookup_delete_eq.
      * unfold forwarded in Hv. rewrite lookup_insert_eq.
        destruct (caller_headers w headers !! "X-Forwarded-For") as [x|].
        -- by destruct Hv as [-> _].
        -- destruct Hv as (n & Hn & Hle & ->). by exists n, o'.
  - intros W Response float Kwargs ext self method url headers timeout kwargs w m u H.
    destruct (send_cases_opt ext self method url headers timeout kwargs w)
      as [[_ ->]|[(E & o & _ & _ & ->)
                 |(E & o & p & r & v & o' & res & o'' & HE & Hp & _ & _ & ->)]];
      cbn [snd]; try by intros ?%elem_of_nil.
    intros _. split.
    + apply drawn_elem_of in HE. intros Heps. rewrite Heps in HE.
      by apply elem_of_nil in HE.
    + unfold Str.contains. by rewrite Hp.
  - intros n (a & b & c & d & Hb & Ho)%Ipv4Facts.octets_sum.
    exists a, b, c, d. split; [done|]. unfold ipv4_string. by rewrite Ho.
  - apply Ipv4Facts.ipv4_string_inj.
  - intros a b c d Ha Hb Hc Hd.
    exists (a * 2 ^ 24 + b * 2 ^ 16 + c * 2 ^ 8 + d)%N. split.
    + unfold MAX_IPV4. change (2 ^ 24)%N with 16777216%N.
      change (2 ^ 16)%N with 65536%N. change (2 ^ 8)%N with 256%N. lia.
    + unfold ipv4_string. by rewrite Ipv4Facts.octets_of_bytes.
  - intros n Hn.
    destruct (send_cases_opt quiet example_gateway "GET" "http://example.com/foo?x=1"
                None tt tt (Sim.world0 [0%N; n]))
      as [[Heps _]|[(E & o & _ & Hp & _)|(E & o & p & r & v & o' & res & o'' & HE & _ & Hv & _ & ->)]];
      [discriminate Heps|discriminate Hp|].
    eexists _, _. split; [reflexivity|].
    unfold rewritten. rewrite lookup_insert_eq. f_equal.
    destruct HE as (k & Hk & _).
    change (randbelow quiet (N.of_nat (length (endpoints example_gateway)))
              (outside (Sim.world0 [0%N; n])))
      with ((0 mod 1)%N, [n]) in Hk.
    injection Hk as _ <-.
    unfold forwarded, caller_headers in Hv. rewrite lookup_empty in Hv.
    destruct Hv as (n' & Hn' & _ & ->).
    change (randbelow quiet (MAX_IPV4 + 1) [n])
      with ((n mod (MAX_IPV4 + 1))%N, @nil N) in Hn'.
    injection Hn' as <- _.
    f_equal. apply N.mod_small. unfold MAX_IPV4 in *. lia.
Qed.

Lemma send_forwarded_for_witness :
  let url := "http://example.com/foo?x=1" in
  let given := send quiet example_gateway "GET" url (Some 0%nat) tt tt example_world in
  let drawn_one := send quiet example_gateway "GET" url None tt tt
                     (Sim.world0 [0%N; 3232235777%N]) in
  caller_headers example_world (Some 0%nat) !! "X-Forwarded-For" = Some "1.2.3.4"
  ∧ (∃ u H,
       given.2 = [Request "GET" u H]
       ∧ H !! "X-Forwarded-For" = None
       ∧ H !! "X-My-X-Forwarded-For" = Some "1.2.3.4")
  ∧ (∃ E o u H,
       drawn quiet example_gateway [0%N; 3232235777%N] E o
       ∧ drawn_one.2 = [Request "GET" u H]
       ∧ H !! "X-Forwarded-For" = None
       ∧ ∃ n o', randbelow quiet (MAX_IPV4 + 1) o = (n, o') ∧ (n <= MAX_IPV4)%N
                 ∧ H !! "X-My-X-Forwarded-For" = Some (ipv4_string n))
  ∧ drawn_one.2
    = [Request "GET" "https://abc123.execute-api.us-east-1.amazonaws.com/ProxyStage/foo?x=1"
         (rewritten example_endpoint "192.168.1.1" ∅)]
  ∧ (∃ a b c d, (a < 256 ∧ b < 256 ∧ c < 256 ∧ d < 256
                 ∧ 3232235777 = a * 2 ^ 24 + b * 2 ^ 16 + c * 2 ^ 8 + d)%N
                ∧ ipv4_string 3232235777
                  = Str.of_N a +:+ "." +:+ Str.of_N b +:+ "." +:+ Str.of_N c
                    +:+ "." +:+ Str.of_N d)
  ∧ (ipv4_string 3232235777 = ipv4_string 3232235777 → 3232235777%N = 3232235777%N)
  ∧ (∃ n, (n <= MAX_IPV4)%N
          ∧ ipv4_string n
            = Str.of_N 10 +:+ "." +:+ Str.of_N 0 +:+ "." +:+ Str.of_N 0
              +:+ "." +:+ Str.of_N 7)
  ∧ (∃ u H',
       (send quiet example_gateway "GET" "http://example.com/foo?x=1" None tt tt
          (Sim.world0 [0%N; 167772167%N])).2 = [Request "GET" u H']
       ∧ H' !! "X-My-X-Forwarded-For" = Some (ipv4_string 167772167)).
Proof.
  intros url given drawn_one.
  destruct send_forwarded_for as (Hsend & _ & Hform & Hinj & Hsurj & Hall).
  assert (caller_headers example_world (Some 0%nat) !! "X-Forwarded-For" = Some "1.2.3.4")
    as Hgiven by (vm_compute; reflexivity).
  split; [exact Hgiven|]. split; [|split; [|split]].
  - destruct (Hsend _ _ _ _ quiet example_gateway "GET" url (Some 0%nat) tt tt example_world)
      as (E & o & u & H & _ & Htrace & Hnone & Hvalue); [discriminate|reflexivity|].
    rewrite Hgiven in Hvalue. exists u, H.
    split; [exact Htrace|]. split; [exact Hnone|exact Hvalue].
  - destruct (Hsend _ _ _ _ quiet example_gateway "GET" url None tt tt
                (Sim.world0 [0%N; 3232235777%N]))
      as (E & o & u & H & HE & Htrace & Hnone & Hvalue); [discriminate|reflexivity|].
    exists E, o, u, H. split; [exact HE|]. split; [exact Htrace|].
    split; [exact Hnone|exact Hvalue].
  - vm_compute. reflexivity.
  - split; [apply Hform; vm_compute; discriminate|].
    split; [apply Hinj; vm_compute; discriminate|].
    split; [apply Hsurj; reflexivity|].
    apply Hall. vm_compute; discriminate.
Defined.

(** C10 as the code has it.  When the pool is started and the URL contains
    [://], [send] changes the caller's dictionary in place: afterwards it
    is the very headers of the request, with [Host] set to the drawn
    endpoint, no [X-Forwarded-For], [X-My-X-Forwarded-For] added (the
    caller's forwarded-for value if there was one) and every other key as
    it was; this holds whether the transport then answers or fails.  When
    the pool is empty or the URL has no [://], [send] raises before it
    touches the dictionary and the heap is unchanged.  No other dictionary
    ever changes, and without a [headers] argument the dictionary in use is
    a new one: every dictionary of the caller is as before. *)
Theorem send_mutates_headers {W Response float Kwargs : Type}
    (ext : @Externals W Response float Kwargs)
    self method url timeout kwargs (w : world) :
  (∀ d,
     let h0 := deref (heap w) d in
     let run := send ext self method url (Some d) timeout kwargs w in
     let h1 := deref (heap run.1.2) d in
     (∀ d', d' ≠ d → heap run.1.2 !! d' = heap w !! d')
     ∧ (endpoints self ≠ [] → Str.contains "://" url = true →
        ∃ E v u,
          E ∈ endpoints self
          ∧ run.2 = [Request method u h1]
          ∧ h1 !! "Host" = Some E
          ∧ h1 !! "X-Forwarded-For" = None
          ∧ h1 !! "X-My-X-Forwarded-For" = Some v
          ∧ (∀ x, h0 !! "X-Forwarded-For" = Some x → v = x)
          ∧ (∀ k, k ≠ "Host" → k ≠ "X-Forwarded-For" → k ≠ "X-My-X-Forwarded-For" →
                  h1 !! k = h0 !! k))
     ∧ (endpoints self = [] ∨ Str.contains "://" url = false →
        heap run.1.2 = heap w ∧ run.2 = []))
  ∧ (let run := send ext self method url None timeout kwargs w in
     (∀ d', is_Some (heap w !! d') → heap run.1.2 !! d' = heap w !! d')
     ∧ (∀ m u H k, Request m u H ∈ run.2 →
          k ≠ "Host" → k ≠ "X-Forwarded-For" → k ≠ "X-My-X-Forwarded-For" →
          H !! k = None)).
Proof.
  split.
  - intros d h0 run h1. subst run h1.
    destruct (send_cases ext self method url timeout kwargs w d)
      as [[Heps ->]|[(E & o & HE & Hp & ->)|(E & o & p & r & v & o' & res & o'' & HE & Hp & Hv & _ & ->)]];
      cbn [fst snd heap].
    + split; [done|]. split; [done|]. done.
    + split; [done|]. split; [|done].
      intros _. unfold Str.contains. by rewrite Hp.
    + fold h0 in Hv |- *. rewrite deref_insert.
      split; [by intros d' Hd'; rewrite lookup_insert_ne|]. split.
      * intros _ _. exists E, v, (proxied_url E r).
        split; [by eapply drawn_elem_of|]. split; [done|].
        unfold rewritten. split.
        { rewrite lookup_insert_ne, lookup_delete_ne by done. apply lookup_insert_eq. }
        split. { rewrite lookup_insert_ne by done. apply lookup_delete_eq. }
        split. { apply lookup_insert_eq. }
        split. { intros x Hx. unfold forwarded in Hv. rewrite Hx in Hv. by destruct Hv. }
        intros k Hk1 Hk2 Hk3.
        by rewrite lookup_insert_ne, lookup_delete_ne, lookup_insert_ne.
      * intros [Heps|Hc].
        { apply drawn_elem_of in HE. rewrite Heps in HE. inversion HE. }
        { unfold Str.contains in Hc. by rewrite Hp in Hc. }
  - intros run. subst run.
    assert (∀ d', is_Some (heap w !! d') → d' ≠ fresh (dom (heap w))) as Hfresh.
    { intros d' Hd' ->. apply (elem_of_dom (heap w)) in Hd'. by apply is_fresh in Hd'. }
    destruct (send_cases_opt ext self method url None timeout kwargs w)
      as [[Heps ->]|[(E & o & HE & Hp & ->)|(E & o & p & r & v & o' & res & o'' & HE & Hp & Hv & _ & ->)]];
      cbn [fst snd heap headers_loc settled_heap caller_headers].
    + split; [|by intros ???? ?%elem_of_nil].
      intros d' Hd'. rewrite lookup_insert_ne; [done|]. intros <-. by apply (Hfresh _ Hd').
    + split; [|by intros ???? ?%elem_of_nil].
      intros d' Hd'. rewrite lookup_insert_ne; [done|]. intros <-. by apply (Hfresh _ Hd').
    + split.
      * intros d' Hd'. rewrite !lookup_insert_ne; [done|..]; intros <-; by apply (Hfresh _ Hd').
      * intros m u H k [= _ _ ->]%list_elem_of_singleton Hk1 Hk2 Hk3. unfold rewritten.
        by rewrite lookup_insert_ne, lookup_delete_ne, lookup_insert_ne, lookup_empty.
Qed.

Lemma send_mutates_headers_witness :
  let run := send quiet example_gateway "GET" "http://example.com/foo?x=1" (Some 0%nat)
               tt tt example_world in
  let h0 := deref (heap example_world) 0%nat in
  let h1 := deref (heap run.1.2) 0%nat in
  heap run.1.2 !! 1%nat = heap example_world !! 1%nat
  ∧ (∃ E v u,
       E ∈ endpoints example_gateway
       ∧ run.2 = [Request "GET" u h1]
       ∧ h1 !! "Host" = Some E
       ∧ h1 !! "X-Forwarded-For" = None
       ∧ h1 !! "X-My-X-Forwarded-For" = Some v
       ∧ (∀ x, h0 !! "X-Forwarded-For" = Some x → v = x)
       ∧ (∀ k, k ≠ "Host" → k ≠ "X-Forwarded-For" → k ≠ "X-My-X-Forwarded-For" →
               h1 !! k = h0 !! k))
  ∧ (let run' := send quiet example_gateway "GET" "example.com/foo" (Some 0%nat)
                   tt tt example_world in
     heap run'.1.2 = heap example_world ∧ run'.2 = [])
  ∧ (let run' := send quiet example_gateway "GET" "http://example.com/foo?x=1" None
                   tt tt example_world in
     heap run'.1.2 !! 0%nat = heap example_world !! 0%nat).
Proof.
  intros run h0 h1.
  pose proof (send_mutates_headers quiet example_gateway "GET"
                "http://example.com/foo?x=1" tt tt example_world) as [Hsome Hnone].
  destruct (Hsome 0%nat) as (Hframe & Hmut & _).
  split; [apply Hframe; lia|].
  split; [apply Hmut; [discriminate|reflexivity]|].
  split.
  - pose proof (send_mutates_headers quiet example_gateway "GET"
                  "example.com/foo" tt tt example_world) as [Hsome' _].
    destruct (Hsome' 0%nat) as (_ & _ & Hexit). apply Hexit. right. reflexivity.
  - destruct Hnone as [Hold _]. apply Hold. vm_compute. by eexists.
Defined.

(** The claim C10 as it is written fails on a URL without [://]: the pool
    is started, an endpoint is drawn, and [send] raises at the unpacking of
    line 87 with the caller's dictionary as it was, without [Host]. *)
Lemma send_bad_url_leaves_headers :
  let run := send quiet example_gateway "GET" "example.com/foo" (Some 0%nat)
               tt tt example_world in
  run.1.1 = Raise (ValueError "not enough values to unpack (expected 2, got 1)")
  ∧ deref (heap run.1.2) 0%nat = deref (heap example_world) 0%nat
  ∧ deref (heap run.1.2) 0%nat !! "Host" = None
  ∧ deref (heap run.1.2) 0%nat !! "X-Forwarded-For" = Some "1.2.3.4"
  ∧ deref (heap run.1.2) 0%nat !! "X-My-X-Forwarded-For" = None.
Proof. vm_compute. done. Qed.

(** C9 as the code has it.  A site that ends in a slash is stored without
    that one slash, a site that does not is stored as it is; stripping the
    stored site again gives the stored site exactly when the stored site
    does not end in a slash, that is when the input did not end in two
    slashes. *)
Theorem site_is_stripped_once (s : string) regions key secret verbose :
  site (__init__ (s +:+ "/") regions key secret verbose) = s
  ∧ (Str.endswith s "/" = false → site (__init__ s regions key secret verbose) = s)
  ∧ (strip_site (site (__init__ s regions key secret verbose))
     = site (__init__ s regions key secret verbose)
     ↔ ¬ ∃ t, s = t +:+ "//").
Proof.
  cbn [__init__ site]. unfold strip_site. split; [|split].
  - by rewrite StrFacts.endswith_app_slash, StrFacts.slice_app_slash.
  - by intros ->.
  - destruct (Str.endswith s "/") eqn:Hs.
    + apply StrFacts.endswith_slash_inv in Hs as [t ->].
      rewrite StrFacts.slice_app_slash.
      destruct (Str.endswith t "/") eqn:Ht.
      * apply StrFacts.endswith_slash_inv in Ht as [t' ->].
        rewrite StrFacts.slice_app_slash. split.
        { intros Heq. apply (f_equal String.length) in Heq.
          rewrite StrFacts.length_app in Heq. cbn in Heq. lia. }
        { intros []. exists t'. change (t' +:+ "//") with (t' +:+ "/" +:+ "/").
          by rewrite StrFacts.app_assoc. }
      * split; [|done]. intros _ [t' Ht'].
        change (t' +:+ "//") with (t' +:+ "/" +:+ "/") in Ht'.
        rewrite <-StrFacts.app_assoc in Ht'. apply StrFacts.app_inj_r in Ht' as ->.
        by rewrite StrFacts.endswith_app_slash in Ht.
    + rewrite Hs. split; [|done]. intros _ [t ->].
      change (t +:+ "//") with (t +:+ "/" +:+ "/") in Hs.
      by rewrite <-StrFacts.app_assoc, StrFacts.endswith_app_slash in Hs.
Qed.

Lemma site_is_stripped_once_witness :
  site (__init__ ("https://example.com" +:+ "/") DEFAULT_REGIONS None None true)
  = "https://example.com"
  ∧ site (__init__ "https://example.com" DEFAULT_REGIONS None None true)
    = "https://example.com"
  ∧ strip_site (site (__init__ "https://example.com/" DEFAULT_REGIONS None None true))
    = site (__init__ "https://example.com/" DEFAULT_REGIONS None None true).
Proof.
  pose proof (site_is_stripped_once "https://example.com" DEFAULT_REGIONS None None true)
    as (Hstrip & Hkeep & _).
  pose proof (site_is_stripped_once "https://example.com/" DEFAULT_REGIONS None None true)
    as (_ & _ & Hagain).
  split; [exact Hstrip|]. split; [apply Hkeep; reflexivity|].
  apply Hagain. intros [t Ht]. apply (f_equal (λ x, Str.endswith x "//")) in Ht.
  rewrite StrFacts.endswith_app in Ht. discriminate Ht.
Defined.

(** The claim C9 as it is written fails on a site that ends in two slashes:
    one slash is removed, and stripping the stored site removes another. *)
Lemma strip_site_not_idempotent :
  let stored := site (__init__ "https://example.com//" DEFAULT_REGIONS None None true) in
  stored = "https://example.com/"
  ∧ strip_site stored = "https://example.com"
  ∧ strip_site stored ≠ stored.
Proof. cbv. repeat split. discriminate. Qed.

Section GatewayFacts.

Context {W Response float Kwargs : Type}.
Variable ext : @Externals W Response float Kwargs.

Abbreviation M' := (@M W).

Ltac run :=
  unfold when, print, sleep in *;
  unfold mbind, M_bind, bind, mret, M_ret, ret, raise, out_of_fuel,
    emit, try, set_heap, set_outside in *;
  cbn [outside heap fst snd] in *.

Lemma emits_ret {A} P (a : A) : emits_only P (ret a : M' A).
Proof. done. Qed.

Lemma emits_raise {A} P e : emits_only P (raise e : M' A).
Proof. done. Qed.

Lemma emits_out_of_fuel {A} P : emits_only P (out_of_fuel : M' A).
Proof. done. Qed.

Lemma emits_bind {A B} P (m : M' A) (k : A → M' B) :
  emits_only P m → (∀ a, emits_only P (k a)) → emits_only P (bind m k).
Proof.
  intros Hm Hk w. specialize (Hm w). unfold bind.
  destruct (m w) as [[[a|e|] w'] t]; cbn [snd] in *; [|done..].
  specialize (Hk a w'). destruct (k a w') as [[r w''] t']. cbn [snd] in *.
  rewrite forallb_app. by rewrite Hm, Hk.
Qed.

Lemma emits_try {A} P (m : M' A) : emits_only P m → emits_only P (try m).
Proof.
  intros Hm w. specialize (Hm w). unfold try.
  by destruct (m w) as [[[a|e|] w'] t].
Qed.

Lemma emits_emit P e : P e = true → emits_only P (emit (W := W) e).
Proof. intros He w. cbn. by rewrite He. Qed.

Lemma emits_when P b (m : M' unit) : emits_only P m → emits_only P (when b m).
Proof. by destruct b. Qed.

Lemma emits_call P cl c :
  (∀ failure, P (Aws cl c failure) = true) → emits_only P (call ext cl c).
Proof.
  intros HP w. unfold call.
  destruct (aws ext cl c (outside w)) as [[e|r] o]; cbn; by rewrite HP.
Qed.

Lemma finishes_ret {A} (a : A) : finishes (ret a : M' A).
Proof. done. Qed.

Lemma finishes_raise {A} e : finishes (raise e : M' A).
Proof. done. Qed.

Lemma finishes_bind {A B} (m : M' A) (k : A → M' B) :
  finishes m → (∀ a, finishes (k a)) → finishes (bind m k).
Proof.
  intros Hm Hk w. specialize (Hm w). unfold bind.
  destruct (m w) as [[[a|e|] w'] t]; cbn [fst] in *; [|done..].
  specialize (Hk a w'). by destruct (k a w') as [[r w''] t'].
Qed.

Lemma finishes_try {A} (m : M' A) : finishes m → finishes (try m).
Proof.
  intros Hm w. specialize (Hm w). unfold try.
  by destruct (m w) as [[[a|e|] w'] t].
Qed.

Lemma finishes_emit e : finishes (emit (W := W) e).
Proof. done. Qed.

Lemma finishes_when b (m : M' unit) : finishes m → finishes (when b m).
Proof. by destruct b. Qed.

Lemma finishes_call cl c : finishes (call ext cl c).
Proof.
  intros w. unfold call. by destruct (aws ext cl c (outside w)) as [[e|r] o].
Qed.

(** One step of either kind of proof. *)
Ltac step :=
  unfold mbind, M_bind, mret, M_ret, print, sleep;
  first
    [ apply emits_ret | apply emits_raise | apply emits_out_of_fuel
    | apply emits_bind; [|intros ?] | apply emits_try
    | apply emits_when | apply emits_emit; solve [done | auto]
    | match goal with
      | |- emits_only ?P (call _ ?cl ?c) =>
          apply (emits_call P cl c); solve [done | intros; auto]
      | |- finishes (call _ ?cl ?c) => apply (finishes_call cl c)
      end
    | apply finishes_ret | apply finishes_raise
    | apply finishes_bind; [|intros ?] | apply finishes_try
    | apply finishes_when | apply finishes_emit ].

(** *** Listing *)

Lemma get_gateways_loop_emits P fuel cl gateways pos :
  (∀ limit p failure, P (Aws cl (get_rest_apis limit p) failure) = true) →
  emits_only P (get_gateways_loop ext fuel cl gateways pos).
Proof.
  intros HP. revert gateways pos.
  induction fuel as [|fuel IH]; intros gateways pos; cbn [get_gateways_loop].
  - step.
  - step.
    + destruct (truthy pos); step.
    + destruct (negb _); [step|apply IH].
Qed.

Lemma get_gateways_sync_emits P fuel cl :
  (∀ limit p failure, P (Aws cl (get_rest_apis limit p) failure) = true) →
  emits_only P (get_gateways_sync ext fuel cl).
Proof. apply get_gateways_loop_emits. Qed.

(** *** Creation *)

Lemma create_gateway_emits P self cl region rmd :
  (∀ c failure, P (Aws cl c failure) = true) →
  emits_only P (create_gateway ext self cl region rmd).
Proof.
  intros HP. unfold create_gateway. step; [step|]. step; [step|].
  destruct a0 as [|root_id ?]; [step|]. repeat step.
Qed.

Lemma create_gateway_finishes self cl region rmd :
  finishes (create_gateway ext self cl region rmd).
Proof.
  unfold create_gateway. step; [step|]. step; [step|].
  destruct a0 as [|root_id ?]; [step|]. repeat step.
Qed.

Lemma init_run fuel self region rmd w :
  _init_gateway_sync ext fuel self region false rmd w
  = init_after_listing ext self region rmd
      (get_gateways_sync ext fuel (client_of self region) w).
Proof.
  unfold _init_gateway_sync, init_after_listing. fold (client_of self region).
  cbn [negb]. run.
  destruct (get_gateways_sync ext fuel (client_of self region) w)
    as [[[apis|e|] w1] t1]; cbn [app]; [| |done].
  - destruct (find (recognized self) apis) as [api|].
    + by rewrite app_nil_r.
    + by destruct (create_gateway _ _ _ _ _ _) as [[r w2] t2].
  - destruct e as [| | | |[code message|]|]; try by rewrite app_nil_r.
    destruct (String.eqb code "UnrecognizedClientException"); [|by rewrite app_nil_r].
    by destruct (verbose self).
Qed.

Lemma init_forced_run fuel self region rmd w :
  _init_gateway_sync ext fuel self region true rmd w
  = let '(r, w2, t2) := create_gateway ext self (client_of self region) region rmd w in
    (r, w2, NewClient (client_of self region) :: t2).
Proof.
  unfold _init_gateway_sync. fold (client_of self region). cbn [negb]. run.
  by destruct (create_gateway _ _ _ _ _ _) as [[r w2] t2].
Qed.

Lemma attempts_none t : forallb no_attempt t = true → attempts t = 0%nat.
Proof.
  unfold attempts. induction t as [|e t IH]; [done|]. cbn.
  destruct e; cbn; try done; auto.
Qed.

Lemma attempts_app t t' : attempts (t ++ t') = (attempts t + attempts t')%nat.
Proof. unfold attempts. by rewrite List.filter_app, length_app. Qed.

(** Every provisioning attempt makes exactly one client. *)
Lemma init_attempts fuel self region force rmd w :
  attempts (init_gateway ext fuel self region force rmd w).2 = 1%nat.
Proof.
  unfold init_gateway.
  pose proof (create_gateway_emits no_attempt self (client_of self region) region rmd
                (λ _ _, eq_refl)) as Hcreate.
  destruct force.
  - rewrite init_forced_run. specialize (Hcreate w).
    destruct (create_gateway _ _ _ _ _ _) as [[r w2] t2]. cbn [snd] in *.
    change (NewClient ?c :: ?t) with ([NewClient c] ++ t).
    by rewrite attempts_app, (attempts_none t2).
  - rewrite init_run. unfold init_after_listing.
    pose proof (get_gateways_sync_emits no_attempt fuel (client_of self region)
                  (λ _ _ _, eq_refl) w) as Hlist.
    destruct (get_gateways_sync _ _ _ _) as [[[apis|e|] w1] t1]; cbn [snd] in Hlist.
    + destruct (find _ _).
      * cbn [snd]. change (NewClient ?c :: ?t) with ([NewClient c] ++ t).
        by rewrite attempts_app, (attempts_none t1).
      * specialize (Hcreate w1). destruct (create_gateway _ _ _ _ _ _) as [[r w2] t2].
        cbn [snd] in *. change (NewClient ?c :: ?t) with ([NewClient c] ++ t).
        by rewrite !attempts_app, (attempts_none t1), (attempts_none t2).
    + assert (attempts (NewClient (client_of self region) :: t1) = 1%nat) as H1.
      { change (NewClient ?c :: ?t) with ([NewClient c] ++ t).
        by rewrite attempts_app, (attempts_none t1). }
      destruct e as [| | | |[code message|]|]; try done.
      destruct (String.eqb _ _); [|done]. cbn [snd].
      change (NewClient ?c :: ?t) with ([NewClient c] ++ t).
      rewrite !attempts_app, (attempts_none t1) by done. by destruct (verbose self).
    + cbn [snd]. change (NewClient ?c :: ?t) with ([NewClient c] ++ t).
      by rewrite attempts_app, (attempts_none t1).
Qed.

Lemma init_finishes fuel self region force rmd :
  listing_ends ext fuel ∨ force = true →
  finishes (init_gateway ext fuel self region force rmd).
Proof.
  intros Hends w. unfold init_gateway.
  pose proof (create_gateway_finishes self (client_of self region) region rmd) as Hcreate.
  destruct force.
  - rewrite init_forced_run. specialize (Hcreate w).
    by destruct (create_gateway _ _ _ _ _ _) as [[r w2] t2].
  - destruct Hends as [Hends|]; [|done].
    rewrite init_run. unfold init_after_listing.
    specialize (Hends (client_of self region) w).
    destruct (get_gateways_sync _ _ _ _) as [[[apis|e|] w1] t1]; cbn [fst] in Hends; [| |done].
    + destruct (find _ _); [done|]. specialize (Hcreate w1).
      by destruct (create_gateway _ _ _ _ _ _) as [[r w2] t2].
    + destruct e as [| | | |[code message|]|]; try done.
      by destruct (String.eqb _ _).
Qed.

(** *** [gather] and the two collecting loops *)

Lemma gather_never_raises {A} (tasks : list (M' A)) w e :
  (gather tasks w).1.1 ≠ Raise e.
Proof.
  revert w. induction tasks as [|task tasks IH]; intros w; [done|].
  cbn [gather]. run.
  destruct (task w) as [[[a|e'|] w1] t1]; [| |done].
  - specialize (IH w1). destruct (gather tasks w1) as [[[rs|e''|] w2] t2]; done.
  - specialize (IH w1). destruct (gather tasks w1) as [[[rs|e''|] w2] t2]; done.
Qed.

Lemma gather_returns {A} (tasks : list (M' A)) w :
  (∀ task, task ∈ tasks → finishes task) →
  ∃ rs w' t,
    gather tasks w = (Return rs, w', t)
    ∧ Forall2 (λ task r, ∃ w0 w1 t0, try task w0 = (Return r, w1, t0)) tasks rs
    ∧ ((∀ task w0, task ∈ tasks → attempts (task w0).2 = 1%nat) →
       attempts t = length tasks).
Proof.
  revert w. induction tasks as [|task tasks IH]; intros w Hfin.
  { exists [], w, []. by repeat split. }
  destruct (IH) with (w := (task w).1.2) as (rs & w' & t & Hg & Hall & Hatt).
  { intros task' Hin. apply Hfin. by right. }
  pose proof (Hfin task (list_elem_of_here _ _) w) as Hw.
  cbn [gather]. run.
  destruct (task w) as [[[a|e|] w1] t1] eqn:Htask; cbn [fst snd] in *; [| |done].
  - rewrite Hg. eexists _, _, _. split; [reflexivity|]. split.
    + constructor; [|done]. exists w, w1, t1. unfold try. by rewrite Htask.
    + intros H1. rewrite app_nil_r, attempts_app, Hatt.
      * specialize (H1 task w (list_elem_of_here _ _)). rewrite Htask in H1.
        cbn [snd] in H1. rewrite H1. done.
      * intros task' w0 Hin. apply H1. by right.
  - rewrite Hg. eexists _, _, _. split; [reflexivity|]. split.
    + constructor; [|done]. exists w, w1, t1. unfold try. by rewrite Htask.
    + intros H1. rewrite app_nil_r, attempts_app, Hatt.
      * specialize (H1 task w (list_elem_of_here _ _)). rewrite Htask in H1.
        cbn [snd] in H1. rewrite H1. done.
      * intros task' w0 Hin. apply H1. by right.
Qed.

Lemma successes_app rs rs' : successes (rs ++ rs') = successes rs ++ successes rs'.
Proof. unfold successes. apply flat_map_app. Qed.

Lemma collect_endpoints_run self results acc n (w : @world W) :
  ∃ n' t,
    collect_endpoints self results acc n w
    = (Return (acc ++ successes results, n'), w, t)
    ∧ forallb is_print t = true.
Proof.
  revert acc n. induction results as [|result results IH]; intros acc n.
  { exists n, []. cbn. by rewrite app_nil_r. }
  cbn [collect_endpoints]. destruct result as [e|[|endpoint new]].
  - destruct (IH acc n) as (n' & t & Hrun & Ht).
    destruct (verbose self); run; rewrite Hrun; eexists _, _; by split.
  - apply IH.
  - destruct (IH (acc ++ [endpoint]) (if new then S n else n)) as (n' & t & Hrun & Ht).
    rewrite Hrun. exists n', t. split; [|done].
    change (inr (Provisioned endpoint new) :: results)
      with ([inr (Provisioned endpoint new)] ++ results : list (exn + init_result)).
    rewrite successes_app. cbn [successes flat_map contribution app].
    by rewrite <-app_assoc.
Qed.

Lemma attempts_prints t : forallb is_print t = true → attempts t = 0%nat.
Proof.
  unfold attempts. induction t as [|e t IH]; [done|]. cbn.
  destruct e; cbn; try done; auto.
Qed.

Lemma successes_length rs : (length (successes rs) <= length rs)%nat.
Proof.
  unfold successes.
  induction rs as [|[e|[|endpoint new]] rs IH];
    cbn [flat_map contribution app length] in *; lia.
Qed.

Lemma successes_elem rs endpoint :
  endpoint ∈ successes rs
  ↔ ∃ i new, rs !! i = Some (inr (Provisioned endpoint new)).
Proof.
  induction rs as [|r rs IH].
  { split; [by intros ?%elem_of_nil|by intros (i & new & ?)]. }
  change (r :: rs) with ([r] ++ rs). rewrite successes_app, elem_of_app, IH.
  split.
  - intros [Hr|(i & new & Hi)]; [|by exists (S i), new].
    destruct r as [e|[|endpoint' new]]; cbn in Hr; try by apply elem_of_nil in Hr.
    apply list_elem_of_singleton in Hr as ->. by exists 0%nat, new.
  - intros ([|i] & new & Hi); [|right; by exists i, new].
    cbn in Hi. injection Hi as ->. left. cbn. apply list_elem_of_here.
Qed.

End GatewayFacts.

Section StartFacts.

Context {W Response float Kwargs : Type}.
Variable ext : @Externals W Response float Kwargs.

Ltac run :=
  unfold when, print, sleep in *;
  unfold mbind, M_bind, bind, mret, M_ret, ret, raise, out_of_fuel,
    emit, try, set_heap, set_outside in *;
  cbn [outside heap fst snd] in *.

(** [start] without explicit endpoints, from the outcome of [gather]. *)
Lemma start_run fuel self force rmd arg (w : @world W) :
  arg = None ∨ arg = Some [] →
  match gather (start_tasks ext fuel self force rmd) w with
  | (Return results, w1, t1) =>
      ∃ t0 t2,
        start ext fuel self force rmd arg w
        = (Return (successes results, with_endpoints self (successes results)),
           w1, t0 ++ t1 ++ t2)
        ∧ forallb is_print t0 = true ∧ forallb is_print t2 = true
  | (Raise e, w1, t1) => False
  | (OutOfFuel, w1, t1) =>
      (start ext fuel self force rmd arg w).1.1 = OutOfFuel
  end.
Proof.
  intros Harg.
  pose proof (gather_never_raises (start_tasks ext fuel self force rmd) w) as Hnr.
  assert (start ext fuel self force rmd arg w
          = start ext fuel self force rmd None w) as -> by (by destruct Harg as [->| ->]).
  unfold start.
  destruct (gather (start_tasks ext fuel self force rmd) w)
    as [[[results|e|] w1] t1] eqn:Hg; cbn [fst] in Hnr.
  - destruct (collect_endpoints_run self results [] 0 w1) as (n' & t & Hrun & Ht).
    cbn [app] in Hrun.
    destruct (verbose self); run; rewrite Hg, Hrun; cbn [app].
    + eexists [_], (t ++ [_]). split; [reflexivity|].
      split; [done|]. by rewrite forallb_app, Ht.
    + exists [], t. split; [by rewrite ?app_nil_r|]. done.
  - by destruct (Hnr e).
  - destruct (verbose self); run; by rewrite Hg.
Qed.

End StartFacts.

Lemma sim_listing_ends listing failures fuel :
  listing_ends (Sim.externals listing failures) (S fuel).
Proof.
  intros cl w. unfold get_gateways_sync. cbn [get_gateways_loop truthy].
  unfold mbind, M_bind, bind, call. cbn [aws Sim.externals Sim.aws].
  by destruct (listing (region_name cl)).
Qed.

(** C6 as the code has it.  A non-empty list of explicit endpoints is
    adopted as it is: [start] returns it, leaves it in [self.endpoints],
    and does nothing else, no provisioning attempt, no call, no output.  An
    empty list counts as no list: [start] provisions as it does without
    the argument. *)
Theorem start_adopts_endpoints {W Response float Kwargs : Type}
    (ext : @Externals W Response float Kwargs)
    fuel self force rmd (eps : list string) (w : world) :
  (eps ≠ [] →
   start ext fuel self force rmd (Some eps) w
   = (Return (eps, with_endpoints self eps), w, [])
   ∧ endpoints (with_endpoints self eps) = eps)
  ∧ start ext fuel self force rmd (Some []) w = start ext fuel self force rmd None w.
Proof.
  split; [|done]. intros Heps. destruct eps as [|ep eps]; done.
Qed.

Lemma start_adopts_endpoints_witness :
  start quiet 1 example_gateway false false (Some ["a.execute-api.us-east-1.amazonaws.com"])
    (Sim.world0 [])
  = (Return (["a.execute-api.us-east-1.amazonaws.com"],
             with_endpoints example_gateway ["a.execute-api.us-east-1.amazonaws.com"]),
     Sim.world0 [], [])
  ∧ endpoints (with_endpoints example_gateway ["a.execute-api.us-east-1.amazonaws.com"])
    = ["a.execute-api.us-east-1.amazonaws.com"].
Proof.
  apply (start_adopts_endpoints quiet 1 example_gateway false false
           ["a.execute-api.us-east-1.amazonaws.com"] (Sim.world0 [])).
  discriminate.
Defined.

(** The claim C6 as it is written fails on the empty list: [start] does not
    adopt it, it makes one provisioning attempt per region and returns the
    endpoints of the gateways it created. *)
Lemma start_empty_list_provisions :
  let run := start quiet 1 (__init__ "https://example.com/" DEFAULT_REGIONS None None false)
               false false (Some []) (Sim.world0 []) in
  attempts run.2 = 4%nat
  ∧ (∃ self',
       run.1.1 = Return (["new-us-east-1.execute-api.us-east-1.amazonaws.com";
                          "new-us-east-2.execute-api.us-east-2.amazonaws.com";
                          "new-us-west-1.execute-api.us-west-1.amazonaws.com";
                          "new-us-west-2.execute-api.us-west-2.amazonaws.com"], self'))
  ∧ run.2 ≠ [].
Proof. vm_compute. split; [done|]. split; [by eexists|done]. Qed.

(** C7. Without explicit endpoints, [start] over [N] regions hands [N]
    tasks to [gather], makes exactly [N] provisioning attempts and gets
    [N] results, each the outcome of the task of its region: a success
    with its endpoint, a skip, or the exception the task raised.  The
    returned list, which is also left in [self.endpoints], is made of the
    endpoints of the successes, in the order of the regions: a success
    always contributes its endpoint, a skip or an exception contributes
    nothing and takes nothing away, so the length is between [0] and [N].
    [start] never raises.  It returns whenever the listings end within the
    pages allowed (or are not made at all, under [force]). *)
Theorem start_fans_out {W Response float Kwargs : Type}
    (ext : @Externals W Response float Kwargs)
    fuel self force rmd arg (w : world) :
  arg = None ∨ arg = Some [] →
  let run := start ext fuel self force rmd arg w in
  let tasks := start_tasks ext fuel self force rmd in
  length tasks = length (regions self)
  ∧ (∀ e, run.1.1 ≠ Raise e)
  ∧ (listing_ends ext fuel ∨ force = true →
     ∃ results w1 t1,
       gather tasks w = (Return results, w1, t1)
       ∧ length results = length (regions self)
       ∧ Forall2 (λ region result,
                    ∃ w0 w0' t0,
                      try (init_gateway ext fuel self region force rmd) w0
                      = (Return result, w0', t0))
           (regions self) results
       ∧ attempts run.2 = length (regions self)
       ∧ run.1 = (Return (successes results, with_endpoints self (successes results)), w1)
       ∧ endpoints (with_endpoints self (successes results)) = successes results
       ∧ (0 <= length (successes results) <= length (regions self))%nat
       ∧ (∀ before result after,
            results = before ++ result :: after →
            successes results
            = successes before ++ contribution result ++ successes after)
       ∧ (∀ endpoint,
            endpoint ∈ successes results
            ↔ ∃ i new, results !! i = Some (inr (Provisioned endpoint new)))).
Proof.
  intros Harg run tasks. subst run tasks.
  pose proof (start_run ext fuel self force rmd arg w Harg) as Hrun.
  split; [unfold start_tasks; by rewrite length_map|]. split.
  - intros e. destruct (gather _ w) as [[[results|e'|] w1] t1]; [|done|].
    + destruct Hrun as (t0 & t2 & -> & _). done.
    + by rewrite Hrun.
  - intros Hends.
    destruct (gather_returns (start_tasks ext fuel self force rmd) w)
      as (results & w1 & t1 & Hg & Hall & Hatt).
    { intros task (region & -> & _)%list_elem_of_fmap. by apply init_finishes. }
    rewrite Hg in Hrun. destruct Hrun as (t0 & t2 & Hrun & Ht0 & Ht2).
    exists results, w1, t1. split; [done|].
    assert (length results = length (regions self)) as Hlen.
    { apply Forall2_length in Hall. unfold start_tasks in Hall.
      by rewrite length_map in Hall. }
    split; [done|]. split.
    { unfold start_tasks in Hall. by apply Forall2_fmap_l in Hall. }
    rewrite Hrun. cbn [fst snd]. split.
    { rewrite !attempts_app, (attempts_prints t0), (attempts_prints t2) by done.
      rewrite Hatt.
      - unfold start_tasks. rewrite length_map. lia.
      - intros task w0 (region & -> & _)%list_elem_of_fmap. apply init_attempts. }
    split; [done|]. split; [done|]. split.
    { pose proof (successes_length results). lia. }
    split.
    { intros before result after ->. rewrite successes_app.
      change (result :: after) with ([result] ++ after).
      rewrite successes_app. cbn [successes flat_map]. by rewrite app_nil_r. }
    apply successes_elem.
Qed.

Lemma start_fans_out_witness :
  let run := start mixed 1 silent_gateway false false None (Sim.world0 []) in
  length (start_tasks mixed 1 silent_gateway false false) = 4%nat
  ∧ (∀ e, run.1.1 ≠ Raise e)
  ∧ (∃ results w1 t1,
       gather (start_tasks mixed 1 silent_gateway false false) (Sim.world0 [])
       = (Return results, w1, t1)
       ∧ length results = 4%nat
       ∧ attempts run.2 = 4%nat
       ∧ run.1 = (Return (successes results,
                          with_endpoints silent_gateway (successes results)), w1)
       ∧ (0 <= length (successes results) <= 4)%nat)
  ∧ run.1.1
    = Return (["abc123.execute-api.us-east-1.amazonaws.com";
               "new-us-west-2.execute-api.us-west-2.amazonaws.com"],
              with_endpoints silent_gateway
                ["abc123.execute-api.us-east-1.amazonaws.com";
                 "new-us-west-2.execute-api.us-west-2.amazonaws.com"]).
Proof.
  intros run.
  destruct (start_fans_out mixed 1 silent_gateway false false None (Sim.world0 []))
    as (Htasks & Hraise & Hret); [by left|].
  split; [exact Htasks|]. split; [exact Hraise|]. split; [|reflexivity].
  destruct Hret as (results & w1 & t1 & Hg & Hlen & _ & Hatt & Hrun & _ & Hle & _).
  { left. apply sim_listing_ends. }
  exists results, w1, t1.
  split; [exact Hg|]. split; [exact Hlen|]. split; [exact Hatt|].
  split; [exact Hrun|exact Hle].
Defined.

Section DeleteFacts.

Context {W Response float Kwargs : Type}.
Variable ext : @Externals W Response float Kwargs.

Ltac run :=
  unfold when, print, sleep in *;
  unfold mbind, M_bind, bind, mret, M_ret, ret, raise, out_of_fuel,
    emit, try, set_heap, set_outside in *;
  cbn [outside heap fst snd] in *.

Lemma delete_run fuel self region eps (w : @world W) :
  _delete_gateway_sync ext fuel self region eps w
  = delete_after_listing ext self region eps
      (get_gateways_sync ext fuel (client_of self region) w).
Proof.
  unfold _delete_gateway_sync, delete_after_listing. fold (client_of self region).
  run.
  destruct (get_gateways_sync ext fuel (client_of self region) w)
    as [[[apis|e|] w1] t1]; cbn [app]; [| |done].
  - by destruct (delete_loop _ _ _ _ _ _ _ _) as [[r w2] t2].
  - destruct e as [| | | |[code message|]|]; try by rewrite app_nil_r.
    destruct (String.eqb code "UnrecognizedClientException"); by rewrite app_nil_r.
Qed.

Lemma deletions_app t t' : deletions (t ++ t') = deletions t ++ deletions t'.
Proof. unfold deletions. apply omap_app. Qed.

Lemma deletions_none t : forallb no_deletion t = true → deletions t = [].
Proof.
  induction t as [|e t IH]; [done|]. cbn [forallb].
  intros [He Ht]%andb_prop. change (e :: t) with ([e] ++ t).
  rewrite deletions_app, (IH Ht), app_nil_r.
  destruct e as [| | |c []|]; done.
Qed.

Lemma deletions_after self cl d : deletions (after_deletion self cl d) = [d].
Proof.
  destruct d as [restApiId [[code message|message]|]]; unfold after_deletion;
    cbn [fst snd]; [|done..].
  destruct (String.eqb code _); [done|]. by destruct (verbose self).
Qed.

Lemma deletions_flat_map self cl ds :
  deletions (flat_map (after_deletion self cl) ds) = ds.
Proof.
  induction ds as [|d ds IH]; [done|]. cbn [flat_map].
  by rewrite deletions_app, deletions_after, IH.
Qed.

(** The deletion loop: one call per candidate, in the order of the
    listing, each followed by what [after_deletion] says; the loop stops
    only on an exception that is not a [ClientError]. *)
Lemma delete_loop_spec self cl eps ids apis deleted (w : @world W) :
  let cand api := names_gateway self api && negb (not_listed eps ids api) in
  ∃ ds r w',
    delete_loop ext self cl eps ids apis deleted w
    = (r, w', flat_map (after_deletion self cl) ds)
    ∧ heap w' = heap w
    ∧ match r with
      | Return out =>
          map fst ds = map rest_api_id (List.filter cand apis)
          ∧ out = deleted ++ deleted_of ds
          ∧ Forall (λ d, ∀ m, d.2 ≠ Some (BotoCoreError m)) ds
      | Raise e =>
          ∃ restApiId m rest,
            e = BotoException (BotoCoreError m)
            ∧ last ds = Some (restApiId, Some (BotoCoreError m))
            ∧ map rest_api_id (List.filter cand apis) = map fst ds ++ rest
      | OutOfFuel => False
      end.
Proof.
  intros cand. revert deleted w.
  induction apis as [|api apis IH]; intros deleted w.
  { exists [], (Return deleted), w. cbn. by rewrite app_nil_r. }
  cbn [delete_loop List.filter]. subst cand. cbn beta.
  destruct (names_gateway self api); cbn [andb]; [|apply IH].
  destruct (not_listed eps ids api); cbn [negb]; [apply IH|].
  run. unfold call.
  destruct (aws ext cl (delete_rest_api (rest_api_id api)) (outside w))
    as [[[code message|message]|[]] o] eqn:Hcall.
  - (* a provider error code *)
    destruct (IH deleted (set_outside o w)) as (ds & r & w' & Hrun & Hheap & Hr).
    exists ((rest_api_id api, Some (ClientError code message)) :: ds), r, w'.
    split.
    { cbn [flat_map]. unfold after_deletion at 1. cbn [fst snd].
      destruct (String.eqb code "TooManyRequestsException").
      - by rewrite Hrun.
      - destruct (verbose self); by rewrite Hrun. }
    split; [done|].
    destruct r as [out|e|]; [|destruct Hr as (id & m & rest & -> & Hlast & Hrest)|done].
    + destruct Hr as (Hmap & -> & Hall). split; [by cbn; f_equal|]. split; [done|].
      constructor; [done|done].
    + exists id, m, rest. split; [done|]. split.
      * destruct ds; [done|]. done.
      * cbn [map fst app]. by f_equal.
  - (* another exception: the loop stops *)
    exists [(rest_api_id api, Some (BotoCoreError message))],
      (Raise (BotoException (BotoCoreError message))), (set_outside o w).
    split; [done|]. split; [done|].
    exists (rest_api_id api), message, (map rest_api_id (List.filter
      (λ api, names_gateway self api && negb (not_listed eps ids api)) apis)).
    done.
  - (* deleted *)
    destruct (IH (deleted ++ [rest_api_id api]) (set_outside o w))
      as (ds & r & w' & Hrun & Hheap & Hr).
    exists ((rest_api_id api, None) :: ds), r, w'.
    split. { cbn [flat_map]. unfold after_deletion at 1. cbn [fst snd]. by rewrite Hrun. }
    split; [done|].
    destruct r as [out|e|]; [|destruct Hr as (id & m & rest & -> & Hlast & Hrest)|done].
    + destruct Hr as (Hmap & -> & Hall). split; [by cbn; f_equal|]. split.
      * cbn [deleted_of omap fst snd]. by rewrite <-app_assoc.
      * by constructor.
    + exists id, m, rest. split; [done|]. split.
      * destruct ds; [done|]. done.
      * cbn [map fst app]. by f_equal.
Qed.

End DeleteFacts.

Section ListingFacts.

Context {W Response float Kwargs : Type}.
Variable ext : @Externals W Response float Kwargs.

Ltac run :=
  unfold when, print, sleep in *;
  unfold mbind, M_bind, bind, mret, M_ret, ret, raise, out_of_fuel,
    emit, try, set_heap, set_outside in *;
  cbn [outside heap fst snd] in *.

(** [start] over one region, from the outcome of the task. *)
Lemma start_one_region fuel self region force rmd (w : @world W) r w1 t1 :
  regions self = [region] →
  init_gateway ext fuel self region force rmd w = (Return r, w1, t1) →
  (start ext fuel self force rmd None w).1
  = (Return (contribution (inr r), with_endpoints self (contribution (inr r))), w1).
Proof.
  intros Hregions Htask.
  pose proof (start_run ext fuel self force rmd None w (or_introl eq_refl)) as Hrun.
  unfold start_tasks in Hrun. rewrite Hregions in Hrun.
  cbn [map gather] in Hrun. run. rewrite Htask in Hrun.
  destruct Hrun as (t0 & t2 & -> & _). cbn [fst successes flat_map].
  by rewrite app_nil_r.
Qed.

Lemma collect_deleted_run self results acc (w : @world W) :
  ∃ out t, collect_deleted self results acc w = (Return out, w, t).
Proof.
  revert acc. induction results as [|[e|ids] results IH]; intros acc.
  - by exists acc, [].
  - cbn [collect_deleted]. destruct (IH acc) as (out & t & Hrun).
    destruct (verbose self); run; rewrite Hrun; by eexists _, _.
  - cbn [collect_deleted]. apply IH.
Qed.

Lemma delete_finishes fuel self region eps :
  listing_ends ext fuel → finishes (delete_gateway ext fuel self region eps).
Proof.
  intros Hends w. unfold delete_gateway. rewrite delete_run.
  unfold delete_after_listing. specialize (Hends (client_of self region) w).
  destruct (get_gateways_sync _ _ _ _) as [[[apis|e|] w1] t1]; cbn [fst] in Hends; [| |done].
  - destruct (delete_loop_spec ext self (client_of self region) eps
                (match eps with
                 | Some eps0 => map (λ ep, hd EmptyString (Str.split "." ep)) eps0
                 | None => []
                 end) apis [] w1) as (ds & r & w' & -> & _ & Hr).
    by destruct r.
  - destruct e as [| | | |[code message|]|]; try done.
    by destruct (String.eqb _ _).
Qed.

(** [shutdown] never raises, and returns when the listings end. *)
Lemma shutdown_never_raises fuel self eps (w : @world W) e :
  (shutdown ext fuel self eps w).1.1 ≠ Raise e.
Proof.
  unfold shutdown.
  pose proof (gather_never_raises
                (map (λ region, delete_gateway ext fuel self region eps) (regions self))
                w) as Hnr.
  destruct (verbose self); run;
    destruct (gather _ w) as [[[results|e'|] w1] t1]; cbn [fst] in *;
    try done; try (by destruct (Hnr e'));
    destruct (collect_deleted_run self results [] w1) as (out & t & ->); done.
Qed.

Lemma shutdown_returns fuel self eps (w : @world W) :
  listing_ends ext fuel →
  ∃ ids w' t, shutdown ext fuel self eps w = (Return ids, w', t).
Proof.
  intros Hends. unfold shutdown.
  destruct (gather_returns
              (map (λ region, delete_gateway ext fuel self region eps) (regions self)) w)
    as (results & w1 & t1 & Hg & _).
  { intros task (region & -> & _)%list_elem_of_fmap. by apply delete_finishes. }
  destruct (collect_deleted_run self results [] w1) as (out & t & Hc).
  destruct (verbose self); run; rewrite Hg, Hc; by eexists _, _, _.
Qed.

End ListingFacts.

(** C8. When the listing of a region fails with the error code
    [UnrecognizedClientException], provisioning (without [force], the only
    case in which it lists) returns the skip result, after a report when
    [verbose], and calls nothing else; a [start] over that one region
    returns no endpoint; deprovisioning returns the empty list.  When the
    listing fails with anything else, both raise that very exception. *)
Theorem region_not_enabled_is_skipped {W Response float Kwargs : Type}
    (ext : @Externals W Response float Kwargs)
    fuel self region rmd eps (w : world) e w1 t1 :
  get_gateways_sync ext fuel (client_of self region) w = (Raise e, w1, t1) →
  (∀ message,
     e = BotoException (ClientError "UnrecognizedClientException" message) →
     _init_gateway_sync ext fuel self region false rmd w
     = (Return Skipped, w1,
        NewClient (client_of self region) :: t1 ++
          (if verbose self
           then [Stdout ("Could not create region (requires manual enabling): " +:+ region)]
           else []))
     ∧ (regions self = [region] →
        (start ext fuel self false rmd None w).1
        = (Return ([], with_endpoints self []), w1))
     ∧ _delete_gateway_sync ext fuel self region eps w
       = (Return [], w1, NewClient (client_of self region) :: t1))
  ∧ ((∀ message,
        e ≠ BotoException (ClientError "UnrecognizedClientException" message)) →
     _init_gateway_sync ext fuel self region false rmd w
     = (Raise e, w1, NewClient (client_of self region) :: t1)
     ∧ _delete_gateway_sync ext fuel self region eps w
       = (Raise e, w1, NewClient (client_of self region) :: t1)).
Proof.
  intros Hlisting. split.
  - intros message ->.
    assert (_init_gateway_sync ext fuel self region false rmd w
            = (Return Skipped, w1,
               NewClient (client_of self region) :: t1 ++
                 (if verbose self
                  then [Stdout ("Could not create region (requires manual enabling): "
                               +:+ region)]
                  else []))) as Hinit.
    { rewrite init_run, Hlisting. reflexivity. }
    split; [done|]. split.
    + intros Hregions.
      by rewrite (start_one_region ext fuel self region false rmd w _ _ _ Hregions Hinit).
    + rewrite delete_run, Hlisting. reflexivity.
  - intros Hother. rewrite init_run, delete_run, Hlisting.
    unfold init_after_listing, delete_after_listing.
    destruct e as [| | | |[code message|]|]; try done.
    destruct (String.eqb_spec code "UnrecognizedClientException") as [->|_]; [|done].
    by destruct (Hother message).
Qed.

Lemma region_not_enabled_is_skipped_witness :
  let self := __init__ "https://example.com/" ["us-east-2"] None None true in
  let unrecognized :=
    ClientError "UnrecognizedClientException"
      "The security token included in the request is invalid." in
  let denied := ClientError "AccessDeniedException" "User is not authorized." in
  (_init_gateway_sync mixed 1 self "us-east-2" false false (Sim.world0 [])
   = (Return Skipped, Sim.world0 [],
      [NewClient (client_of self "us-east-2");
       Aws (client_of self "us-east-2") (get_rest_apis 500 None) (Some unrecognized);
       Stdout "Could not create region (requires manual enabling): us-east-2"])
   ∧ (start mixed 1 self false false None (Sim.world0 [])).1
     = (Return ([], with_endpoints self []), Sim.world0 [])
   ∧ _delete_gateway_sync mixed 1 self "us-east-2" None (Sim.world0 [])
     = (Return [], Sim.world0 [],
        [NewClient (client_of self "us-east-2");
         Aws (client_of self "us-east-2") (get_rest_apis 500 None) (Some unrecognized)]))
  ∧ (_init_gateway_sync mixed 1 self "us-west-1" false false (Sim.world0 [])
     = (Raise (BotoException denied), Sim.world0 [],
        [NewClient (client_of self "us-west-1");
         Aws (client_of self "us-west-1") (get_rest_apis 500 None) (Some denied)])
     ∧ _delete_gateway_sync mixed 1 self "us-west-1" None (Sim.world0 [])
       = (Raise (BotoException denied), Sim.world0 [],
          [NewClient (client_of self "us-west-1");
           Aws (client_of self "us-west-1") (get_rest_apis 500 None) (Some denied)])).
Proof.
  intros self unrecognized denied. split.
  - pose proof (region_not_enabled_is_skipped mixed 1 self "us-east-2" false None
                  (Sim.world0 []) (BotoException unrecognized) (Sim.world0 [])
                  [Aws (client_of self "us-east-2") (get_rest_apis 500 None)
                     (Some unrecognized)] eq_refl) as [Hskip _].
    destruct (Hskip "The security token included in the request is invalid." eq_refl)
      as (Hinit & Hstart & Hdelete).
    split; [exact Hinit|]. split; [apply Hstart; reflexivity|exact Hdelete].
  - pose proof (region_not_enabled_is_skipped mixed 1 self "us-west-1" false None
                  (Sim.world0 []) (BotoException denied) (Sim.world0 [])
                  [Aws (client_of self "us-west-1") (get_rest_apis 500 None)
                     (Some denied)] eq_refl) as [_ Hraise].
    apply Hraise. discriminate.
Defined.

Section RecognitionFacts.

Context {W Response float Kwargs : Type}.
Variable ext : @Externals W Response float Kwargs.

Lemma find_first {A} (P : A → bool) before x after :
  Forall (λ a, P a = false) before → P x = true →
  find P (before ++ x :: after) = Some x.
Proof.
  intros Hbefore Hx. induction Hbefore as [|a before Ha _ IH]; cbn [app find].
  - by rewrite Hx.
  - by rewrite Ha.
Qed.

Lemma find_elem {A} (P : A → bool) l x :
  x ∈ l → P x = true → ∃ y, find P l = Some y ∧ P y = true ∧ y ∈ l.
Proof.
  intros Hin Hx. induction Hin as [x l|x a l _ IH]; cbn [find].
  - rewrite Hx. exists x. split; [done|]. split; [done|]. apply list_elem_of_here.
  - destruct (P a) eqn:Ha.
    + exists a. split; [done|]. split; [done|]. apply list_elem_of_here.
    + destruct (IH Hx) as (y & Hy & HPy & Hyl). exists y. split; [done|]. split; [done|].
      by apply list_elem_of_further.
Qed.

Lemma NoDup_map_inj {A B} (f : A → B) l x y :
  NoDup (map f l) → x ∈ l → y ∈ l → f x = f y → x = y.
Proof.
  induction l as [|a l IH]; [by intros _ ?%elem_of_nil|].
  cbn [map]. intros [Ha Hl]%NoDup_cons Hx Hy Hf.
  apply elem_of_cons in Hx as [Hx|Hx]; apply elem_of_cons in Hy as [Hy|Hy].
  - by rewrite Hx, Hy.
  - subst x. destruct Ha. rewrite Hf. apply list_elem_of_fmap. by exists y.
  - subst y. destruct Ha. rewrite <-Hf. apply list_elem_of_fmap. by exists x.
  - by apply IH.
Qed.

Lemma filter_elem {A} (P : A → bool) l x : x ∈ List.filter P l ↔ x ∈ l ∧ P x = true.
Proof. rewrite !list_elem_of_In. apply filter_In. Qed.

Lemma deleted_of_elem ds restApiId :
  restApiId ∈ deleted_of ds ↔ (restApiId, None) ∈ ds.
Proof.
  unfold deleted_of. rewrite list_elem_of_omap. split.
  - intros ([a [f|]] & Hin & Heq); cbn in Heq; [done|]. by injection Heq as ->.
  - intros Hin. by exists (restApiId, None).
Qed.

(** The deletions of a run of [_delete_gateway_sync] whose listing
    returned [apis]. *)
Lemma delete_run_spec fuel self region eps (w : @world W) apis w1 t1 :
  get_gateways_sync ext fuel (client_of self region) w = (Return apis, w1, t1) →
  ∃ ds r w2,
    _delete_gateway_sync ext fuel self region eps w
    = (r, w2, NewClient (client_of self region) :: t1
                ++ flat_map (after_deletion self (client_of self region)) ds)
    ∧ deletions (NewClient (client_of self region) :: t1
                   ++ flat_map (after_deletion self (client_of self region)) ds) = ds
    ∧ match r with
      | Return out =>
          map fst ds = map rest_api_id (List.filter (candidate self eps) apis)
          ∧ out = deleted_of ds
          ∧ Forall (λ d, ∀ m, d.2 ≠ Some (BotoCoreError m)) ds
      | Raise e =>
          ∃ restApiId m rest,
            e = BotoException (BotoCoreError m)
            ∧ last ds = Some (restApiId, Some (BotoCoreError m))
            ∧ map rest_api_id (List.filter (candidate self eps) apis)
              = map fst ds ++ rest
      | OutOfFuel => False
      end.
Proof.
  intros Hlisting. rewrite delete_run, Hlisting. unfold delete_after_listing.
  destruct (delete_loop_spec ext self (client_of self region) eps
              (match eps with
               | Some eps0 => map (λ ep, hd EmptyString (Str.split "." ep)) eps0
               | None => []
               end) apis [] w1) as (ds & r & w2 & -> & _ & Hr).
  exists ds, r, w2. split; [done|]. split; [|done].
  change (NewClient ?c :: ?t) with ([NewClient c] ++ t).
  rewrite !deletions_app, deletions_flat_map.
  pose proof (get_gateways_sync_emits ext no_deletion fuel (client_of self region)
                (λ _ _ _, eq_refl) w) as Hquiet.
  rewrite Hlisting in Hquiet. cbn [snd] in Hquiet.
  by rewrite (deletions_none t1 Hquiet).
Qed.

End RecognitionFacts.

Section CreationFacts.

Context {W Response float Kwargs : Type}.
Variable ext : @Externals W Response float Kwargs.

Ltac run :=
  unfold when, print, sleep in *;
  unfold mbind, M_bind, bind, mret, M_ret, ret, raise, out_of_fuel,
    emit, try, set_heap, set_outside in *;
  cbn [outside heap fst snd] in *.

Ltac finish :=
  split; [reflexivity|]; split; [reflexivity|]; split; [reflexivity|cbn [length]; lia].

(** What a creation does: all eight calls succeed and the new endpoint is
    returned; or the listing of the resources of the new API is empty;
    or a call fails, the last one made. *)
Lemma create_gateway_cases self cl region rmd (w : @world W) :
  let run := create_gateway ext self cl region rmd w in
  (∃ restApiId root proxy,
     run.1.1 = Return (Provisioned (endpoint_of restApiId region) true)
     ∧ run.2 = creation_calls self cl (new_api_name self rmd) restApiId root proxy)
  ∨ (∃ restApiId,
       run.1.1 = Raise (IndexError "list index out of range")
       ∧ run.2 = [Aws cl (create_rest_api (new_api_name self rmd)) None;
                  Aws cl (get_resources restApiId) None])
  ∨ (∃ made failure c,
       run.1.1 = Raise (BotoException failure)
       ∧ run.2 = made ++ [Aws cl c (Some failure)]
       ∧ forallb succeeded made = true
       ∧ (length made < 8)%nat).
Proof.
  intros run. subst run. unfold create_gateway. fold (new_api_name self rmd).
  run. unfold call, set_outside. cbn [outside heap].
  destruct (aws ext cl (create_rest_api (new_api_name self rmd)) (outside w))
    as [[failure|restApiId] o1]; cbn [outside heap app fst snd].
  { right; right. exists [], failure, (create_rest_api (new_api_name self rmd)). finish. }
  destruct (aws ext cl (get_resources restApiId) o1)
    as [[failure|[|root roots]] o2]; cbn [outside heap app fst snd].
  { right; right.
    exists [Aws cl (create_rest_api (new_api_name self rmd)) None], failure,
      (get_resources restApiId). finish. }
  { right; left. by exists restApiId. }
  destruct (aws ext cl (create_resource restApiId root "{proxy+}") o2)
    as [[failure|proxy] o3]; cbn [outside heap app fst snd].
  { right; right. eexists [_; _], failure, _. finish. }
  destruct (aws ext cl (put_method restApiId root) o3)
    as [[failure|[]] o4]; cbn [outside heap app fst snd].
  { right; right. eexists [_; _; _], failure, _. finish. }
  destruct (aws ext cl (put_integration restApiId root (site self)) o4)
    as [[failure|[]] o5]; cbn [outside heap app fst snd].
  { right; right. eexists [_; _; _; _], failure, _. finish. }
  destruct (aws ext cl (put_method restApiId proxy) o5)
    as [[failure|[]] o6]; cbn [outside heap app fst snd].
  { right; right. eexists [_; _; _; _; _], failure, _. finish. }
  destruct (aws ext cl (put_integration restApiId proxy (site self +:+ "/{proxy}")) o6)
    as [[failure|[]] o7]; cbn [outside heap app fst snd].
  { right; right. eexists [_; _; _; _; _; _], failure, _. finish. }
  destruct (aws ext cl (create_deployment restApiId "ProxyStage") o7)
    as [[failure|[]] o8]; cbn [outside heap app fst snd].
  { right; right. eexists [_; _; _; _; _; _; _], failure, _. finish. }
  left. by exists restApiId, root, proxy.
Qed.

End CreationFacts.

Section TraceFacts.

Context {W Response float Kwargs : Type}.
Variable ext : @Externals W Response float Kwargs.

Abbreviation M'' := (@M W).

Ltac step :=
  unfold mbind, M_bind, mret, M_ret, print, sleep;
  first
    [ apply emits_ret | apply emits_raise | apply emits_out_of_fuel
    | apply emits_bind; [|intros ?] | apply emits_try
    | apply emits_emit; solve [done | auto]
    | match goal with
      | |- emits_only ?P (call _ ?cl ?c) =>
          apply (emits_call ext P cl c); solve [done | intros; auto]
      end ].

Lemma emits_when_verbose P self line :
  accepts P self → emits_only P (when (verbose self) (print line) : M'' unit).
Proof.
  intros HP. destruct (verbose self) eqn:Hv; [|apply emits_ret].
  cbn [when]. unfold print. apply emits_emit. by apply (accepts_output P self HP).
Qed.

Lemma create_emits P self cl region rmd :
  (∀ c failure, is_creation (Aws cl c failure) = true → P (Aws cl c failure) = true) →
  emits_only P (create_gateway ext self cl region rmd).
Proof.
  intros HP. unfold create_gateway. step; [step|]. step; [step|].
  destruct a0 as [|root_id ?]; [step|]. repeat step.
Qed.

Lemma init_emits P fuel self region force rmd :
  accepts P self →
  (∀ cl c failure, is_delete_call c = false → P (Aws cl c failure) = true) →
  emits_only P (init_gateway ext fuel self region force rmd).
Proof.
  intros HP Hcalls. unfold init_gateway, _init_gateway_sync.
  step; [apply emits_emit, HP|].
  destruct (negb force); [|apply create_emits; intros c ? ?; apply Hcalls; by destruct c].
  step; [apply emits_try, get_gateways_sync_emits; apply HP|].
  destruct a0 as [e|apis].
  - destruct e as [| | | |[code message|]|]; try apply emits_raise.
    destruct (String.eqb code _); [|apply emits_raise].
    step; [by apply emits_when_verbose|apply emits_ret].
  - destruct (find _ _); [apply emits_ret|apply create_emits; intros c ? ?; apply Hcalls; by destruct c].
Qed.

Lemma delete_loop_emits P self cl eps ids apis deleted :
  accepts P self →
  (∀ restApiId failure, P (Aws cl (delete_rest_api restApiId) failure) = true) →
  P (Sleep 1) = true →
  emits_only P (delete_loop ext self cl eps ids apis deleted).
Proof.
  intros HP Hdel Hsleep. revert deleted.
  induction apis as [|api apis IH]; intros deleted; [apply emits_ret|].
  cbn [delete_loop]. destruct (names_gateway self api); [|apply IH].
  destruct (not_listed eps ids api); [apply IH|].
  step; [apply emits_try; step|].
  destruct a as [e|[]]; [|apply IH].
  destruct e as [| | | |[code message|]|]; try apply emits_raise.
  destruct (String.eqb code _).
  - step; [by apply emits_emit|apply IH].
  - step; [by apply emits_when_verbose|apply IH].
Qed.

Lemma delete_emits P fuel self region eps :
  accepts P self →
  (∀ cl restApiId failure, P (Aws cl (delete_rest_api restApiId) failure) = true) →
  P (Sleep 1) = true →
  emits_only P (delete_gateway ext fuel self region eps).
Proof.
  intros HP Hdel Hsleep. unfold delete_gateway, _delete_gateway_sync.
  step; [apply emits_emit, HP|].
  step; [apply emits_try, get_gateways_sync_emits; apply HP|].
  destruct a0 as [e|apis].
  - destruct e as [| | | |[code message|]|]; try apply emits_raise.
    destruct (String.eqb code _); [apply emits_ret|apply emits_raise].
  - by apply delete_loop_emits.
Qed.

Lemma gather_emits {A} P (tasks : list (M'' A)) :
  (∀ task, task ∈ tasks → emits_only P task) → emits_only P (gather tasks).
Proof.
  induction tasks as [|task tasks IH]; intros Htasks; [apply emits_ret|].
  cbn [gather]. step.
  - apply emits_try, Htasks, list_elem_of_here.
  - step; [|step]. apply IH. intros task' Hin. apply Htasks. by right.
Qed.

Lemma collect_endpoints_emits P self results acc n :
  accepts P self → emits_only P (collect_endpoints self results acc n : M'' _).
Proof.
  intros HP. revert acc n.
  induction results as [|[e|[|endpoint new]] results IH]; intros acc n;
    cbn [collect_endpoints]; [apply emits_ret| |apply IH..].
  step; [by apply emits_when_verbose|apply IH].
Qed.

Lemma collect_deleted_emits P self results acc :
  accepts P self → emits_only P (collect_deleted self results acc : M'' _).
Proof.
  intros HP. revert acc.
  induction results as [|[e|ids] results IH]; intros acc;
    cbn [collect_deleted]; [apply emits_ret| |apply IH].
  step; [by apply emits_when_verbose|apply IH].
Qed.

Lemma start_emits P fuel self force rmd arg :
  accepts P self →
  (∀ cl c failure, is_delete_call c = false → P (Aws cl c failure) = true) →
  emits_only P (start ext fuel self force rmd arg).
Proof.
  intros HP Hcalls. unfold start.
  destruct arg as [[|ep eps]|]; cbn beta iota; [|apply emits_ret|].
  all: step; [by apply emits_when_verbose|].
  all: step;
    [apply gather_emits; intros task (region & -> & _)%list_elem_of_fmap;
     by apply init_emits|].
  all: step; [by apply collect_endpoints_emits|]; destruct a1 as [eps' n].
  all: step; [by apply emits_when_verbose|apply emits_ret].
Qed.

Lemma shutdown_emits P fuel self eps :
  accepts P self →
  (∀ cl restApiId failure, P (Aws cl (delete_rest_api restApiId) failure) = true) →
  P (Sleep 1) = true →
  emits_only P (shutdown ext fuel self eps).
Proof.
  intros HP Hdel Hsleep. unfold shutdown.
  step; [by apply emits_when_verbose|].
  step.
  { apply gather_emits. intros task (region & -> & _)%list_elem_of_fmap.
    by apply delete_emits. }
  step; [by apply collect_deleted_emits|].
  step; [by apply emits_when_verbose|apply emits_ret].
Qed.

End TraceFacts.
(** C1 as the code has it.  In a region whose listing holds a resource [R]
    named with the gateway name followed by a non-empty suffix: the
    provisioner's test (prefix) accepts [R] and the deprovisioner's test
    (equality) rejects it.  So provisioning without [force] creates
    nothing and returns, with [new] false, the endpoint of the first
    accepted resource of the listing, which is [R] itself when nothing
    accepted comes before it; provisioning with [force] does not read the
    listing and, when it returns, returns a gateway it has created, with
    [new] true; and deprovisioning calls [delete_rest_api] only for
    resources that pass the equality test, in the order of the listing:
    [R] is not one of them, and, identifiers being distinct, no deletion
    is ever attempted on the identifier of [R], which is in no returned
    list. *)
Theorem suffixed_gateway_reused_not_deleted {W Response float Kwargs : Type}
    (ext : @Externals W Response float Kwargs)
    fuel self region rmd eps (w : world) apis w1 t1 R suffix :
  get_gateways_sync ext fuel (client_of self region) w = (Return apis, w1, t1) →
  R ∈ apis →
  rest_api_name R = Some (api_name self +:+ suffix) →
  suffix ≠ EmptyString →
  recognized self R = true
  ∧ names_gateway self R = false
  ∧ (∃ R',
       find (recognized self) apis = Some R' ∧ R' ∈ apis ∧ recognized self R' = true
       ∧ _init_gateway_sync ext fuel self region false rmd w
         = (Return (Provisioned (endpoint_of (rest_api_id R') region) false), w1,
            NewClient (client_of self region) :: t1)
       ∧ forallb no_creation (NewClient (client_of self region) :: t1) = true
       ∧ (∀ before after,
            apis = before ++ R :: after →
            Forall (λ A, recognized self A = false) before → R' = R))
  ∧ (let forced := _init_gateway_sync ext fuel self region true rmd w in
     forallb (λ e, negb (is_listing_call e)) forced.2 = true
     ∧ (∀ r, forced.1.1 = Return r →
             ∃ restApiId, r = Provisioned (endpoint_of restApiId region) true))
  ∧ (let run := _delete_gateway_sync ext fuel self region eps w in
     candidate self eps R = false
     ∧ (∃ rest, map rest_api_id (List.filter (candidate self eps) apis)
                = map fst (deletions run.2) ++ rest)
     ∧ (NoDup (map rest_api_id apis) →
        (∀ failure, (rest_api_id R, failure) ∉ deletions run.2)
        ∧ (∀ ids, run.1.1 = Return ids → rest_api_id R ∉ ids))).
Proof.
  intros Hlisting HR Hname Hsuffix.
  assert (recognized self R = true) as Hrec.
  { unfold recognized. rewrite Hname. apply StrFacts.startswith_app. }
  assert (names_gateway self R = false) as Hexact.
  { unfold names_gateway. rewrite Hname. by apply StrFacts.eqb_app_suffix. }
  assert (candidate self eps R = false) as Hcand.
  { unfold candidate. by rewrite Hexact. }
  split; [done|]. split; [done|]. split; [|split].
  - destruct (find_elem (recognized self) apis R HR Hrec) as (R' & Hfind & HR' & Hin).
    exists R'. split; [done|]. split; [done|]. split; [done|]. split.
    { rewrite init_run, Hlisting. unfold init_after_listing. by rewrite Hfind. }
    split.
    { pose proof (get_gateways_sync_emits ext no_creation fuel (client_of self region)
                    (λ _ _ _, eq_refl) w) as Hquiet.
      rewrite Hlisting in Hquiet. cbn [snd] in Hquiet. cbn [forallb]. by rewrite Hquiet. }
    intros before after -> Hbefore.
    rewrite (find_first (recognized self) before R after Hbefore Hrec) in Hfind.
    by injection Hfind.
  - intros forced. subst forced. rewrite init_forced_run.
    assert (emits_only (λ e, negb (is_listing_call e))
              (create_gateway ext self (client_of self region) region rmd)) as Hquiet.
    { apply create_emits. intros c failure Hc. by destruct c. }
    specialize (Hquiet w).
    pose proof (create_gateway_cases ext self (client_of self region) region rmd w)
      as Hcases.
    destruct (create_gateway _ _ _ _ _ _) as [[r w2] t2]. cbn [fst snd] in *. split.
    + exact Hquiet.
    + intros r' ->.
      destruct Hcases as [(restApiId & root & proxy & Hr & _)
                         |[(restApiId & Hr & _)|(made & failure & c & Hr & _)]];
        [|done..].
      injection Hr as ->. by exists restApiId.
  - intros run. subst run.
    destruct (delete_run_spec ext fuel self region eps w apis w1 t1 Hlisting)
      as (ds & r & w2 & -> & Hds & Hr).
    cbn [fst snd]. rewrite Hds. split; [done|].
    assert (∃ rest, map rest_api_id (List.filter (candidate self eps) apis)
                    = map fst ds ++ rest) as [rest Hrest].
    { destruct r as [out|e|]; [|by destruct Hr as (? & ? & rest & _ & _ & ?); exists rest|done].
      destruct Hr as (-> & _). exists []. by rewrite app_nil_r. }
    split; [by exists rest|].
    intros Hnodup.
    assert (∀ failure, (rest_api_id R, failure) ∉ ds) as Hnever.
    { intros failure Hin.
      assert (rest_api_id R ∈ map rest_api_id (List.filter (candidate self eps) apis)) as Hid.
      { rewrite Hrest. apply elem_of_app. left.
        apply list_elem_of_fmap. by exists (rest_api_id R, failure). }
      apply list_elem_of_fmap in Hid as (A & HidA & [HA HcandA]%filter_elem).
      assert (R = A) as <- by (by apply (NoDup_map_inj rest_api_id apis)).
      by rewrite Hcand in HcandA. }
    split; [done|].
    intros ids [= ->]. destruct Hr as (_ & -> & _).
    intros Hin%deleted_of_elem. by apply (Hnever None).
Qed.

Lemma suffixed_gateway_reused_not_deleted_witness :
  let self := one_region_gateway in
  let R := mkApi "m1" (Some "https://example.com - IP Rotate API (Manual Deletion Required)") in
  let run := _delete_gateway_sync flagged 1 self "us-east-1" None (Sim.world0 []) in
  recognized self R = true
  ∧ names_gateway self R = false
  ∧ (∃ R',
       find (recognized self) [R; mkApi "a1" (Some "https://example.com - IP Rotate API");
                               mkApi "b2" (Some "https://example.com - IP Rotate API");
                               mkApi "c3" (Some "other-tool")] = Some R'
       ∧ _init_gateway_sync flagged 1 self "us-east-1" false false (Sim.world0 [])
         = (Return (Provisioned (endpoint_of (rest_api_id R') "us-east-1") false),
            Sim.world0 [],
            [NewClient (client_of self "us-east-1");
             Aws (client_of self "us-east-1") (get_rest_apis 500 None) None])
       ∧ R' = R)
  ∧ (∀ failure, ("m1", failure) ∉ deletions run.2)
  ∧ (∀ ids, run.1.1 = Return ids → "m1" ∉ ids)
  ∧ run.1.1 = Return ["b2"].
Proof.
  intros self R run.
  destruct (suffixed_gateway_reused_not_deleted flagged 1 self "us-east-1" false None
              (Sim.world0 [])
              [R; mkApi "a1" (Some "https://example.com - IP Rotate API");
               mkApi "b2" (Some "https://example.com - IP Rotate API");
               mkApi "c3" (Some "other-tool")]
              (Sim.world0 [])
              [Aws (client_of self "us-east-1") (get_rest_apis 500 None) None]
              R " (Manual Deletion Required)")
    as (Hrec & Hexact & (R' & Hfind & _ & _ & Hinit & _ & Hfirst) & _ & _ & _ & Hdel).
  { reflexivity. }
  { apply list_elem_of_here. }
  { reflexivity. }
  { discriminate. }
  split; [exact Hrec|]. split; [exact Hexact|]. split.
  - exists R'. split; [exact Hfind|]. split; [exact Hinit|].
    apply (Hfirst [] [mkApi "a1" (Some "https://example.com - IP Rotate API");
                      mkApi "b2" (Some "https://example.com - IP Rotate API");
                      mkApi "c3" (Some "other-tool")]); [reflexivity|constructor].
  - destruct Hdel as [Hnever Hids].
    { cbn [map rest_api_id]. by apply (bool_decide_unpack (NoDup ["m1"; "a1"; "b2"; "c3"])). }
    split; [exact Hnever|]. split; [exact Hids|]. reflexivity.
Defined.

(** The claim C1 as it is written fails when a resource that discovery
    accepts is listed before the suffixed one, and under [force]: the
    suffixed resource [m1] is listed, and provisioning reuses [a1], or
    creates a new gateway. *)
Lemma suffixed_gateway_not_always_reused :
  let self := one_region_gateway in
  let R := mkApi "m1" (Some "https://example.com - IP Rotate API (Manual Deletion Required)") in
  get_gateways_sync shadowed 1 (client_of self "us-east-1") (Sim.world0 [])
  = (Return [mkApi "a1" (Some "https://example.com - IP Rotate API"); R], Sim.world0 [],
     [Aws (client_of self "us-east-1") (get_rest_apis 500 None) None])
  ∧ rest_api_name R = Some (api_name self +:+ " (Manual Deletion Required)")
  ∧ (_init_gateway_sync shadowed 1 self "us-east-1" false false (Sim.world0 [])).1.1
    = Return (Provisioned "a1.execute-api.us-east-1.amazonaws.com" false)
  ∧ "a1.execute-api.us-east-1.amazonaws.com" ≠ endpoint_of (rest_api_id R) "us-east-1"
  ∧ (_init_gateway_sync shadowed 1 self "us-east-1" true false (Sim.world0 [])).1.1
    = Return (Provisioned "new-us-east-1.execute-api.us-east-1.amazonaws.com" true).
Proof. vm_compute. repeat split. discriminate. Qed.

Lemma NoDup_fst_functional {A B} (l : list (A * B)) a x y :
  NoDup (map fst l) → (a, x) ∈ l → (a, y) ∈ l → x = y.
Proof.
  induction l as [|[a' b'] l IH]; [by intros _ ?%elem_of_nil|].
  cbn [map fst]. intros [Ha Hl]%NoDup_cons Hx Hy.
  apply elem_of_cons in Hx as [Hx|Hx]; apply elem_of_cons in Hy as [Hy|Hy].
  - congruence.
  - injection Hx as <- <-. destruct Ha. apply list_elem_of_fmap. by exists (a, y).
  - injection Hy as <- <-. destruct Ha. apply list_elem_of_fmap. by exists (a, x).
  - by apply IH.
Qed.

Lemma NoDup_map_filter {A B} (f : A → B) (P : A → bool) l :
  NoDup (map f l) → NoDup (map f (List.filter P l)).
Proof.
  induction l as [|a l IH]; [done|]. cbn [map List.filter].
  intros [Ha Hl]%NoDup_cons. destruct (P a); [|by apply IH].
  cbn [map]. apply NoDup_cons. split; [|by apply IH].
  intros (b & Hb & [Hin _]%filter_elem)%list_elem_of_fmap.
  apply Ha. apply list_elem_of_fmap. by exists b.
Qed.

Section AnswerFacts.

Context {W Response float Kwargs : Type}.
Variable ext : @Externals W Response float Kwargs.

Ltac run :=
  unfold when, print, sleep in *;
  unfold mbind, M_bind, bind, mret, M_ret, ret, raise, out_of_fuel,
    emit, try, set_heap, set_outside in *;
  cbn [outside heap fst snd] in *.

Lemma deletions_cons_inv e t (d : string * option boto_exception) :
  d ∈ deletions (e :: t) →
  match e with
  | Aws _ (delete_rest_api restApiId) failure => d = (restApiId, failure)
  | _ => False
  end ∨ d ∈ deletions t.
Proof.
  change (e :: t) with ([e] ++ t). rewrite deletions_app.
  intros [Hd|Hd]%elem_of_app; [left|by right].
  destruct e as [| | |c [] failure|]; try by apply elem_of_nil in Hd.
  by apply list_elem_of_singleton in Hd.
Qed.

(** Every deletion call in the trace of the loop is a call that the
    provider answered so. *)
Lemma delete_loop_answered self cl eps ids apis deleted (w : @world W) d :
  d ∈ deletions (delete_loop ext self cl eps ids apis deleted w).2 →
  ∃ o o',
    aws ext cl (delete_rest_api d.1) o
    = (match d.2 with Some failure => inl failure | None => inr tt end, o').
Proof.
  revert deleted w. induction apis as [|api apis IH]; intros deleted w.
  { by intros ?%elem_of_nil. }
  cbn [delete_loop]. destruct (names_gateway self api); [|apply IH].
  destruct (not_listed eps ids api); [apply IH|].
  run. unfold call.
  destruct (aws ext cl (delete_rest_api (rest_api_id api)) (outside w))
    as [[[code message|message]|[]] o] eqn:Hcall.
  - destruct (String.eqb code "TooManyRequestsException").
    + pose proof (IH deleted (set_outside o w)) as IH'.
      destruct (delete_loop _ _ _ _ _ _ _ _) as [[r w'] t].
      cbn [snd app] in *.
      intros [->|[[]|Hd]%deletions_cons_inv]%deletions_cons_inv; [|by apply IH'].
      by exists (outside w), o.
    + pose proof (IH deleted (set_outside o w)) as IH'.
      destruct (verbose self); cbn [when];
        destruct (delete_loop _ _ _ _ _ _ _ _) as [[r w'] t]; cbn [snd app] in *.
      * intros [->|[[]|Hd]%deletions_cons_inv]%deletions_cons_inv; [|by apply IH'].
        by exists (outside w), o.
      * intros [->|Hd]%deletions_cons_inv; [|by apply IH'].
        by exists (outside w), o.
  - cbn [snd app]. intros [->|Hd]%deletions_cons_inv; [|by apply elem_of_nil in Hd].
    by exists (outside w), o.
  - pose proof (IH (deleted ++ [rest_api_id api]) (set_outside o w)) as IH'.
    destruct (delete_loop _ _ _ _ _ _ _ _) as [[r w'] t].
    cbn [snd app] in *.
    intros [->|Hd]%deletions_cons_inv; [|by apply IH'].
    by exists (outside w), o.
Qed.

Lemma delete_answered fuel self region eps (w : @world W) d :
  d ∈ deletions (_delete_gateway_sync ext fuel self region eps w).2 →
  ∃ o o',
    aws ext (client_of self region) (delete_rest_api d.1) o
    = (match d.2 with Some failure => inl failure | None => inr tt end, o').
Proof.
  rewrite delete_run. unfold delete_after_listing.
  pose proof (get_gateways_sync_emits ext no_deletion fuel (client_of self region)
                (λ _ _ _, eq_refl) w) as Hquiet.
  destruct (get_gateways_sync _ _ _ _) as [[[apis|e|] w1] t1]; cbn [snd] in Hquiet.
  - pose proof (delete_loop_answered self (client_of self region) eps
                  (match eps with
                   | Some eps0 => map (λ ep, hd EmptyString (Str.split "." ep)) eps0
                   | None => []
                   end) apis [] w1 d) as Hloop.
    destruct (delete_loop _ _ _ _ _ _ _ _) as [[r w2] t2]. cbn [snd] in *.
    change (NewClient ?c :: ?t) with ([NewClient c] ++ t).
    rewrite !deletions_app, (deletions_none t1 Hquiet). cbn [app]. exact Hloop.
  - assert (deletions (NewClient (client_of self region) :: t1) = []) as Hnone
      by (by apply deletions_none).
    destruct e as [| | | |[code message|]|]; cbn [snd]; try rewrite Hnone;
      try (by intros ?%elem_of_nil).
    destruct (String.eqb code _); cbn [snd]; rewrite Hnone; by intros ?%elem_of_nil.
  - cbn [snd].
    assert (deletions (NewClient (client_of self region) :: t1) = []) as ->
      by (by apply deletions_none).
    by intros ?%elem_of_nil.
Qed.

End AnswerFacts.

(** C2 as the code has it.  A deletion pass calls [delete_rest_api] once
    for each resource to delete, in the order of the listing and never a
    second time; it pauses one second right after a call that failed with
    [TooManyRequestsException] and reports (when [verbose]) a call that
    failed with another provider error code, and goes on to the next
    resource in both cases.  The pass has two outcomes.  Either no call
    failed with an exception other than a provider error code: then every
    resource to delete was tried and the pass returns the identifiers
    whose call succeeded, so when the call on [A] is rate-limited and the
    call on [B] succeeds, [B] is in the returned list and [A] is not.  Or
    a call failed with such an exception: then it is the last call made
    and the pass raises it.  The first outcome is the one that occurs when
    the provider never answers a deletion with such an exception.
    Whatever the regions do, [shutdown] never raises, and it returns when
    the listings end. *)
Theorem rate_limited_deletion_is_skipped {W Response float Kwargs : Type}
    (ext : @Externals W Response float Kwargs)
    fuel self region eps (w : world) apis w1 t1 :
  get_gateways_sync ext fuel (client_of self region) w = (Return apis, w1, t1) →
  let cl := client_of self region in
  let run := _delete_gateway_sync ext fuel self region eps w in
  let ds := deletions run.2 in
  let candidates := map rest_api_id (List.filter (candidate self eps) apis) in
  run.2 = NewClient cl :: t1 ++ flat_map (after_deletion self cl) ds
  ∧ (∀ d, d ∈ ds →
          ∃ o o', aws ext cl (delete_rest_api d.1) o
                  = (match d.2 with Some failure => inl failure | None => inr tt end, o'))
  ∧ ((run.1.1 = Return (deleted_of ds)
      ∧ map fst ds = candidates
      ∧ (∀ restApiId message, (restApiId, Some (BotoCoreError message)) ∉ ds))
     ∨ (∃ restApiId message rest,
          run.1.1 = Raise (BotoException (BotoCoreError message))
          ∧ last ds = Some (restApiId, Some (BotoCoreError message))
          ∧ candidates = map fst ds ++ rest))
  ∧ ((∀ restApiId o message o',
        aws ext cl (delete_rest_api restApiId) o ≠ (inl (BotoCoreError message), o')) →
     run.1.1 = Return (deleted_of ds) ∧ map fst ds = candidates)
  ∧ (∀ A B message,
       (A, Some (ClientError "TooManyRequestsException" message)) ∈ ds →
       (B, None) ∈ ds →
       B ∈ deleted_of ds
       ∧ after_deletion self cl (A, Some (ClientError "TooManyRequestsException" message))
         = [Aws cl (delete_rest_api A)
              (Some (ClientError "TooManyRequestsException" message));
            Sleep 1]
       ∧ (NoDup (map rest_api_id apis) → A ∉ deleted_of ds))
  ∧ (∀ A code message,
       (A, Some (ClientError code message)) ∈ ds →
       code ≠ "TooManyRequestsException" →
       after_deletion self cl (A, Some (ClientError code message))
       = Aws cl (delete_rest_api A) (Some (ClientError code message))
         :: (if verbose self
             then [Stdout ("Failed to delete API " +:+ A +:+ ". Reason: " +:+ message)]
             else [])
       ∧ (NoDup (map rest_api_id apis) → A ∉ deleted_of ds))
  ∧ (∀ w0 e, (shutdown ext fuel self eps w0).1.1 ≠ Raise e)
  ∧ (listing_ends ext fuel →
     ∀ w0, ∃ ids w' t, shutdown ext fuel self eps w0 = (Return ids, w', t)).
Proof.
  intros Hlisting cl run ds candidates. subst cl run ds candidates.
  pose proof (delete_answered ext fuel self region eps w) as Hanswered.
  destruct (delete_run_spec ext fuel self region eps w apis w1 t1 Hlisting)
    as (ds & r & w2 & Hrun & Hds & Hr).
  rewrite Hrun in *. cbn [fst snd] in *. rewrite Hds in *.
  assert ((r = Return (deleted_of ds)
           ∧ map fst ds = map rest_api_id (List.filter (candidate self eps) apis)
           ∧ (∀ restApiId message, (restApiId, Some (BotoCoreError message)) ∉ ds))
          ∨ (∃ restApiId message rest,
               r = Raise (BotoException (BotoCoreError message))
               ∧ last ds = Some (restApiId, Some (BotoCoreError message))
               ∧ map rest_api_id (List.filter (candidate self eps) apis)
                 = map fst ds ++ rest)) as Hcases.
  { destruct r as [out|e|]; [|destruct Hr as (id & m & rest & -> & Hlast & Hrest)|done].
    - destruct Hr as (Hmap & -> & Hall). left. split; [done|]. split; [done|].
      intros restApiId message Hin. rewrite Forall_forall in Hall.
      by destruct (Hall _ Hin message).
    - right. by exists id, m, rest. }
  assert (∀ A failure, NoDup (map rest_api_id apis) →
          (A, Some failure) ∈ ds → A ∉ deleted_of ds) as Honce.
  { intros A failure Hnodup Hfail Hdel%deleted_of_elem.
    assert (NoDup (map fst ds)) as Hnd.
    { assert (NoDup (map rest_api_id (List.filter (candidate self eps) apis))) as Hc
        by (by apply NoDup_map_filter).
      destruct Hcases as [(_ & -> & _)|(_ & _ & rest & _ & _ & Hrest)]; [done|].
      rewrite Hrest in Hc. by apply NoDup_app in Hc as (? & _). }
    by pose proof (NoDup_fst_functional ds A _ _ Hnd Hfail Hdel). }
  split; [done|]. split; [done|]. split; [done|]. split; [|split; [|split; [|split]]].
  - intros Hprovider.
    destruct Hcases as [(-> & Hmap & _)|(id & m & rest & _ & Hlast & _)]; [done|].
    apply last_Some in Hlast as [l' ->].
    destruct (Hanswered (id, Some (BotoCoreError m))) as (o & o' & Hcall).
    { apply elem_of_app. right. apply list_elem_of_here. }
    by destruct (Hprovider id o m o').
  - intros A B message HA HB. split; [by apply deleted_of_elem|]. split; [done|].
    intros Hnodup. by apply (Honce A _ Hnodup HA).
  - intros A code message HA Hcode. split.
    + unfold after_deletion. cbn [fst snd].
      by destruct (String.eqb_spec code "TooManyRequestsException").
    + intros Hnodup. by apply (Honce A _ Hnodup HA).
  - intros w0 e. apply shutdown_never_raises.
  - intros Hends w0. by apply shutdown_returns.
Qed.

Lemma rate_limited_deletion_is_skipped_witness :
  let self := one_region_gateway in
  let cl := client_of self "us-east-1" in
  let limit := ClientError "TooManyRequestsException" "Too Many Requests" in
  let run := _delete_gateway_sync flagged 1 self "us-east-1" None (Sim.world0 []) in
  run.1.1 = Return (deleted_of (deletions run.2))
  ∧ run.1.1 = Return ["b2"]
  ∧ run.2 = [NewClient cl; Aws cl (get_rest_apis 500 None) None;
             Aws cl (delete_rest_api "a1") (Some limit); Sleep 1;
             Aws cl (delete_rest_api "b2") None]
  ∧ ("b2" ∈ deleted_of (deletions run.2) ∧ "a1" ∉ deleted_of (deletions run.2))
  ∧ (∀ e, (shutdown flagged 1 self None (Sim.world0 [])).1.1 ≠ Raise e)
  ∧ (∃ ids w' t, shutdown flagged 1 self None (Sim.world0 []) = (Return ids, w', t))
  ∧ (shutdown flagged 1 self None (Sim.world0 [])).1.1 = Return ["b2"].
Proof.
  intros self cl limit run.
  destruct (rate_limited_deletion_is_skipped flagged 1 self "us-east-1" None (Sim.world0 [])
              [mkApi "m1" (Some "https://example.com - IP Rotate API (Manual Deletion Required)");
               mkApi "a1" (Some "https://example.com - IP Rotate API");
               mkApi "b2" (Some "https://example.com - IP Rotate API");
               mkApi "c3" (Some "other-tool")]
              (Sim.world0 [])
              [Aws cl (get_rest_apis 500 None) None] eq_refl)
    as (_ & _ & _ & Hprovider & Hlimit & _ & Hnever & Hreturns).
  destruct Hprovider as (Hres & _).
  { intros restApiId o message o'. cbn [aws flagged Sim.externals Sim.aws].
    unfold throttled. destruct (String.eqb restApiId "a1"); discriminate. }
  split; [exact Hres|]. split; [reflexivity|]. split; [reflexivity|]. split.
  - destruct (Hlimit "a1" "b2" "Too Many Requests") as (HB & _ & HA).
    { vm_compute. apply list_elem_of_here. }
    { vm_compute. apply list_elem_of_further, list_elem_of_here. }
    split; [exact HB|]. apply HA.
    by apply (bool_decide_unpack (NoDup ["m1"; "a1"; "b2"; "c3"])).
  - split; [apply Hnever|]. split; [|reflexivity].
    apply Hreturns. apply sim_listing_ends.
Defined.

(** The claim C2 as it is written fails when a deletion fails with an
    exception that is not a provider error code: the call on [a1] is
    rate-limited and the later call on [b2] succeeds, but the call on [d4]
    loses its connection, so the pass does not return: it raises, and
    [shutdown] returns an empty list although [b2] was deleted. *)
Lemma deletion_pass_can_abort :
  let self := one_region_gateway in
  let lost := BotoCoreError "Could not connect to the endpoint URL" in
  let run := _delete_gateway_sync broken 1 self "us-east-1" None (Sim.world0 []) in
  deletions run.2
  = [("a1", Some (ClientError "TooManyRequestsException" "Too Many Requests"));
     ("b2", None);
     ("d4", Some lost)]
  ∧ run.1.1 = Raise (BotoException lost)
  ∧ (shutdown broken 1 self None (Sim.world0 [])).1.1 = Return [].
Proof. vm_compute. done. Qed.

(** * Further properties *)

Section PaginationFacts.

Context {W Response float Kwargs : Type}.
Variable ext : @Externals W Response float Kwargs.

Ltac run :=
  unfold when, print, sleep in *;
  unfold mbind, M_bind, bind, mret, M_ret, ret, raise, out_of_fuel,
    emit, try, set_heap, set_outside in *;
  cbn [outside heap fst snd] in *.

Lemma truthy_sent pos :
  (if truthy pos then pos else None) = sent_position pos.
Proof.
  destruct pos as [p|]; [|done]. cbn. by destruct (String.eqb p EmptyString).
Qed.

Lemma get_gateways_loop_paged fuel cl gateways pos (w : @world W) pages last o' :
  paged ext cl pos (outside w) pages last o' →
  (length pages < fuel)%nat →
  get_gateways_loop ext fuel cl gateways pos w
  = (match last with
     | inr p => Return (gateways ++ concat (map items pages) ++ items p)
     | inl e => Raise (BotoException e)
     end,
     mkWorld o' (heap w), listing_calls cl pos pages last).
Proof.
  revert fuel gateways pos w.
  induction pages as [|p pages IH]; intros fuel gateways pos w Hp Hfuel;
    (destruct fuel as [|fuel]; [cbn in Hfuel; lia|]); cbn [get_gateways_loop].
  - destruct Hp as [Hcall Hlast].
    unfold mbind, M_bind.
    assert (∀ k : page → M (list rest_api),
              bind (if truthy pos
                    then call ext cl (get_rest_apis 500 pos)
                    else call ext cl (get_rest_apis 500 None)) k
              = bind (call ext cl (get_rest_apis 500 (sent_position pos))) k)
      as ->.
    { intros k. destruct pos as [q|]; [|done]. cbn [truthy sent_position].
      by destruct (String.eqb q EmptyString). }
    run. unfold call. rewrite Hcall. destruct last as [e|p]; [done|].
    cbn [listing_calls map concat app].
    assert (truthy (position p) = false) as ->.
    { destruct (position p) as [token|]; [|done]. by rewrite Hlast. }
    cbn [negb]. done.
  - destruct Hp as (o1 & token & Hcall & Htoken & Hne & Hrest).
    unfold mbind, M_bind.
    assert (∀ k : page → M (list rest_api),
              bind (if truthy pos
                    then call ext cl (get_rest_apis 500 pos)
                    else call ext cl (get_rest_apis 500 None)) k
              = bind (call ext cl (get_rest_apis 500 (sent_position pos))) k)
      as ->.
    { intros k. destruct pos as [q|]; [|done]. cbn [truthy sent_position].
      by destruct (String.eqb q EmptyString). }
    run. unfold call. rewrite Hcall. cbn [outside heap].
    assert (truthy (position p) = true) as ->.
    { rewrite Htoken. cbn. by apply String.eqb_neq in Hne as ->. }
    cbn [negb]. rewrite Htoken.
    rewrite (IH fuel (gateways ++ items p) (Some token) (set_outside o1 w) Hrest)
      by (cbn in Hfuel; lia).
    cbn [listing_calls map concat]. rewrite Htoken.
    destruct last as [e|q]; [done|]. by rewrite <-!app_assoc.
Qed.

End PaginationFacts.


(** X1. [get_gateways_sync] reads all the pages of a listing: the first
    call carries no position, every further call carries the position of
    the page before, all with the limit 500, and the reading stops at the
    first page whose position is missing or is the empty string.  The
    result is the items of all the pages, in order. *)
Theorem get_gateways_sync_collects_pages {W Response float Kwargs : Type}
    (ext : @Externals W Response float Kwargs)
    fuel cl (w : world) pages p o' :
  paged ext cl None (outside w) pages (inr p) o' →
  (length pages < fuel)%nat →
  get_gateways_sync ext fuel cl w
  = (Return (concat (map items pages) ++ items p), mkWorld o' (heap w),
     listing_calls cl None pages (inr p))
  ∧ length (listing_calls cl None pages (inr p)) = S (length pages)
  ∧ head (listing_calls cl None pages (inr p))
    = Some (Aws cl (get_rest_apis 500 None) None).
Proof.
  intros Hp Hfuel. split; [|split].
  - unfold get_gateways_sync.
    by rewrite (get_gateways_loop_paged ext fuel cl [] None w pages (inr p) o' Hp Hfuel).
  - clear. generalize (@None string). induction pages as [|q pages IH]; intros pos; [done|].
    cbn [listing_calls length]. by rewrite IH.
  - by destruct pages.
Qed.

Lemma get_gateways_sync_collects_pages_witness :
  let cl := mkClient "us-east-1" None None in
  let a1 := mkApi "p1" (Some "other-tool") in
  let a2 := mkApi "p2" (Some "https://example.com - IP Rotate API") in
  let a3 := mkApi "p3" None in
  let a4 := mkApi "p4" (Some "https://example.com - IP Rotate API") in
  get_gateways_sync paging 3 cl (Sim.world0 [])
  = (Return [a1; a2; a3; a4], Sim.world0 [],
     [Aws cl (get_rest_apis 500 None) None;
      Aws cl (get_rest_apis 500 (Some "t1")) None;
      Aws cl (get_rest_apis 500 (Some "t2")) None]).
Proof.
  intros cl a1 a2 a3 a4.
  apply (get_gateways_sync_collects_pages paging 3 cl (Sim.world0 [])
           [mkPage [a1] (Some "t1"); mkPage [a2; a3] (Some "t2")]
           (mkPage [a4] (Some EmptyString)) []).
  - cbn. exists [], "t1". repeat split; [discriminate|].
    exists [], "t2". repeat split. discriminate.
  - cbn. lia.
Defined.

(** X2. When a call of the listing fails, on the first page or on a later
    one, [get_gateways_sync] raises that failure and the items of the
    pages already read are lost.  Provisioning (without [force]) then
    creates nothing and reuses nothing, even when an earlier page held a
    gateway of the site: it skips or raises; deprovisioning deletes
    nothing. *)
Theorem get_gateways_sync_fails_whole {W Response float Kwargs : Type}
    (ext : @Externals W Response float Kwargs)
    fuel self region rmd eps (w : world) pages e o' :
  paged ext (client_of self region) None (outside w) pages (inl e) o' →
  (length pages < fuel)%nat →
  get_gateways_sync ext fuel (client_of self region) w
  = (Raise (BotoException e), mkWorld o' (heap w),
     listing_calls (client_of self region) None pages (inl e))
  ∧ (let run := _init_gateway_sync ext fuel self region false rmd w in
     (run.1.1 = Return Skipped ∨ run.1.1 = Raise (BotoException e))
     ∧ forallb no_creation run.2 = true)
  ∧ (let run := _delete_gateway_sync ext fuel self region eps w in
     (run.1.1 = Return [] ∨ run.1.1 = Raise (BotoException e))
     ∧ deletions run.2 = []).
Proof.
  intros Hp Hfuel.
  assert (get_gateways_sync ext fuel (client_of self region) w
          = (Raise (BotoException e), mkWorld o' (heap w),
             listing_calls (client_of self region) None pages (inl e))) as Hlist.
  { unfold get_gateways_sync.
    by rewrite (get_gateways_loop_paged ext fuel _ [] None w pages (inl e) o' Hp Hfuel). }
  pose proof (get_gateways_sync_emits ext no_creation fuel (client_of self region)
                (λ _ _ _, eq_refl) w) as Hnc.
  pose proof (get_gateways_sync_emits ext no_deletion fuel (client_of self region)
                (λ _ _ _, eq_refl) w) as Hnd.
  rewrite Hlist in Hnc, Hnd. cbn [snd] in Hnc, Hnd.
  split; [done|]. split.
  - cbn zeta. rewrite init_run, Hlist. unfold init_after_listing.
    destruct e as [code message|message]; [|split; [by right|by cbn [snd forallb]; rewrite Hnc]].
    destruct (String.eqb code "UnrecognizedClientException").
    + split; [by left|]. cbn [snd forallb]. rewrite forallb_app, Hnc.
      by destruct (verbose self).
    + split; [by right|]. cbn [snd forallb]. by rewrite Hnc.
  - cbn zeta. rewrite delete_run, Hlist. unfold delete_after_listing.
    assert (deletions (NewClient (client_of self region)
                         :: listing_calls (client_of self region) None pages (inl e)) = [])
      as Hdel.
    { apply deletions_none. cbn [forallb]. by rewrite Hnd. }
    destruct e as [code message|message]; [|split; [by right|done]].
    destruct (String.eqb code "UnrecognizedClientException"); split; auto.
Qed.

Lemma get_gateways_sync_fails_whole_witness :
  let self := __init__ "https://example.com/" ["eu-west-1"] None None true in
  let cl := client_of self "eu-west-1" in
  let e := ClientError "ThrottlingException" "Rate exceeded" in
  get_gateways_sync paging 3 cl (Sim.world0 [])
  = (Raise (BotoException e), Sim.world0 [],
     [Aws cl (get_rest_apis 500 None) None;
      Aws cl (get_rest_apis 500 (Some "t1")) None;
      Aws cl (get_rest_apis 500 (Some "t2")) (Some e)])
  ∧ (_init_gateway_sync paging 3 self "eu-west-1" false false (Sim.world0 [])).1.1
    = Raise (BotoException e)
  ∧ deletions (_delete_gateway_sync paging 3 self "eu-west-1" None (Sim.world0 [])).2 = [].
Proof.
  intros self cl e.
  destruct (get_gateways_sync_fails_whole paging 3 self "eu-west-1" false None (Sim.world0 [])
              [mkPage [mkApi "p1" (Some "other-tool")] (Some "t1");
               mkPage [mkApi "p2" (Some "https://example.com - IP Rotate API");
                       mkApi "p3" None] (Some "t2")]
              e [])
    as (Hlist & _ & _ & Hdel).
  - cbn. exists [], "t1". repeat split; [discriminate|].
    exists [], "t2". repeat split. discriminate.
  - cbn. lia.
  - split; [exact Hlist|]. split; [reflexivity|exact Hdel].
Defined.


(** X4. Provisioning under [force] never lists and never reuses.  It makes
    its client and then either makes the eight creation calls in their
    order (the API named with the gateway name, with the manual-deletion
    suffix when asked; the catch-all resource [{proxy+}] under the first
    listed resource; a method and an integration towards the site on
    both; the deployment of [ProxyStage]) and returns the endpoint
    [<id>.execute-api.<region>.amazonaws.com] of the new API with [new]
    true; or it raises [IndexError] when the new API lists no resource; or
    it raises the failure of a call at once, this call being the last one
    made. *)
Theorem forced_provisioning_creates {W Response float Kwargs : Type}
    (ext : @Externals W Response float Kwargs)
    fuel self region rmd (w : world) :
  let cl := client_of self region in
  let run := _init_gateway_sync ext fuel self region true rmd w in
  forallb (λ e, negb (is_listing_call e)) run.2 = true
  ∧ ((∃ restApiId root proxy,
        run.1.1 = Return (Provisioned (endpoint_of restApiId region) true)
        ∧ run.2 = NewClient cl
                  :: creation_calls self cl (new_api_name self rmd) restApiId root proxy)
     ∨ (∃ restApiId,
          run.1.1 = Raise (IndexError "list index out of range")
          ∧ run.2 = [NewClient cl;
                     Aws cl (create_rest_api (new_api_name self rmd)) None;
                     Aws cl (get_resources restApiId) None])
     ∨ (∃ made failure c,
          run.1.1 = Raise (BotoException failure)
          ∧ run.2 = NewClient cl :: made ++ [Aws cl c (Some failure)]
          ∧ forallb succeeded made = true
          ∧ (length made < 8)%nat)).
Proof.
  intros cl run. subst cl run. rewrite init_forced_run.
  pose proof (create_emits ext (λ e, negb (is_listing_call e)) self
                (client_of self region) region rmd) as Hquiet.
  specialize (Hquiet (ltac:(by intros [] ? ?)) w).
  pose proof (create_gateway_cases ext self (client_of self region) region rmd w) as Hcases.
  cbn zeta in Hcases.
  destruct (create_gateway ext self (client_of self region) region rmd w) as [[r w2] t2].
  cbn [fst snd] in *. split; [by cbn [forallb]; rewrite Hquiet|].
  destruct Hcases as [(id & root & proxy & -> & ->)
                     |[(id & -> & ->)|(made & failure & c & -> & -> & Hmade & Hlen)]].
  - left. by exists id, root, proxy.
  - right; left. by exists id.
  - right; right. by exists made, failure, c.
Qed.

(** X5. Provisioning without [force], when the listing holds no resource
    whose name starts with the gateway name (an empty listing, other
    tools' resources, resources without a name): it creates a gateway
    after the listing, with the same calls as under [force], and returns
    its endpoint with [new] true, unless a creation call fails. *)
Theorem unrecognized_listing_creates {W Response float Kwargs : Type}
    (ext : @Externals W Response float Kwargs)
    fuel self region rmd (w : world) apis w1 t1 :
  get_gateways_sync ext fuel (client_of self region) w = (Return apis, w1, t1) →
  Forall (λ api, recognized self api = false) apis →
  let cl := client_of self region in
  let run := _init_gateway_sync ext fuel self region false rmd w in
  run.1.1 ≠ Return Skipped
  ∧ (∀ endpoint new, run.1.1 = Return (Provisioned endpoint new) → new = true)
  ∧ ((∃ restApiId root proxy,
        run.1.1 = Return (Provisioned (endpoint_of restApiId region) true)
        ∧ run.2 = NewClient cl :: t1
                  ++ creation_calls self cl (new_api_name self rmd) restApiId root proxy)
     ∨ (∃ e t2, run.1.1 = Raise e ∧ run.2 = NewClient cl :: t1 ++ t2
                ∧ (length t2 <= 8)%nat)).
Proof.
  intros Hlisting Hnone cl run. subst cl run.
  rewrite init_run, Hlisting. unfold init_after_listing.
  assert (find (recognized self) apis = None) as ->.
  { clear Hlisting. induction Hnone as [|api apis Hapi _ IH]; [done|].
    cbn [find]. by rewrite Hapi. }
  pose proof (create_gateway_cases ext self (client_of self region) region rmd w1) as Hcases.
  cbn zeta in Hcases.
  destruct (create_gateway ext self (client_of self region) region rmd w1) as [[r w2] t2].
  cbn [fst snd] in *.
  destruct Hcases as [(id & root & proxy & -> & ->)
                     |[(id & -> & ->)|(made & failure & c & -> & -> & Hmade & Hlen)]].
  - split; [done|]. split; [by intros ?? [= _ <-]|]. left. by exists id, root, proxy.
  - split; [done|]. split; [done|]. right. eexists _, _. split; [done|]. split; [done|].
    cbn. lia.
  - split; [done|]. split; [done|]. right. eexists _, _. split; [done|]. split; [done|].
    rewrite length_app. cbn. lia.
Qed.

Lemma unrecognized_listing_creates_witness :
  let self := one_region_gateway in
  let cl := client_of self "us-east-1" in
  let run := _init_gateway_sync foreign 1 self "us-east-1" false true (Sim.world0 []) in
  run.1.1 ≠ Return Skipped
  ∧ (∀ endpoint new, run.1.1 = Return (Provisioned endpoint new) → new = true)
  ∧ run.1.1 = Return (Provisioned "new-us-east-1.execute-api.us-east-1.amazonaws.com" true)
  ∧ run.2 = NewClient cl :: Aws cl (get_rest_apis 500 None) None
            :: creation_calls self cl
                 "https://example.com - IP Rotate API (Manual Deletion Required)"
                 "new-us-east-1" "root" "proxy".
Proof.
  intros self cl run.
  destruct (unrecognized_listing_creates foreign 1 self "us-east-1" true (Sim.world0 [])
              [mkApi "c3" (Some "other-tool"); mkApi "n0" None] (Sim.world0 [])
              [Aws cl (get_rest_apis 500 None) None] eq_refl)
    as (Hskip & Hnew & _).
  { repeat constructor. }
  split; [exact Hskip|]. split; [exact Hnew|]. split; reflexivity.
Defined.

(** X6. The name given to a new gateway decides what later runs do with
    it: whatever [require_manual_deletion] is, the discovery of a later
    provisioning accepts the name, so the gateway is reused; the
    deprovisioner accepts it exactly when [require_manual_deletion] was
    off, so a gateway created with the flag is never a candidate for
    deletion, whatever the allow-list. *)
Theorem new_gateway_name_recognition (self : AsyncApiGateway)
    (require_manual_deletion : bool) (restApiId : string) eps :
  let api := mkApi restApiId (Some (new_api_name self require_manual_deletion)) in
  recognized self api = true
  ∧ names_gateway self api = negb require_manual_deletion
  ∧ (require_manual_deletion = true → candidate self eps api = false)
  ∧ candidate self None api = negb require_manual_deletion.
Proof.
  intros api. subst api.
  assert (recognized self
            (mkApi restApiId (Some (new_api_name self require_manual_deletion))) = true)
    as Hrec.
  { unfold recognized, new_api_name. cbn [rest_api_name].
    destruct require_manual_deletion; [apply StrFacts.startswith_app|].
    rewrite <-(StrFacts.app_empty_r (api_name self)) at 1.
    apply StrFacts.startswith_app. }
  assert (names_gateway self
            (mkApi restApiId (Some (new_api_name self require_manual_deletion)))
          = negb require_manual_deletion) as Hname.
  { unfold names_gateway, new_api_name. cbn [rest_api_name].
    destruct require_manual_deletion; [by apply StrFacts.eqb_app_suffix|].
    apply String.eqb_refl. }
  split; [done|]. split; [done|]. unfold candidate. rewrite Hname. split.
  - by intros ->.
  - cbn [not_listed negb]. by rewrite andb_true_r.
Qed.

Lemma new_gateway_name_recognition_witness :
  candidate one_region_gateway (Some ["m1.execute-api.us-east-1.amazonaws.com"])
    (mkApi "m1" (Some (new_api_name one_region_gateway true))) = false.
Proof.
  pose proof (new_gateway_name_recognition one_region_gateway true "m1"
                (Some ["m1.execute-api.us-east-1.amazonaws.com"])) as (_ & _ & Hflag & _).
  apply Hflag. reflexivity.
Defined.

(** X7. Whatever its arguments and whatever the provider answers, [start]
    only makes clients, lists, creates and prints: it never calls
    [delete_rest_api], never sleeps and never sends an HTTP request.  A
    creation that fails half-way is therefore left as it is. *)
Theorem start_only_provisions {W Response float Kwargs : Type}
    (ext : @Externals W Response float Kwargs)
    fuel self force rmd arg (w : world) :
  forallb provisioning_event (start ext fuel self force rmd arg w).2 = true
  ∧ deletions (start ext fuel self force rmd arg w).2 = [].
Proof.
  assert (forallb provisioning_event (start ext fuel self force rmd arg w).2 = true) as Hp.
  { apply start_emits; [by split|]. intros cl c failure Hc. cbn. by rewrite Hc. }
  split; [done|]. apply deletions_none.
  eapply forallb_forall. intros e He. eapply forallb_forall in Hp; [|exact He].
  by destruct e as [| | |? []|].
Qed.

(** X8. Whatever its arguments and whatever the provider answers,
    [shutdown] only makes clients, lists, deletes, pauses one second and
    prints: it makes none of the calls that create or configure a gateway
    and never sends an HTTP request. *)
Theorem shutdown_only_deprovisions {W Response float Kwargs : Type}
    (ext : @Externals W Response float Kwargs)
    fuel self eps (w : world) :
  forallb deprovisioning_event (shutdown ext fuel self eps w).2 = true
  ∧ forallb no_creation (shutdown ext fuel self eps w).2 = true.
Proof.
  assert (forallb deprovisioning_event (shutdown ext fuel self eps w).2 = true) as Hp.
  { by apply shutdown_emits; [split|..]. }
  split; [done|].
  eapply forallb_forall. intros e He. eapply forallb_forall in Hp; [|exact He].
  by destruct e as [| | |? []|].
Qed.

(** X9. With [verbose] off nothing is ever printed: not by [start], not by
    [shutdown], whatever happens in the regions. *)
Theorem quiet_when_not_verbose {W Response float Kwargs : Type}
    (ext : @Externals W Response float Kwargs)
    fuel self force rmd arg eps (w : world) :
  verbose self = false →
  forallb no_output (start ext fuel self force rmd arg w).2 = true
  ∧ forallb no_output (shutdown ext fuel self eps w).2 = true.
Proof.
  intros Hquiet.
  assert (accepts no_output self) as HP by (split; [done|done|by rewrite Hquiet]).
  split; [by apply start_emits|by apply shutdown_emits].
Qed.

Lemma quiet_when_not_verbose_witness :
  forallb no_output (start mixed 1 silent_gateway false false None (Sim.world0 [])).2 = true
  ∧ forallb no_output (shutdown mixed 1 silent_gateway None (Sim.world0 [])).2 = true.
Proof.
  apply (quiet_when_not_verbose mixed 1 silent_gateway false false None None (Sim.world0 [])).
  reflexivity.
Defined.

(** X10. [send] touches nothing but the transport and the caller's
    headers: it never calls the provider, never prints, never sleeps, and
    it sends at most one request. *)
Theorem send_only_requests {W Response float Kwargs : Type}
    (ext : @Externals W Response float Kwargs)
    self method url headers timeout kwargs (w : world) :
  let run := send ext self method url headers timeout kwargs w in
  (length run.2 <= 1)%nat
  ∧ (∀ e, e ∈ run.2 → ∃ u H, e = Request method u H)
  ∧ (run.2 = [] ↔ endpoints self = [] ∨ Str.contains "://" url = false).
Proof.
  intros run. subst run.
  destruct (send_cases_opt ext self method url headers timeout kwargs w)
    as [[Heps ->]|[(E & o & HE & Hp & ->)
                  |(E & o & p & r & v & o' & res & o'' & HE & Hp & _ & _ & ->)]];
    cbn [snd length].
  - split; [lia|]. split; [by intros ? ?%elem_of_nil|]. split; [by left|done].
  - split; [lia|]. split; [by intros ? ?%elem_of_nil|]. split; [|done].
    intros _. right. unfold Str.contains. by rewrite Hp.
  - split; [lia|]. split.
    + intros e ->%list_elem_of_singleton. by eexists _, _.
    + split; [done|]. intros [Heps|Hc].
      * apply drawn_elem_of in HE. rewrite Heps in HE. by apply elem_of_nil in HE.
      * unfold Str.contains in Hc. by rewrite Hp in Hc.
Qed.

(** X11. On a started pool and a URL that contains [://], [send] makes
    one call to the transport, with the caller's method, timeout and
    options, the rewritten URL and the rewritten headers, and its outcome
    is the transport's: the response as it is, or the failure raised as it
    is, without another try.  In both cases the caller's dictionary holds
    the rewritten headers. *)
Theorem send_returns_transport_outcome {W Response float Kwargs : Type}
    (ext : @Externals W Response float Kwargs)
    self method url headers timeout kwargs (w : world) :
  endpoints self ≠ [] →
  Str.contains "://" url = true →
  ∃ E u H o res o',
    E ∈ endpoints self
    ∧ request ext method u H timeout kwargs o = (res, o')
    ∧ H !! "Host" = Some E
    ∧ send ext self method url headers timeout kwargs w
      = (match res with inl failure => Raise (HTTPError failure) | inr r => Return r end,
         mkWorld o' (<[headers_loc w headers := H]> (settled_heap w headers)),
         [Request method u H]).
Proof.
  intros Heps Hurl.
  destruct (send_cases_opt ext self method url headers timeout kwargs w)
    as [[Heps' _]|[(E & o & _ & Hp & _)
                  |(E & o & p & r & v & o' & res & o'' & HE & _ & _ & Hreq & ->)]].
  - done.
  - unfold Str.contains in Hurl. by rewrite Hp in Hurl.
  - exists E, (proxied_url E r), (rewritten E v (caller_headers w headers)), o', res, o''.
    split; [by eapply drawn_elem_of|]. split; [done|]. split; [|done].
    unfold rewritten. rewrite lookup_insert_ne, lookup_delete_ne by done.
    apply lookup_insert_eq.
Qed.

Lemma send_returns_transport_outcome_witness :
  ∃ E u H o res o',
    E ∈ endpoints example_gateway
    ∧ request quiet "POST" u H tt tt o = (res, o')
    ∧ H !! "Host" = Some E
    ∧ send quiet example_gateway "POST" "http://example.com/foo?x=1" (Some 0%nat) tt tt
        example_world
      = (match res with inl failure => Raise (HTTPError failure) | inr r => Return r end,
         mkWorld o' (<[headers_loc example_world (Some 0%nat) := H]>
                       (settled_heap example_world (Some 0%nat))),
         [Request "POST" u H]).
Proof.
  apply (send_returns_transport_outcome quiet example_gateway "POST"
           "http://example.com/foo?x=1" (Some 0%nat) tt tt example_world);
    [discriminate|reflexivity].
Defined.

(** X12. A URL with nothing after the host, [scheme://host] without a
    slash, is sent to the root of the stage: [https://E/ProxyStage/] with
    an empty path. *)
Theorem send_without_path {W Response float Kwargs : Type}
    (ext : @Externals W Response float Kwargs)
    self method scheme host headers timeout kwargs (w : world) :
  endpoints self ≠ [] →
  Str.contains "://" scheme = false →
  Str.contains "/" host = false →
  ∃ E H,
    E ∈ endpoints self
    ∧ (send ext self method (scheme +:+ "://" +:+ host) headers timeout kwargs w).2
      = [Request method ("https://" +:+ E +:+ "/ProxyStage/") H].
Proof.
  intros Heps Hscheme Hhost.
  destruct (send_cases_opt ext self method (scheme +:+ "://" +:+ host)
              headers timeout kwargs w)
    as [[Heps' _]|[(E & o & _ & Hp & _)
                  |(E & o & p & r & v & o' & res & o'' & HE & Hp & _ & _ & ->)]].
  - done.
  - by rewrite StrFacts.partition_scheme in Hp.
  - rewrite StrFacts.partition_scheme in Hp by done. injection Hp as <- <-.
    exists E, (rewritten E v (caller_headers w headers)).
    split; [by eapply drawn_elem_of|]. cbn [snd].
    unfold proxied_url, site_path_of. unfold Str.contains in Hhost.
    by destruct (Str.partition "/" host).
Qed.

Lemma send_without_path_witness :
  ∃ E H,
    E ∈ endpoints example_gateway
    ∧ (send quiet example_gateway "GET" ("http" +:+ "://" +:+ "example.com") None tt tt
         (Sim.world0 [])).2
      = [Request "GET" ("https://" +:+ E +:+ "/ProxyStage/") H].
Proof.
  apply (send_without_path quiet example_gateway "GET" "http" "example.com" None tt tt
           (Sim.world0 [])); [discriminate|reflexivity|reflexivity].
Defined.

(** X13. On a started pool, a URL that does not contain [://] makes
    [send] raise [ValueError] at the unpacking of the split: no request is
    sent and no header is written, but an endpoint has been drawn, so the
    random generator has advanced. *)
Theorem send_rejects_url_without_scheme {W Response float Kwargs : Type}
    (ext : @Externals W Response float Kwargs)
    self method url headers timeout kwargs (w : world) :
  endpoints self ≠ [] →
  Str.contains "://" url = false →
  ∃ E o,
    drawn ext self (outside w) E o
    ∧ send ext self method url headers timeout kwargs w
      = (Raise (ValueError "not enough values to unpack (expected 2, got 1)"),
         mkWorld o (settled_heap w headers), []).
Proof.
  intros Heps Hurl.
  destruct (send_cases_opt ext self method url headers timeout kwargs w)
    as [[Heps' _]|[(E & o & HE & Hp & ->)
                  |(E & o & p & r & v & o' & res & o'' & _ & Hp & _)]].
  - done.
  - by exists E, o.
  - unfold Str.contains in Hurl. by rewrite Hp in Hurl.
Qed.

Lemma send_rejects_url_without_scheme_witness :
  ∃ E o,
    drawn quiet example_gateway (outside (Sim.world0 [5%N])) E o
    ∧ send quiet example_gateway "GET" "example.com/foo" None tt tt (Sim.world0 [5%N])
      = (Raise (ValueError "not enough values to unpack (expected 2, got 1)"),
         mkWorld o (settled_heap (Sim.world0 [5%N]) None), []).
Proof.
  apply (send_rejects_url_without_scheme quiet example_gateway "GET" "example.com/foo"
           None tt tt (Sim.world0 [5%N])); [discriminate|reflexivity].
Defined.

Section AllowListFacts.

Context {W Response float Kwargs : Type}.
Variable ext : @Externals W Response float Kwargs.

Ltac run :=
  unfold when, print, sleep in *;
  unfold mbind, M_bind, bind, mret, M_ret, ret, raise, out_of_fuel,
    emit, try, set_heap, set_outside in *;
  cbn [outside heap fst snd] in *.

(** The first piece of a split is what comes before the first
    separator. *)
Lemma split_head sep s :
  hd EmptyString (Str.split sep s)
  = match Str.partition sep s with Some (before, _) => before | None => s end.
Proof.
  unfold Str.split. destruct (String.length s); cbn [Str.split_fuel];
    by destruct (Str.partition sep s) as [[before after]|].
Qed.

Lemma endpoint_head restApiId region :
  Str.contains "." restApiId = false →
  hd EmptyString (Str.split "." (endpoint_of restApiId region)) = restApiId.
Proof.
  intros Hid. rewrite split_head. unfold endpoint_of.
  change (restApiId +:+ ".execute-api." +:+ region +:+ ".amazonaws.com")
    with (restApiId +:+ "." +:+ ("execute-api." +:+ region +:+ ".amazonaws.com")).
  by rewrite Ipv4Facts.partition_dot.
Qed.

Lemma candidate_inv self eps api :
  candidate self eps api = true →
  rest_api_name api = Some (api_name self)
  ∧ match eps with
    | Some l => ∃ ep, ep ∈ l ∧ hd EmptyString (Str.split "." ep) = rest_api_id api
    | None => True
    end.
Proof.
  unfold candidate, names_gateway, not_listed.
  intros [Hname Hlisted]%andb_prop. split.
  - destruct (rest_api_name api) as [name|]; [|done].
    by apply String.eqb_eq in Hname as ->.
  - destruct eps as [l|]; [|done].
    apply negb_true_iff, negb_false_iff, bool_decide_eq_true in Hlisted.
    apply list_elem_of_fmap in Hlisted as (ep & Hep & Hin). by exists ep.
Qed.

(** The deletion loop calls [delete_rest_api] only on identifiers of the
    allow-list. *)
Lemma delete_loop_within self cl l apis deleted :
  let ids := map (λ ep, hd EmptyString (Str.split "." ep)) l in
  emits_only (deletes_within ids) (delete_loop ext self cl (Some l) ids apis deleted).
Proof.
  intros ids. revert deleted.
  induction apis as [|api apis IH]; intros deleted; [apply emits_ret|].
  cbn [delete_loop]. destruct (names_gateway self api); [|apply IH].
  unfold not_listed. destruct (bool_decide (rest_api_id api ∈ ids)) eqn:Hin;
    cbn [negb]; [|apply IH].
  apply emits_bind.
  { apply emits_try.
    apply (emits_call ext (deletes_within ids) cl (delete_rest_api (rest_api_id api))).
    intros failure. exact Hin. }
  intros [e|[]]; [|apply IH].
  destruct e as [| | | |[code message|]|]; try apply emits_raise.
  destruct (String.eqb code _).
  - apply emits_bind; [by apply emits_emit|intros ?; apply IH].
  - apply emits_bind; [|intros ?; apply IH].
    destruct (verbose self); [by apply emits_emit|apply emits_ret].
Qed.

Lemma delete_within fuel self region l :
  emits_only (deletes_within (map (λ ep, hd EmptyString (Str.split "." ep)) l))
    (delete_gateway ext fuel self region (Some l)).
Proof.
  unfold delete_gateway, _delete_gateway_sync.
  apply emits_bind; [by apply emits_emit|intros _].
  apply emits_bind; [by apply emits_try, get_gateways_sync_emits|].
  intros [e|apis]; [|apply delete_loop_within].
  destruct e as [| | | |[code message|]|]; try apply emits_raise.
  destruct (String.eqb code _); [apply emits_ret|apply emits_raise].
Qed.

Lemma shutdown_within fuel self l :
  emits_only (deletes_within (map (λ ep, hd EmptyString (Str.split "." ep)) l))
    (shutdown ext fuel self (Some l)).
Proof.
  assert (accepts (deletes_within (map (λ ep, hd EmptyString (Str.split "." ep)) l)) self)
    as HP by done.
  unfold shutdown.
  apply emits_bind; [by apply emits_when_verbose|intros _].
  apply emits_bind.
  { apply gather_emits. intros task (region & -> & _)%list_elem_of_fmap.
    apply delete_within. }
  intros results. apply emits_bind; [by apply collect_deleted_emits|intros ids].
  apply emits_bind; [by apply emits_when_verbose|intros _; apply emits_ret].
Qed.

Lemma deletions_within ids t d :
  forallb (deletes_within ids) t = true → d ∈ deletions t → d.1 ∈ ids.
Proof.
  induction t as [|e t IH]; [by intros _ ?%elem_of_nil|].
  cbn [forallb]. intros [He Ht]%andb_prop.
  change (e :: t) with ([e] ++ t). rewrite deletions_app, elem_of_app.
  intros [Hd|Hd]; [|by apply IH].
  destruct e as [| | |cl [] failure|]; try by apply elem_of_nil in Hd.
  apply list_elem_of_singleton in Hd as ->. by apply bool_decide_eq_true in He.
Qed.

End AllowListFacts.

Section AggregationFacts.

Context {W Response float Kwargs : Type}.
Variable ext : @Externals W Response float Kwargs.

Ltac run :=
  unfold when, print, sleep in *;
  unfold mbind, M_bind, bind, mret, M_ret, ret, raise, out_of_fuel,
    emit, try, set_heap, set_outside in *;
  cbn [outside heap fst snd] in *.

(** A [gather] that returns has run every task to its end, one after the
    other: its results and its trace are those of the tasks, in order. *)
Lemma gather_runs {A} (tasks : list (@M W A)) w rs w' t :
  gather tasks w = (Return rs, w', t) →
  ∃ runs : list ((exn + A) * list event),
    rs = map fst runs
    ∧ t = concat (map snd runs)
    ∧ Forall2 (λ task run, ∃ w0 w1, try task w0 = (Return run.1, w1, run.2))
        tasks runs.
Proof.
  revert w rs w' t. induction tasks as [|task tasks IH]; intros w rs w' t.
  { cbn [gather]. run. intros [= <- <- <-]. by exists []. }
  cbn [gather]. run.
  destruct (task w) as [[[a|e|] w1] t1] eqn:Htask; [| |done].
  - destruct (gather tasks w1) as [[[rs'|e'|] w2] t2] eqn:Hg; [|done..].
    intros [= <- <- <-]. destruct (IH _ _ _ _ Hg) as (runs & -> & -> & Hall).
    exists ((inr a, t1) :: runs). cbn [map concat fst snd].
    split; [done|]. split; [by rewrite app_nil_r|].
    constructor; [|done]. exists w, w1. cbn [fst snd]. unfold try. by rewrite Htask.
  - destruct (gather tasks w1) as [[[rs'|e'|] w2] t2] eqn:Hg; [|done..].
    intros [= <- <- <-]. destruct (IH _ _ _ _ Hg) as (runs & -> & -> & Hall).
    exists ((inl e, t1) :: runs). cbn [map concat fst snd].
    split; [done|]. split; [by rewrite app_nil_r|].
    constructor; [|done]. exists w, w1. cbn [fst snd]. unfold try. by rewrite Htask.
Qed.

Lemma attempts_after self cl ds :
  attempts (flat_map (after_deletion self cl) ds) = 0%nat.
Proof.
  induction ds as [|[restApiId failure] ds IH]; [done|].
  cbn [flat_map]. rewrite attempts_app, IH. unfold after_deletion. cbn [fst snd].
  destruct failure as [[code message|message]|]; [|done..].
  destruct (String.eqb code _); [done|]. by destruct (verbose self).
Qed.

Lemma deletions_prints t : forallb is_print t = true → deletions t = [].
Proof.
  intros Ht. apply deletions_none. eapply forallb_forall. intros e He.
  eapply forallb_forall in Ht; [|exact He]. by destruct e.
Qed.

Lemma deleted_of_app ds ds' : deleted_of (ds ++ ds') = deleted_of ds ++ deleted_of ds'.
Proof. unfold deleted_of. apply omap_app. Qed.

(** One deprovisioning task, as [gather] sees it. *)
Lemma delete_task fuel self region eps (w0 : @world W) r w1 t :
  try (delete_gateway ext fuel self region eps) w0 = (Return r, w1, t) →
  attempts t = 1%nat
  ∧ returned r `sublist_of` deleted_of (deletions t)
  ∧ ((∀ restApiId m, (restApiId, Some (BotoCoreError m)) ∉ deletions t) →
     returned r = deleted_of (deletions t)).
Proof.
  unfold delete_gateway.
  pose proof (get_gateways_sync_emits ext no_deletion fuel (client_of self region)
                (λ _ _ _, eq_refl) w0) as Hquiet.
  pose proof (get_gateways_sync_emits ext no_attempt fuel (client_of self region)
                (λ _ _ _, eq_refl) w0) as Hlist.
  destruct (get_gateways_sync ext fuel (client_of self region) w0)
    as [[[apis|e|] w1'] t1] eqn:Hlisting; cbn [snd] in Hquiet, Hlist.
  - destruct (delete_run_spec ext fuel self region eps w0 apis w1' t1 Hlisting)
      as (ds & r' & w2 & Hrun & Hds & Hr).
    unfold try. rewrite Hrun.
    assert (attempts (NewClient (client_of self region)
                        :: t1 ++ flat_map (after_deletion self (client_of self region)) ds)
            = 1%nat) as Hatt.
    { change (NewClient ?c :: ?t) with ([NewClient c] ++ t).
      by rewrite !attempts_app, (attempts_none t1), attempts_after. }
    destruct r' as [out|e|]; [| |done].
    + intros [= <- <- <-]. destruct Hr as (_ & -> & _). rewrite Hds. by cbn [returned].
    + intros [= <- <- <-]. rewrite Hds. cbn [returned].
      split; [done|]. split; [apply sublist_nil_l|].
      intros Hcoded. destruct Hr as (restApiId & m & rest & _ & Hlast & _).
      destruct (Hcoded restApiId m). apply last_Some in Hlast as [l' ->].
      apply elem_of_app. right. apply list_elem_of_here.
  - unfold try. rewrite delete_run, Hlisting. unfold delete_after_listing.
    assert (attempts (NewClient (client_of self region) :: t1) = 1%nat) as Hatt.
    { change (NewClient ?c :: ?t) with ([NewClient c] ++ t).
      by rewrite !attempts_app, (attempts_none t1). }
    assert (deletions (NewClient (client_of self region) :: t1) = []) as Hnone
      by (by apply deletions_none).
    destruct e as [| | | |[code message|]|];
      try (intros [= <- <- <-]; by rewrite Hnone).
    destruct (String.eqb code _); intros [= <- <- <-]; by rewrite Hnone.
  - unfold try. by rewrite delete_run, Hlisting.
Qed.

(** The [for r in results] loop of [shutdown] appends the lists of the
    tasks that returned, prints for the others, and does nothing else. *)
Lemma collect_deleted_returned self results acc (w : @world W) :
  ∃ t,
    collect_deleted self results acc w
    = (Return (acc ++ flat_map returned results), w, t)
    ∧ forallb is_print t = true.
Proof.
  revert acc. induction results as [|[e|ids] results IH]; intros acc.
  - exists []. cbn. by rewrite app_nil_r.
  - cbn [collect_deleted flat_map returned app]. destruct (IH acc) as (t & Hrun & Ht).
    destruct (verbose self); run; rewrite Hrun; eexists; by split.
  - cbn [collect_deleted flat_map returned]. destruct (IH (acc ++ ids)) as (t & Hrun & Ht).
    exists t. by rewrite Hrun, <-app_assoc.
Qed.

(** [shutdown], from the outcome of [gather]. *)
Lemma shutdown_run fuel self eps (w : @world W) :
  match gather (map (λ region, delete_gateway ext fuel self region eps) (regions self)) w
  with
  | (Return results, w1, t1) =>
      ∃ t0 t2,
        shutdown ext fuel self eps w
        = (Return (flat_map returned results), w1, t0 ++ t1 ++ t2)
        ∧ forallb is_print t0 = true ∧ forallb is_print t2 = true
  | (Raise e, w1, t1) => False
  | (OutOfFuel, w1, t1) => (shutdown ext fuel self eps w).1.1 = OutOfFuel
  end.
Proof.
  pose proof (gather_never_raises
                (map (λ region, delete_gateway ext fuel self region eps) (regions self))
                w) as Hnr.
  unfold shutdown.
  destruct (gather _ w) as [[[results|e|] w1] t1] eqn:Hg; cbn [fst] in Hnr.
  - destruct (collect_deleted_returned self results [] w1) as (t & Hrun & Ht).
    cbn [app] in Hrun.
    destruct (verbose self); run; rewrite Hg, Hrun; cbn [app].
    + eexists [_], (t ++ [_]). split; [reflexivity|].
      split; [done|]. by rewrite forallb_app, Ht.
    + exists [], t. split; [by rewrite ?app_nil_r|]. done.
  - by destruct (Hnr e).
  - destruct (verbose self); run; by rewrite Hg.
Qed.

(** What the runs of the deprovisioning tasks give together. *)
Lemma runs_sublist (runs : list ((exn + list string) * list event)) :
  Forall (λ run, returned run.1 `sublist_of` deleted_of (deletions run.2)) runs →
  flat_map returned (map fst runs)
    `sublist_of` deleted_of (deletions (concat (map snd runs))).
Proof.
  induction 1 as [|run runs Hrun _ IH]; [done|].
  cbn [map flat_map concat]. rewrite deletions_app, deleted_of_app.
  by apply sublist_app.
Qed.

Lemma runs_equal (runs : list ((exn + list string) * list event)) :
  Forall (λ run, (∀ restApiId m, (restApiId, Some (BotoCoreError m)) ∉ deletions run.2) →
                 returned run.1 = deleted_of (deletions run.2)) runs →
  (∀ restApiId m,
     (restApiId, Some (BotoCoreError m)) ∉ deletions (concat (map snd runs))) →
  flat_map returned (map fst runs) = deleted_of (deletions (concat (map snd runs))).
Proof.
  induction 1 as [|run runs Hrun _ IH]; [done|].
  cbn [map flat_map concat]. rewrite deletions_app, deleted_of_app.
  intros Hcoded. rewrite Hrun, IH; [done|..].
  - intros restApiId m Hin. apply (Hcoded restApiId m), elem_of_app. by right.
  - intros restApiId m Hin. apply (Hcoded restApiId m), elem_of_app. by left.
Qed.

(** The list that [shutdown] returns against the deletions it made. *)
Lemma shutdown_deleted fuel self eps (w : @world W) ids :
  (shutdown ext fuel self eps w).1.1 = Return ids →
  ids `sublist_of` deleted_of (deletions (shutdown ext fuel self eps w).2)
  ∧ ((∀ restApiId m,
        (restApiId, Some (BotoCoreError m))
        ∉ deletions (shutdown ext fuel self eps w).2) →
     ids = deleted_of (deletions (shutdown ext fuel self eps w).2)).
Proof.
  pose proof (shutdown_run fuel self eps w) as Hrun.
  destruct (gather _ w) as [[[results|e|] w1] t1] eqn:Hg; [|done|].
  2:{ rewrite Hrun. done. }
  destruct Hrun as (t0 & t2 & -> & Ht0 & Ht2). cbn [fst snd]. intros [= <-].
  rewrite !deletions_app, (deletions_prints t0), (deletions_prints t2), app_nil_r by done.
  cbn [app].
  apply gather_runs in Hg as (runs & -> & -> & Hall).
  apply Forall2_fmap_l in Hall.
  assert (Forall (λ run,
            returned run.1 `sublist_of` deleted_of (deletions run.2)
            ∧ ((∀ restApiId m, (restApiId, Some (BotoCoreError m)) ∉ deletions run.2) →
               returned run.1 = deleted_of (deletions run.2))) runs) as Hruns.
  { clear -Hall. induction Hall as [|region run regions runs (w0 & w1 & Htask) _ IH];
      constructor; [|done].
    apply delete_task in Htask as (_ & Hsub & Heq). done. }
  apply Forall_and in Hruns as [Hsub Heq].
  split; [by apply runs_sublist|by apply runs_equal].
Qed.

End AggregationFacts.
(** X14. Every call of [delete_rest_api] that the per-region deprovision
    makes is on a resource of the listing it has just read, whose name is
    exactly the gateway name, and, when an allow-list is given, whose
    identifier is the text before the first dot of one of its entries. *)
Theorem deletions_are_listed_and_allowed {W Response float Kwargs : Type}
    (ext : @Externals W Response float Kwargs)
    fuel self region eps (w : world) restApiId failure :
  (restApiId, failure) ∈ deletions (_delete_gateway_sync ext fuel self region eps w).2 →
  ∃ apis w1 t1 api,
    get_gateways_sync ext fuel (client_of self region) w = (Return apis, w1, t1)
    ∧ api ∈ apis
    ∧ rest_api_id api = restApiId
    ∧ rest_api_name api = Some (api_name self)
    ∧ match eps with
      | Some l => ∃ ep, ep ∈ l ∧ hd EmptyString (Str.split "." ep) = restApiId
      | None => True
      end.
Proof.
  destruct (get_gateways_sync ext fuel (client_of self region) w)
    as [[[apis|e|] w1] t1] eqn:Hlisting.
  - destruct (delete_run_spec ext fuel self region eps w apis w1 t1 Hlisting)
      as (ds & r & w2 & -> & Hds & Hr).
    cbn [snd]. rewrite Hds. intros Hd.
    assert (restApiId ∈ map rest_api_id (List.filter (candidate self eps) apis)) as Hin.
    { assert (restApiId ∈ map fst ds) as Hfst
        by (apply list_elem_of_fmap; by exists (restApiId, failure)).
      destruct r as [out|e|]; [|destruct Hr as (id & m & rest & _ & _ & Hrest)|done].
      - destruct Hr as (<- & _). done.
      - rewrite Hrest. apply elem_of_app. by left. }
    apply list_elem_of_fmap in Hin as (api & -> & [Hapi Hcand]%filter_elem).
    apply candidate_inv in Hcand as [Hname Hallowed].
    by exists apis, w1, t1, api.
  - rewrite delete_run, Hlisting.
    pose proof (get_gateways_sync_emits ext no_deletion fuel (client_of self region)
                  (λ _ _ _, eq_refl) w) as Hquiet.
    rewrite Hlisting in Hquiet. cbn [snd] in Hquiet.
    assert (deletions (NewClient (client_of self region) :: t1) = []) as Hnone
      by (by apply deletions_none).
    unfold delete_after_listing.
    destruct e as [| | | |[code message|]|]; cbn [snd]; try rewrite Hnone;
      try (by intros ?%elem_of_nil).
    destruct (String.eqb code _); cbn [snd]; rewrite Hnone; by intros ?%elem_of_nil.
  - rewrite delete_run, Hlisting.
    pose proof (get_gateways_sync_emits ext no_deletion fuel (client_of self region)
                  (λ _ _ _, eq_refl) w) as Hquiet.
    rewrite Hlisting in Hquiet. cbn [snd] in Hquiet.
    unfold delete_after_listing. cbn [snd].
    assert (deletions (NewClient (client_of self region) :: t1) = []) as ->
      by (by apply deletions_none).
    by intros ?%elem_of_nil.
Qed.

Lemma deletions_are_listed_and_allowed_witness :
  ∃ apis w1 t1 api,
    get_gateways_sync flagged 1 (client_of one_region_gateway "us-east-1") (Sim.world0 [])
    = (Return apis, w1, t1)
    ∧ api ∈ apis
    ∧ rest_api_id api = "b2"
    ∧ rest_api_name api = Some (api_name one_region_gateway)
    ∧ ∃ ep, ep ∈ ["b2.execute-api.us-east-1.amazonaws.com"]
            ∧ hd EmptyString (Str.split "." ep) = "b2".
Proof.
  apply (deletions_are_listed_and_allowed flagged 1 one_region_gateway "us-east-1"
           (Some ["b2.execute-api.us-east-1.amazonaws.com"]) (Sim.world0 []) "b2" None).
  vm_compute. apply list_elem_of_here.
Defined.

(** X15. With an allow-list, [shutdown] calls [delete_rest_api] only on
    identifiers taken from the list, in every region and whatever the
    provider answers.  With the empty list it deletes nothing and, when
    it returns, returns the empty list; this is unlike [start], which
    reads an empty list as no list. *)
Theorem shutdown_keeps_to_allow_list {W Response float Kwargs : Type}
    (ext : @Externals W Response float Kwargs)
    fuel self l (w : world) :
  (∀ d, d ∈ deletions (shutdown ext fuel self (Some l) w).2 →
        ∃ ep, ep ∈ l ∧ hd EmptyString (Str.split "." ep) = d.1)
  ∧ deletions (shutdown ext fuel self (Some []) w).2 = []
  ∧ ((shutdown ext fuel self (Some []) w).1.1 = Return []
     ∨ (shutdown ext fuel self (Some []) w).1.1 = OutOfFuel).
Proof.
  assert (deletions (shutdown ext fuel self (Some []) w).2 = []) as Hnone.
  { destruct (deletions _) as [|d ds] eqn:Hds; [done|].
    assert (d ∈ deletions (shutdown ext fuel self (Some []) w).2) as Hd
      by (rewrite Hds; apply list_elem_of_here).
    apply (deletions_within _ _ _ (shutdown_within ext fuel self [] w)) in Hd.
    by apply elem_of_nil in Hd. }
  split; [|split; [done|]].
  - intros d Hd.
    apply (deletions_within _ _ _ (shutdown_within ext fuel self l w)) in Hd.
    apply list_elem_of_fmap in Hd as (ep & Hep & Hin). by exists ep.
  - destruct (shutdown ext fuel self (Some []) w).1.1 as [ids|e|] eqn:Hr; [| |by right].
    + left. apply (shutdown_deleted ext) in Hr as [Hsub _].
      rewrite Hnone in Hsub. cbn in Hsub. by apply sublist_nil_r in Hsub as ->.
    + by destruct (shutdown_never_raises ext fuel self (Some []) w e).
Qed.

Lemma shutdown_keeps_to_allow_list_witness :
  let l := ["b2.execute-api.us-east-1.amazonaws.com"] in
  deletions (shutdown flagged 1 one_region_gateway (Some l) (Sim.world0 [])).2
  = [("b2", None)]
  ∧ (∃ ep, ep ∈ l ∧ hd EmptyString (Str.split "." ep) = "b2")
  ∧ (shutdown flagged 1 one_region_gateway (Some []) (Sim.world0 [])).1.1 = Return [].
Proof.
  intros l.
  pose proof (shutdown_keeps_to_allow_list flagged 1 one_region_gateway l (Sim.world0 []))
    as (Hallowed & _ & _).
  split; [reflexivity|]. split; [|reflexivity].
  apply (Hallowed ("b2", None)). vm_compute. apply list_elem_of_here.
Defined.

(** X16. The endpoint that provisioning returns for a gateway leads back
    to the gateway: for an identifier without a dot, the text before the
    first dot of [id.execute-api.region.amazonaws.com] is [id], so an
    allow-list made of that endpoint selects, among the resources named
    exactly as the gateway, the one with that identifier, in whatever
    region it is listed. *)
Theorem endpoint_round_trip (self : AsyncApiGateway) restApiId region api :
  Str.contains "." restApiId = false →
  hd EmptyString (Str.split "." (endpoint_of restApiId region)) = restApiId
  ∧ candidate self (Some [endpoint_of restApiId region]) api
    = names_gateway self api && String.eqb (rest_api_id api) restApiId.
Proof.
  intros Hid. pose proof (endpoint_head restApiId region Hid) as Hhead.
  split; [done|]. unfold candidate, not_listed. cbn [map]. rewrite Hhead, negb_involutive.
  f_equal. destruct (String.eqb_spec (rest_api_id api) restApiId) as [->|Hne].
  - apply bool_decide_eq_true, list_elem_of_here.
  - apply bool_decide_eq_false. by intros ?%list_elem_of_singleton.
Qed.

Lemma endpoint_round_trip_witness :
  hd EmptyString (Str.split "." (endpoint_of "abc123" "us-east-1")) = "abc123"
  ∧ candidate example_gateway (Some [endpoint_of "abc123" "us-east-1"])
      (mkApi "abc123" (Some "https://example.com - IP Rotate API"))
    = names_gateway example_gateway (mkApi "abc123" (Some "https://example.com - IP Rotate API"))
      && String.eqb "abc123" "abc123".
Proof.
  apply (endpoint_round_trip example_gateway "abc123" "us-east-1"
           (mkApi "abc123" (Some "https://example.com - IP Rotate API"))).
  reflexivity.
Defined.

(** X17. [shutdown] over [N] regions makes exactly [N] deprovisioning
    attempts, one per region, and gets [N] results, each the outcome of the
    task of its region.  The returned list is the concatenation, in the
    order of the regions, of the lists of the tasks that returned; a task
    that raised contributes nothing and takes nothing away. *)
Theorem shutdown_fans_out {W Response float Kwargs : Type}
    (ext : @Externals W Response float Kwargs)
    fuel self eps (w : world) :
  listing_ends ext fuel →
  let run := shutdown ext fuel self eps w in
  ∃ results w1 t1,
    gather (map (λ region, delete_gateway ext fuel self region eps) (regions self)) w
    = (Return results, w1, t1)
    ∧ length results = length (regions self)
    ∧ Forall2 (λ region result,
                 ∃ w0 w0' t0,
                   try (delete_gateway ext fuel self region eps) w0
                   = (Return result, w0', t0))
        (regions self) results
    ∧ attempts run.2 = length (regions self)
    ∧ run.1 = (Return (flat_map returned results), w1)
    ∧ (∀ before result after,
         results = before ++ result :: after →
         flat_map returned results
         = flat_map returned before ++ returned result ++ flat_map returned after).
Proof.
  intros Hends run. subst run.
  pose proof (shutdown_run ext fuel self eps w) as Hrun.
  destruct (gather_returns
              (map (λ region, delete_gateway ext fuel self region eps) (regions self)) w)
    as (results & w1 & t1 & Hg & Hall & Hatt).
  { intros task (region & -> & _)%list_elem_of_fmap. by apply delete_finishes. }
  rewrite Hg in Hrun. destruct Hrun as (t0 & t2 & Hrun & Ht0 & Ht2).
  exists results, w1, t1. split; [done|].
  split. { apply Forall2_length in Hall. by rewrite length_map in Hall. }
  split. { by apply Forall2_fmap_l in Hall. }
  rewrite Hrun. cbn [fst snd]. split; [|split; [done|]].
  - rewrite !attempts_app, (attempts_prints t0), (attempts_prints t2) by done.
    rewrite Hatt; [rewrite length_map; lia|].
    intros task w0 (region & -> & _)%list_elem_of_fmap.
    destruct (try (delete_gateway ext fuel self region eps) w0) as [[r w0'] t0'] eqn:Htry.
    assert ((delete_gateway ext fuel self region eps w0).2 = t0') as ->.
    { unfold try in Htry. destruct (delete_gateway _ _ _ _ _ _) as [[[a|e|] ?] ?];
        by injection Htry. }
    pose proof (delete_finishes ext fuel self region eps Hends w0) as Hfin.
    destruct r as [r|e|].
    + by apply delete_task in Htry as (? & _).
    + unfold try in Htry. by destruct (delete_gateway _ _ _ _ _ _) as [[[a|e'|] ?] ?].
    + unfold try in Htry. by destruct (delete_gateway _ _ _ _ _ _) as [[[a|e'|] ?] ?].
  - intros before result after ->. rewrite flat_map_app. cbn [flat_map]. done.
Qed.

Lemma shutdown_fans_out_witness :
  let run := shutdown mixed 1 silent_gateway None (Sim.world0 []) in
  ∃ results w1 t1,
    gather (map (λ region, delete_gateway mixed 1 silent_gateway region None)
              (regions silent_gateway)) (Sim.world0 [])
    = (Return results, w1, t1)
    ∧ length results = 4%nat
    ∧ attempts run.2 = 4%nat
    ∧ run.1 = (Return (flat_map returned results), w1).
Proof.
  intros run.
  destruct (shutdown_fans_out mixed 1 silent_gateway None (Sim.world0 []))
    as (results & w1 & t1 & Hg & Hlen & _ & Hatt & Hrun & _).
  { apply sim_listing_ends. }
  exists results, w1, t1.
  split; [exact Hg|]. split; [exact Hlen|]. split; [exact Hatt|exact Hrun].
Defined.

(** X18. Every identifier that [shutdown] returns was deleted: the
    returned list is a sublist of the identifiers whose [delete_rest_api]
    call succeeded, in the order of the calls.  It is all of them when no
    deletion failed with an exception other than a provider error code;
    otherwise identifiers can be missing: a region whose pass such an
    exception ends contributes nothing, as for [a1] in the run below. *)
Theorem shutdown_returns_deleted {W Response float Kwargs : Type}
    (ext : @Externals W Response float Kwargs)
    fuel self eps (w : world) ids :
  let run := shutdown ext fuel self eps w in
  run.1.1 = Return ids →
  ids `sublist_of` deleted_of (deletions run.2)
  ∧ ((∀ restApiId m, (restApiId, Some (BotoCoreError m)) ∉ deletions run.2) →
     ids = deleted_of (deletions run.2)).
Proof. intros run. subst run. apply shutdown_deleted. Qed.

Lemma shutdown_returns_deleted_witness :
  let run := shutdown interrupted 1 one_region_gateway None (Sim.world0 []) in
  run.1.1 = Return []
  ∧ deleted_of (deletions run.2) = ["a1"]
  ∧ [] `sublist_of` deleted_of (deletions run.2).
Proof.
  intros run. split; [reflexivity|]. split; [reflexivity|].
  apply (shutdown_returns_deleted interrupted 1 one_region_gateway None (Sim.world0 []) []).
  reflexivity.
Defined.

(** X19. A deletion that fails with an exception other than a provider
    error code ends the pass of its region: the exception is raised out of
    the per-region deprovision, the call that failed is the last one it
    made, and the resources after it in the listing are not tried. *)
Theorem deletion_stops_on_other_exception {W Response float Kwargs : Type}
    (ext : @Externals W Response float Kwargs)
    fuel self region eps (w : world) apis w1 t1 restApiId message :
  get_gateways_sync ext fuel (client_of self region) w = (Return apis, w1, t1) →
  let run := _delete_gateway_sync ext fuel self region eps w in
  (restApiId, Some (BotoCoreError message)) ∈ deletions run.2 →
  ∃ last_id m rest,
    run.1.1 = Raise (BotoException (BotoCoreError m))
    ∧ last (deletions run.2) = Some (last_id, Some (BotoCoreError m))
    ∧ map rest_api_id (List.filter (candidate self eps) apis)
      = map fst (deletions run.2) ++ rest.
Proof.
  intros Hlisting run. subst run.
  destruct (delete_run_spec ext fuel self region eps w apis w1 t1 Hlisting)
    as (ds & r & w2 & -> & Hds & Hr).
  cbn [fst snd]. rewrite Hds. intros Hd.
  destruct r as [out|e|]; [|destruct Hr as (id & m & rest & -> & Hlast & Hrest)|done].
  - destruct Hr as (_ & _ & Hall). rewrite Forall_forall in Hall.
    by destruct (Hall _ Hd message).
  - by exists id, m, rest.
Qed.

Lemma deletion_stops_on_other_exception_witness :
  let run := _delete_gateway_sync interrupted 1 one_region_gateway "us-east-1" None
               (Sim.world0 []) in
  ∃ last_id m rest,
    run.1.1 = Raise (BotoException (BotoCoreError m))
    ∧ last (deletions run.2) = Some (last_id, Some (BotoCoreError m))
    ∧ map rest_api_id
        (List.filter (candidate one_region_gateway None)
           [mkApi "m1" (Some "https://example.com - IP Rotate API (Manual Deletion Required)");
            mkApi "a1" (Some "https://example.com - IP Rotate API");
            mkApi "b2" (Some "https://example.com - IP Rotate API");
            mkApi "c3" (Some "other-tool")])
      = map fst (deletions run.2) ++ rest.
Proof.
  eapply (deletion_stops_on_other_exception interrupted 1 one_region_gateway "us-east-1" None
            (Sim.world0 []) _ _ _ "b2"
            "Connection was closed before a response was received").
  - reflexivity.
  - vm_compute. apply list_elem_of_further, list_elem_of_here.
Defined.

Section CompositionFacts.

Context {W Response float Kwargs : Type}.
Variable ext : @Externals W Response float Kwargs.

Ltac run :=
  unfold when, print, sleep in *;
  unfold mbind, M_bind, bind, mret, M_ret, ret, raise, out_of_fuel,
    emit, try, set_heap, set_outside in *;
  cbn [outside heap fst snd] in *.

(** A provisioning that succeeds returns an endpoint of its region. *)
Lemma init_endpoint_shape fuel self region force rmd (w : @world W) E new w1 t :
  init_gateway ext fuel self region force rmd w = (Return (Provisioned E new), w1, t) →
  ∃ restApiId, E = endpoint_of restApiId region.
Proof.
  unfold init_gateway.
  assert (∀ w0 r w2 t2,
            create_gateway ext self (client_of self region) region rmd w0
            = (Return r, w2, t2) →
            ∃ restApiId, r = Provisioned (endpoint_of restApiId region) true) as Hcreate.
  { intros w0 r w2 t2 Hrun.
    destruct (create_gateway_cases ext self (client_of self region) region rmd w0)
      as [(restApiId & root & proxy & Hr & _)
         |[(restApiId & Hr & _)|(made & failure & c & Hr & _)]];
      rewrite Hrun in Hr; cbn [fst] in Hr; [|done..].
    injection Hr as ->. by exists restApiId. }
  destruct force.
  - rewrite init_forced_run.
    destruct (create_gateway _ _ _ _ _ _) as [[r w2] t2] eqn:Hrun.
    intros [= -> <- <-]. destruct (Hcreate _ _ _ _ Hrun) as (restApiId & [= -> _]).
    by exists restApiId.
  - rewrite init_run. unfold init_after_listing.
    destruct (get_gateways_sync _ _ _ _) as [[[apis|e|] w1'] t1]; [| |done].
    + destruct (find _ _) as [api|].
      * intros [= <- _ _ _]. by eexists.
      * destruct (create_gateway _ _ _ _ _ _) as [[r w2] t2] eqn:Hrun.
        intros [= -> <- <-]. destruct (Hcreate _ _ _ _ Hrun) as (restApiId & [= -> _]).
        by exists restApiId.
    + destruct e as [| | | |[code message|]|]; try done.
      by destruct (String.eqb _ _).
Qed.

(** The endpoints of the runs of the provisioning tasks: at most one per
    region, in the order of the regions. *)
Lemma runs_successes (regions : list string)
    (runs : list ((exn + init_result) * list event)) :
  Forall2 (λ region run,
             ∀ E new, run.1 = inr (Provisioned E new) →
                      ∃ restApiId, E = endpoint_of restApiId region) regions runs →
  ∃ picks : list (string * string),
    successes (map fst runs) = map (λ p, endpoint_of p.1 p.2) picks
    ∧ map snd picks `sublist_of` regions.
Proof.
  induction 1 as [|region run regions runs Hrun _ (picks & Heq & Hsub)].
  { by exists []. }
  cbn [map]. change (run.1 :: map fst runs) with ([run.1] ++ map fst runs).
  rewrite successes_app, Heq. destruct run.1 as [e|[|E new]] eqn:Hr.
  - exists picks. split; [done|]. by apply sublist_cons.
  - exists picks. split; [done|]. by apply sublist_cons.
  - destruct (Hrun E new eq_refl) as (restApiId & ->).
    exists ((restApiId, region) :: picks). split; [done|]. by apply sublist_skip.
Qed.

(** [start] leaves in the object the list it returns, and nothing else
    of the object changes. *)
Lemma start_returned fuel self force rmd arg (w : @world W) eps self' w1 t :
  start ext fuel self force rmd arg w = (Return (eps, self'), w1, t) →
  self' = with_endpoints self eps.
Proof.
  destruct arg as [[|ep l]|].
  - pose proof (start_run ext fuel self force rmd (Some []) w (or_intror eq_refl)) as Hrun.
    destruct (gather _ w) as [[[results|e|] w1'] t1]; [|done|].
    + destruct Hrun as (t0 & t2 & -> & _). by intros [= <- <- _ _].
    + intros Heq. by rewrite Heq in Hrun.
  - cbn [start]. run. by intros [= <- <- _ _].
  - pose proof (start_run ext fuel self force rmd None w (or_introl eq_refl)) as Hrun.
    destruct (gather _ w) as [[[results|e|] w1'] t1]; [|done|].
    + destruct Hrun as (t0 & t2 & -> & _). by intros [= <- <- _ _].
    + intros Heq. by rewrite Heq in Hrun.
Qed.

Lemma start_picks fuel self force rmd arg (w : @world W) eps self' w1 t :
  arg = None ∨ arg = Some [] →
  start ext fuel self force rmd arg w = (Return (eps, self'), w1, t) →
  ∃ picks : list (string * string),
    eps = map (λ p, endpoint_of p.1 p.2) picks
    ∧ map snd picks `sublist_of` regions self.
Proof.
  intros Harg. pose proof (start_run ext fuel self force rmd arg w Harg) as Hrun.
  destruct (gather _ w) as [[[results|e|] w1'] t1] eqn:Hg; [|done|].
  2:{ intros Heq. by rewrite Heq in Hrun. }
  destruct Hrun as (t0 & t2 & -> & _). intros [= <- _ _ _].
  apply gather_runs in Hg as (runs & -> & _ & Hall).
  unfold start_tasks in Hall. apply Forall2_fmap_l in Hall.
  apply runs_successes.
  eapply Forall2_impl; [exact Hall|].
  intros region run (w0 & w0' & Htry) E new Hr. cbn beta in Htry.
  rewrite Hr in Htry. unfold try in Htry.
  destruct (init_gateway ext fuel self region force rmd w0) as [[[a|e|] w3] t3] eqn:Hinit;
    [|done..].
  injection Htry as -> _ _. by eapply init_endpoint_shape.
Qed.

End CompositionFacts.

(** X20. Without explicit endpoints, the list that [start] returns holds
    at most one endpoint per region, in the order of the regions, each of
    the form [<id>.execute-api.<region>.amazonaws.com] for a region of the
    object. *)
Theorem start_endpoints_follow_regions {W Response float Kwargs : Type}
    (ext : @Externals W Response float Kwargs)
    fuel self force rmd arg (w : world) eps self' w1 t :
  arg = None ∨ arg = Some [] →
  start ext fuel self force rmd arg w = (Return (eps, self'), w1, t) →
  ∃ picks : list (string * string),
    eps = map (λ p, endpoint_of p.1 p.2) picks
    ∧ map snd picks `sublist_of` regions self
    ∧ (length eps <= length (regions self))%nat.
Proof.
  intros Harg Hrun.
  destruct (start_picks ext fuel self force rmd arg w eps self' w1 t Harg Hrun)
    as (picks & -> & Hsub).
  exists picks. split; [done|]. split; [done|].
  apply sublist_length in Hsub. by rewrite !length_map in *.
Qed.

Lemma start_endpoints_follow_regions_witness :
  ∃ picks : list (string * string),
    ["abc123.execute-api.us-east-1.amazonaws.com";
     "new-us-west-2.execute-api.us-west-2.amazonaws.com"]
    = map (λ p, endpoint_of p.1 p.2) picks
    ∧ map snd picks `sublist_of` regions silent_gateway
    ∧ (2 <= length (regions silent_gateway))%nat.
Proof.
  eapply (start_endpoints_follow_regions mixed 1 silent_gateway false false None
            (Sim.world0 [])); [by left|reflexivity].
Defined.

(** X21. [start] leaves in the object exactly the list it returns and
    changes nothing else of it.  So after a [start] in which no region
    gave an endpoint, which returns the empty list without raising, the
    next [send] raises the error of a pool that was not started and sends
    nothing; and after any other [start], a [send] of a URL that contains
    [://] makes one request, to one of the returned endpoints. *)
Theorem send_after_start {W Response float Kwargs : Type}
    (ext : @Externals W Response float Kwargs)
    fuel self force rmd arg (w : world) eps self' w1 t
    method url headers timeout kwargs (w' : world) :
  start ext fuel self force rmd arg w = (Return (eps, self'), w1, t) →
  let sent := send ext self' method url headers timeout kwargs w' in
  self' = with_endpoints self eps
  ∧ (eps = [] →
     sent = (Raise not_started_error, mkWorld (outside w') (settled_heap w' headers), []))
  ∧ (eps ≠ [] → Str.contains "://" url = true →
     ∃ E site_rest H,
       E ∈ eps
       ∧ sent.2 = [Request method ("https://" +:+ E +:+ "/ProxyStage/"
                                     +:+ site_path_of site_rest) H]
       ∧ H !! "Host" = Some E).
Proof.
  intros Hstart sent. subst sent.
  apply start_returned in Hstart as ->. split; [done|].
  destruct (send_cases_opt ext (with_endpoints self eps) method url headers timeout kwargs w')
    as [[Heps ->]|[(E & o & HE & Hp & ->)
                  |(E & o & p & r & v & o' & res & o'' & HE & Hp & _ & _ & ->)]];
    cbn [endpoints with_endpoints] in *.
  - split; [done|]. by intros Hne.
  - apply drawn_elem_of in HE. cbn [endpoints with_endpoints] in HE. split.
    + intros ->. by apply elem_of_nil in HE.
    + intros _ Hc. unfold Str.contains in Hc. by rewrite Hp in Hc.
  - apply drawn_elem_of in HE. cbn [endpoints with_endpoints] in HE. split.
    + intros ->. by apply elem_of_nil in HE.
    + intros _ _. exists E, r, (rewritten E v (caller_headers w' headers)).
      split; [done|]. split; [done|]. unfold rewritten.
      rewrite lookup_insert_ne, lookup_delete_ne by done. apply lookup_insert_eq.
Qed.

Lemma send_after_start_witness :
  let started := start mixed 1 silent_gateway false false None (Sim.world0 []) in
  ∃ eps self',
    started.1.1 = Return (eps, self')
    ∧ self' = with_endpoints silent_gateway eps
    ∧ (eps ≠ [] → Str.contains "://" "http://example.com/a/b" = true →
       ∃ E site_rest H,
         E ∈ eps
         ∧ (send mixed self' "GET" "http://example.com/a/b" None tt tt (Sim.world0 [7%N])).2
           = [Request "GET" ("https://" +:+ E +:+ "/ProxyStage/"
                                +:+ site_path_of site_rest) H]
         ∧ H !! "Host" = Some E).
Proof.
  intros started. eexists _, _. split; [reflexivity|].
  pose proof (send_after_start mixed 1 silent_gateway false false None (Sim.world0 [])
                _ _ _ _ "GET" "http://example.com/a/b" None tt tt (Sim.world0 [7%N])
                eq_refl) as (Hself & _ & Hsend).
  split; [exact Hself|exact Hsend].
Defined.

Section ReportFacts.

Context {W Response float Kwargs : Type}.
Variable ext : @Externals W Response float Kwargs.

Ltac run :=
  unfold when, print, sleep in *;
  unfold mbind, M_bind, bind, mret, M_ret, ret, raise, out_of_fuel,
    emit, try, set_heap, set_outside in *;
  cbn [outside heap fst snd] in *.

Lemma new_count_app rs rs' : new_count (rs ++ rs') = (new_count rs + new_count rs')%nat.
Proof. unfold new_count. by rewrite List.filter_app, length_app. Qed.

Lemma new_count_successes rs : (new_count rs <= length (successes rs))%nat.
Proof.
  induction rs as [|r rs IH]; [done|]. change (r :: rs) with ([r] ++ rs).
  rewrite new_count_app, successes_app, length_app.
  destruct r as [e|[|E [|]]]; cbn; lia.
Qed.

(** The [for result in results] loop of [start], with its counter. *)
Lemma collect_endpoints_count self results acc n (w : @world W) :
  ∃ t,
    collect_endpoints self results acc n w
    = (Return (acc ++ successes results, (n + new_count results)%nat), w, t)
    ∧ forallb is_print t = true.
Proof.
  revert acc n. induction results as [|result results IH]; intros acc n.
  { exists []. cbn. by rewrite app_nil_r, Nat.add_0_r. }
  change (result :: results) with ([result] ++ results).
  rewrite new_count_app, successes_app. cbn [app collect_endpoints].
  destruct result as [e|[|endpoint new]].
  - destruct (IH acc n) as (t & Hrun & Ht).
    destruct (verbose self); run; rewrite Hrun; eexists; by split.
  - apply IH.
  - destruct (IH (acc ++ [endpoint]) (if new then S n else n)) as (t & Hrun & Ht).
    rewrite Hrun. exists t. split; [|done].
    cbn [successes flat_map contribution app]. rewrite <-app_assoc. cbn [app].
    by replace (n + (new_count [inr (Provisioned endpoint new)] + new_count results))%nat
      with ((if new then S n else n) + new_count results)%nat
      by (destruct new; cbn; lia).
Qed.

(** [start] without explicit endpoints when [verbose], with its first
    and last lines. *)
Lemma start_verbose_run fuel self force rmd arg (w : @world W) results w1 t1 :
  verbose self = true →
  arg = None ∨ arg = Some [] →
  gather (start_tasks ext fuel self force rmd) w = (Return results, w1, t1) →
  ∃ t2,
    start ext fuel self force rmd arg w
    = (Return (successes results, with_endpoints self (successes results)), w1,
       Stdout (starting_line self)
       :: t1 ++ t2 ++ [Stdout (using_line self (successes results) (new_count results))])
    ∧ forallb is_print t2 = true.
Proof.
  intros Hv Harg Hg.
  assert (start ext fuel self force rmd arg w
          = start ext fuel self force rmd None w) as -> by (by destruct Harg as [->| ->]).
  unfold start. rewrite Hv.
  destruct (collect_endpoints_count self results [] 0 w1) as (t & Hrun & Ht).
  cbn [app] in Hrun. run. rewrite Hg, Hrun. cbn [app].
  exists t. split; [|done]. unfold starting_line, using_line.
  by rewrite Nat.add_0_l.
Qed.

Lemma shutdown_verbose_run fuel self eps (w : @world W) results w1 t1 :
  verbose self = true →
  gather (map (λ region, delete_gateway ext fuel self region eps) (regions self)) w
  = (Return results, w1, t1) →
  ∃ t2,
    shutdown ext fuel self eps w
    = (Return (flat_map returned results), w1,
       Stdout (deleting_line self)
       :: t1 ++ t2 ++ [Stdout (deleted_line self (flat_map returned results))])
    ∧ forallb is_print t2 = true.
Proof.
  intros Hv Hg. unfold shutdown. rewrite Hv.
  destruct (collect_deleted_returned self results [] w1) as (t & Hrun & Ht).
  cbn [app] in Hrun. run. rewrite Hg, Hrun. cbn [app].
  by exists t.
Qed.

Lemma start_never_raises fuel self force rmd arg (w : @world W) e :
  (start ext fuel self force rmd arg w).1.1 ≠ Raise e.
Proof.
  destruct arg as [[|ep l]|].
  - pose proof (start_run ext fuel self force rmd (Some []) w (or_intror eq_refl)) as Hrun.
    destruct (gather _ w) as [[[results|e'|] w1] t1]; [|done|].
    + by destruct Hrun as (t0 & t2 & -> & _).
    + by rewrite Hrun.
  - done.
  - pose proof (start_run ext fuel self force rmd None w (or_introl eq_refl)) as Hrun.
    destruct (gather _ w) as [[[results|e'|] w1] t1]; [|done|].
    + by destruct Hrun as (t0 & t2 & -> & _).
    + by rewrite Hrun.
Qed.

Lemma start_returns fuel self force rmd arg (w : @world W) :
  listing_ends ext fuel ∨ force = true →
  ∃ eps w1 t, start ext fuel self force rmd arg w
              = (Return (eps, with_endpoints self eps), w1, t).
Proof.
  intros Hends. destruct arg as [[|ep l]|].
  - pose proof (start_run ext fuel self force rmd (Some []) w (or_intror eq_refl)) as Hrun.
    destruct (gather_returns (start_tasks ext fuel self force rmd) w)
      as (results & w1 & t1 & Hg & _).
    { intros task (region & -> & _)%list_elem_of_fmap. by apply init_finishes. }
    rewrite Hg in Hrun. destruct Hrun as (t0 & t2 & -> & _). by eexists _, _, _.
  - by eexists _, _, _.
  - pose proof (start_run ext fuel self force rmd None w (or_introl eq_refl)) as Hrun.
    destruct (gather_returns (start_tasks ext fuel self force rmd) w)
      as (results & w1 & t1 & Hg & _).
    { intros task (region & -> & _)%list_elem_of_fmap. by apply init_finishes. }
    rewrite Hg in Hrun. destruct Hrun as (t0 & t2 & -> & _). by eexists _, _, _.
Qed.

End ReportFacts.

(** X22. With [verbose] on and no explicit endpoints, a [start] that
    returns prints first the line that announces the regions, with their
    number, and last the line that reports the endpoints in use: the
    number it gives is the length of the returned list, and the number of
    new ones is the number of regions whose task created a gateway, which
    is never more. *)
Theorem start_reports_counts {W Response float Kwargs : Type}
    (ext : @Externals W Response float Kwargs)
    fuel self force rmd arg (w : world) eps self' w1 t :
  verbose self = true →
  arg = None ∨ arg = Some [] →
  start ext fuel self force rmd arg w = (Return (eps, self'), w1, t) →
  ∃ results w1' t1 middle,
    gather (start_tasks ext fuel self force rmd) w = (Return results, w1', t1)
    ∧ t = Stdout (starting_line self) :: middle
            ++ [Stdout (using_line self eps (new_count results))]
    ∧ (new_count results <= length eps)%nat.
Proof.
  intros Hv Harg Hstart.
  pose proof (start_run ext fuel self force rmd arg w Harg) as Hrun.
  destruct (gather (start_tasks ext fuel self force rmd) w)
    as [[[results|e|] w1'] t1] eqn:Hg; [|done|by rewrite Hstart in Hrun].
  destruct (start_verbose_run ext fuel self force rmd arg w results w1' t1 Hv Harg Hg)
    as (t2 & Hrun' & _).
  rewrite Hstart in Hrun'. injection Hrun' as -> _ _ ->.
  exists results, w1', t1, (t1 ++ t2). split; [done|]. split.
  - by rewrite <-app_assoc.
  - apply new_count_successes.
Qed.

Lemma start_reports_counts_witness :
  let self := one_region_gateway in
  ∃ results w1' t1 middle,
    gather (start_tasks foreign 1 self false true) (Sim.world0 []) = (Return results, w1', t1)
    ∧ (start foreign 1 self false true None (Sim.world0 [])).2
      = Stdout "Starting API gateway in 1 region(s)." :: middle
          ++ [Stdout (using_line self ["new-us-east-1.execute-api.us-east-1.amazonaws.com"]
                        (new_count results))]
    ∧ (new_count results <= 1)%nat.
Proof.
  intros self.
  eapply (start_reports_counts foreign 1 one_region_gateway false true None (Sim.world0 []));
    [reflexivity|by left|reflexivity].
Defined.

(** X23. With [verbose] on, a [shutdown] that returns prints first the
    line that names the site and last the line that reports the deleted
    endpoints, with the length of the returned list. *)
Theorem shutdown_reports_count {W Response float Kwargs : Type}
    (ext : @Externals W Response float Kwargs)
    fuel self eps (w : world) ids w1 t :
  verbose self = true →
  shutdown ext fuel self eps w = (Return ids, w1, t) →
  ∃ middle,
    t = Stdout (deleting_line self) :: middle ++ [Stdout (deleted_line self ids)].
Proof.
  intros Hv Hshutdown.
  pose proof (shutdown_run ext fuel self eps w) as Hrun.
  destruct (gather _ w) as [[[results|e|] w1'] t1] eqn:Hg;
    [|done|by rewrite Hshutdown in Hrun].
  destruct (shutdown_verbose_run ext fuel self eps w results w1' t1 Hv Hg) as (t2 & Hrun' & _).
  rewrite Hshutdown in Hrun'. injection Hrun' as -> _ ->.
  exists (t1 ++ t2). by rewrite <-app_assoc.
Qed.

Lemma shutdown_reports_count_witness :
  ∃ middle,
    (shutdown flagged 1 one_region_gateway None (Sim.world0 [])).2
    = Stdout (deleting_line one_region_gateway) :: middle
        ++ [Stdout (deleted_line one_region_gateway ["b2"])].
Proof.
  eapply (shutdown_reports_count flagged 1 one_region_gateway None (Sim.world0 []) ["b2"]);
    reflexivity.
Defined.

(** X24. Entering and leaving the context never raise, whatever the
    provider answers: [__aenter__] is [start] with its defaults and gives
    back the object with the endpoints found, possibly none, and
    [__aexit__] is [shutdown] without allow-list and gives nothing back.
    Both return when the listings end.  Entering deletes nothing and
    leaving creates nothing. *)
Theorem context_never_raises {W Response float Kwargs : Type}
    (ext : @Externals W Response float Kwargs)
    fuel self (w : world) :
  (∀ e, (__aenter__ ext fuel self w).1.1 ≠ Raise e)
  ∧ (∀ e, (__aexit__ ext fuel self w).1.1 ≠ Raise e)
  ∧ deletions (__aenter__ ext fuel self w).2 = []
  ∧ forallb no_creation (__aexit__ ext fuel self w).2 = true
  ∧ (listing_ends ext fuel →
     (∃ eps w1 t,
        __aenter__ ext fuel self w = (Return (with_endpoints self eps), w1, t)
        ∧ start ext fuel self false false None w
          = (Return (eps, with_endpoints self eps), w1, t))
     ∧ (∃ ids w1 t,
          __aexit__ ext fuel self w = (Return tt, w1, t)
          ∧ shutdown ext fuel self None w = (Return ids, w1, t))).
Proof.
  assert ((__aenter__ ext fuel self w).2 = (start ext fuel self false false None w).2
          ∧ (__aexit__ ext fuel self w).2 = (shutdown ext fuel self None w).2)
    as [Henter Hexit].
  { unfold __aenter__, __aexit__, mbind, M_bind, bind, ret. split.
    - destruct (start _ _ _ _ _ _ _) as [[[[eps s]|e|] w1] t]; cbn [snd]; by rewrite ?app_nil_r.
    - destruct (shutdown _ _ _ _ _) as [[[ids|e|] w1] t]; cbn [snd]; by rewrite ?app_nil_r. }
  split; [|split; [|split; [|split]]].
  - intros e. pose proof (start_never_raises ext fuel self false false None w) as Hnr.
    unfold __aenter__, mbind, M_bind, bind, ret.
    destruct (start _ _ _ _ _ _ _) as [[[[eps s]|e'|] w1] t]; cbn [fst] in *; [done| |done].
    by destruct (Hnr e').
  - intros e. pose proof (shutdown_never_raises ext fuel self None w) as Hnr.
    unfold __aexit__, mbind, M_bind, bind, ret.
    destruct (shutdown _ _ _ _ _) as [[[ids|e'|] w1] t]; cbn [fst] in *; [done| |done].
    by destruct (Hnr e').
  - rewrite Henter. apply deletions_none.
    apply (start_emits ext no_deletion fuel self false false None); [done|].
    intros cl c failure Hc. by destruct c.
  - rewrite Hexit.
    by apply (shutdown_emits ext no_creation fuel self None).
  - intros Hends. split.
    + destruct (start_returns ext fuel self false false None w (or_introl Hends))
        as (eps & w1 & t & Hstart).
      exists eps, w1, t. split; [|done].
      unfold __aenter__, mbind, M_bind, bind, ret. rewrite Hstart. by rewrite app_nil_r.
    + destruct (shutdown_returns ext fuel self None w Hends) as (ids & w1 & t & Hshutdown).
      exists ids, w1, t. split; [|done].
      unfold __aexit__, mbind, M_bind, bind, ret. rewrite Hshutdown. by rewrite app_nil_r.
Qed.

Lemma context_never_raises_witness :
  (∃ eps w1 t,
     __aenter__ mixed 1 silent_gateway (Sim.world0 [])
     = (Return (with_endpoints silent_gateway eps), w1, t)
     ∧ start mixed 1 silent_gateway false false None (Sim.world0 [])
       = (Return (eps, with_endpoints silent_gateway eps), w1, t))
  ∧ (∃ ids w1 t,
       __aexit__ mixed 1 silent_gateway (Sim.world0 []) = (Return tt, w1, t)
       ∧ shutdown mixed 1 silent_gateway None (Sim.world0 []) = (Return ids, w1, t)).
Proof.
  pose proof (context_never_raises mixed 1 silent_gateway (Sim.world0 []))
    as (_ & _ & _ & _ & Hreturns).
  apply Hreturns. apply sim_listing_ends.
Defined.

(** X25. [send] writes to one dictionary only, the headers it was given,
    or the new one it makes when it was given none: every other
    dictionary of the caller is, after the call, as it was before,
    whether the call returns or raises. *)
Theorem send_keeps_other_dictionaries {W Response float Kwargs : Type}
    (ext : @Externals W Response float Kwargs)
    self method url headers timeout kwargs (w : world) d :
  d ≠ headers_loc w headers →
  heap (send ext self method url headers timeout kwargs w).1.2 !! d = heap w !! d
  ∧ (headers = None → headers_loc w headers ∉ dom (heap w)).
Proof.
  intros Hd. split.
  - assert (settled_heap w headers !! d = heap w !! d) as Hsettled.
    { destruct headers as [d0|]; cbn [settled_heap headers_loc] in *; [done|].
      by rewrite lookup_insert_ne. }
    destruct (send_cases_opt ext self method url headers timeout kwargs w)
      as [[_ ->]|[(E & o & _ & _ & ->)
                 |(E & o & p & r & v & o' & res & o'' & _ & _ & _ & _ & ->)]];
      cbn [fst snd heap]; [done|done|].
    by rewrite lookup_insert_ne.
  - intros ->. cbn [headers_loc]. apply is_fresh.
Qed.

Lemma send_keeps_other_dictionaries_witness :
  heap (send quiet example_gateway "GET" "http://example.com/foo" (Some 0%nat) tt tt
          example_world).1.2 !! 1%nat
  = heap example_world !! 1%nat
  ∧ (Some 0%nat = None →
     headers_loc example_world (Some 0%nat) ∉ dom (heap example_world)).
Proof.
  apply (send_keeps_other_dictionaries quiet example_gateway "GET" "http://example.com/foo"
           (Some 0%nat) tt tt example_world 1%nat).
  cbn. lia.
Defined.
